(** * gym-electric-motor: the SCML engine, the environment and the
      single-quadrant converter

    A shallow embedding of
      - [physical_systems/converters/finite_control_set/finite_one_quadrant_converter.py],
      - [physical_systems/scml_system.py],
      - [core/electric_motor_environment.py] and
      - [physical_systems/electric_motors/externally_excited_synchronous_motor.py].

    Python numbers (int and float alike) are exact rationals [Qc]; rounding of
    floating-point arithmetic is not modelled.  A Python call that can raise
    returns a [res]; a method that mutates its object threads the object
    through the state-and-exception monad [M]. *)

From Stdlib Require Import ZArith QArith Qcanon Bool Lia.
From stdpp Require Import gmap strings list fin_maps.

Set Default Proof Using "Type".

(** ** Python values, exceptions and the two monads *)

Module Py.

Inductive exn : Type :=
| AssertionError (msg : string)
| AttributeError (attr : string)
| NameError (name : string)
| IndexError (msg : string)
| TypeError (msg : string)
| ValueError (msg : string).

Inductive res (A : Type) : Type :=
| Ok (a : A)
| Raise (e : exn).
Arguments Ok {A} a.
Arguments Raise {A} e.

Definition is_ok {A} (r : res A) : bool :=
  match r with Ok _ => true | Raise _ => false end.

Definition rbind {A B} (r : res A) (k : A -> res B) : res B :=
  match r with Ok a => k a | Raise e => Raise e end.

(** State and exception: the object as it is when the call returns or
    raises. *)
Definition M (S A : Type) : Type := S -> res A * S.

Definition ret {S A} (a : A) : M S A := fun s => (Ok a, s).
Definition raise {S A} (e : exn) : M S A := fun s => (Raise e, s).
Definition bind {S A B} (c : M S A) (k : A -> M S B) : M S B :=
  fun s => match c s with
           | (Ok a, s') => k a s'
           | (Raise e, s') => (Raise e, s')
           end.
Definition get {S} : M S S := fun s => (Ok s, s).
Definition modify {S} (f : S -> S) : M S unit := fun s => (Ok tt, f s).
Definition lift {S A} (r : res A) : M S A := fun s => (r, s).

(** Python numbers. *)
Definition num : Type := Qc.
Definition array : Type := list num.
Definition matrix : Type := list (list num).

Definition int (z : Z) : num := Q2Qc (inject_Z z).

(** [x >= y] on numbers. *)
Definition ge (x y : num) : bool :=
  if Qclt_le_dec x y then false else true.

(** [l[i]] on a list or a one-dimensional array. *)
Definition getitem {A} (l : list A) (i : nat) : res A :=
  match l !! i with
  | Some x => Ok x
  | None => Raise (IndexError "index out of range")
  end.

End Py.

Import Py.

Declare Scope py_scope.
Delimit Scope py_scope with py.
Notation "'let?' x ':=' c 'in' k" := (rbind c (fun x => k))
  (at level 10, x pattern, c at level 200, k at level 200,
   format "'[v' 'let?'  x  ':='  c  'in' '/' k ']'") : py_scope.
Notation "'let!' x ':=' c 'in' k" := (bind c (fun x => k))
  (at level 10, x pattern, c at level 200, k at level 200,
   format "'[v' 'let!'  x  ':='  c  'in' '/' k ']'") : py_scope.
Notation "c ';;' k" := (bind c (fun _ => k))
  (at level 100, k at level 200, right associativity) : py_scope.
Open Scope py_scope.

(** ** FiniteOneQuadrantConverter *)

Module FiniteOneQuadrantConverter.

(** Switching states: 0 transistor off, 1 transistor on
    ([action_space = Discrete(2)]). *)
Definition off : Z := 0.
Definition on : Z := 1.

(** The one attribute the two methods read. *)
Record t : Type := { _current_action : Z }.

(** The converter after [set_action(a, _)]. *)
Definition switched (a : Z) : t := {| _current_action := a |}.

(** [return [self._current_action * u_sup[0] if i_out[0] >= 0 else u_sup[0]]] *)
Definition convert (self : t) (time : num) (i_out u_sup : array) : res array :=
  let? i0 := getitem i_out 0 in
  if ge i0 (int 0)
  then let? u0 := getitem u_sup 0 in Ok [(int (_current_action self) * u0)%Qc]
  else let? u0 := getitem u_sup 0 in Ok [u0].

(** [return i_out[0] if self._current_action == 1 else 0] *)
Definition i_sup (self : t) (i_out : array) : res num :=
  if (_current_action self =? 1)%Z
  then getitem i_out 0
  else Ok (int 0).

End FiniteOneQuadrantConverter.

(** ** numpy arrays: the operations the engine uses *)

Module Np.

Definition zeros (n : nat) : array := replicate n (int 0).
Definition zeros2 (n m : nat) : matrix := replicate n (zeros m).

Definition concatenate (parts : list array) : array := concat parts.

(** [a[start:stop]] for non-negative bounds: the bounds are clipped to the
    length. *)
Definition slice_get {A} (a : list A) (start stop : nat) : list A :=
  take (stop - start) (drop start a).

(** [a[start:stop] = v]: [v] is written in place when its length is that
    of the clipped target, is repeated when it has one element, and is
    refused otherwise. *)
Definition slice_set (a : array) (start stop : nat) (v : array) : res array :=
  let lo := start `min` length a in
  let hi := lo `max` (stop `min` length a) in
  if decide (length v = hi - lo) then Ok (take lo a ++ v ++ drop hi a)
  else match v with
       | [x] => Ok (take lo a ++ replicate (hi - lo) x ++ drop hi a)
       | _ => Raise (ValueError "could not broadcast input array")
       end.

(** [a / b] on one-dimensional arrays, with numpy's broadcasting of a
    one-element operand.  (A zero divisor gives 0 here; numpy gives inf or
    nan with a warning.) *)
Definition divide (a b : array) : res array :=
  if decide (length a = length b) then Ok (zip_with Qcdiv a b)
  else match a, b with
       | [x], _ => Ok (map (fun y => (x / y)%Qc) b)
       | _, [y] => Ok (map (fun x => (x / y)%Qc) a)
       | _, _ => Raise (ValueError "operands could not be broadcast together")
       end.

Definition multiply (a b : array) : array := zip_with Qcmult a b.

(** [m.shape] of a two-dimensional array. *)
Definition shape2 (m : matrix) : nat * nat :=
  (length m, match m with [] => 0 | r :: _ => length r end).

(** [np.matmul(a.reshape(-1, 1), b.reshape(1, -1))] *)
Definition outer (a b : array) : matrix :=
  map (fun x => map (fun y => (x * y)%Qc) b) a.

Definition has_shape (m : matrix) (r c : nat) : bool :=
  bool_decide (length m = r) && forallb (fun row => bool_decide (length row = c)) m.

(** [m[r0:r1, c0:c1] = blk] with [blk] of exactly the target's shape. *)
Definition block_set (m : matrix) (r0 r1 c0 c1 : nat) (blk : matrix) : res matrix :=
  let '(n, k) := shape2 m in
  let r0 := r0 `min` n in let r1 := r0 `max` (r1 `min` n) in
  let c0 := c0 `min` k in let c1 := c0 `max` (c1 `min` k) in
  if has_shape blk (r1 - r0) (c1 - c0)
  then Ok (imap (fun i row =>
                   if bool_decide (r0 <= i < r1)
                   then take c0 row ++ default [] (blk !! (i - r0)) ++ drop c1 row
                   else row) m)
  else Raise (ValueError "could not broadcast input array").

(** [m[r0:r1, [j]] = col.reshape((-1, 1))] *)
Definition column_set (m : matrix) (r0 r1 j : nat) (col : array) : res matrix :=
  let '(n, k) := shape2 m in
  let r0 := r0 `min` n in let r1 := r0 `max` (r1 `min` n) in
  if bool_decide (k <= j) then Raise (IndexError "index out of bounds")
  else if bool_decide (length col = r1 - r0)
  then Ok (imap (fun i row =>
                   if bool_decide (r0 <= i < r1)
                   then <[j := default (int 0) (col !! (i - r0))]> row
                   else row) m)
  else Raise (ValueError "shape mismatch").

(** The start of [a[-k:]] on an axis of length [n]. *)
Definition from_end (n k : nat) : nat := if decide (k = 0) then 0 else n - k.

End Np.

(** ** numpy.random.SeedSequence *)

Module NpRandom.

(** A seed sequence is its entropy, its place in the spawn tree and the
    number of children it has handed out. *)
Record SeedSequence : Type := {
  entropy : Z;
  spawn_key : list nat;
  n_children_spawned : nat
}.

(** [SeedSequence(seed)]: [None] draws the entropy from the operating
    system (here the argument [os_entropy]); a negative integer is
    refused. *)
Definition new (seed : option Z) (os_entropy : N) : res SeedSequence :=
  match seed with
  | None => Ok {| entropy := Z.of_N os_entropy; spawn_key := [];
                  n_children_spawned := 0 |}
  | Some n =>
      if (n <? 0)%Z then Raise (ValueError "expected non-negative integer")
      else Ok {| entropy := n; spawn_key := []; n_children_spawned := 0 |}
  end.

Definition child (s : SeedSequence) (i : nat) : SeedSequence :=
  {| entropy := entropy s; spawn_key := spawn_key s ++ [i];
     n_children_spawned := 0 |}.

(** [s.spawn(n)]: the next [n] children, and [s] as it is afterwards. *)
Definition spawn (n : nat) (s : SeedSequence) : list SeedSequence * SeedSequence :=
  (map (child s) (seq (n_children_spawned s) n),
   {| entropy := entropy s; spawn_key := spawn_key s;
      n_children_spawned := n_children_spawned s + n |}).

(** [component.seed(sub)] when the component is a [RandomComponent];
    [None] stands for a component that is not one. *)
Definition seeder (X : Type) : Type := option (SeedSequence -> M X unit).

(** [if isinstance(rc, gem.RandomComponent): rc.seed(sub)] *)
Definition seed_if_random {X} (f : seeder X) (sub : SeedSequence) : M X unit :=
  match f with
  | Some seed => seed sub
  | None => ret tt
  end.

End NpRandom.

(** ** SCMLSystem *)

Module SCML.
Import NpRandom.

Definition shape : Type := list nat.

(** Methods of the class that are handed over as bound methods. *)
Inductive method : Type := system_equation | system_jacobian.

(** A box space, by its bounds. *)
Record Box : Type := { low : array; high : array }.

(** What the instance attributes of an [SCMLSystem] hold. *)
Inductive value : Type :=
| VNone
| VNum (x : num)
| VPos (i : nat)
| VSlice (start stop : nat)
| VIndex (idx : list nat)
| VArray (a : array)
| VMatrix (m : matrix)
| VNames (l : list string)
| VBox (b : Box)
| VMethod (f : method).

Definition as_num (v : value) : res num :=
  match v with VNum x => Ok x | _ => Raise (TypeError "a number is required") end.
Definition as_pos (v : value) : res nat :=
  match v with VPos i => Ok i | _ => Raise (TypeError "an index is required") end.
Definition as_slice (v : value) : res (nat * nat) :=
  match v with VSlice a b => Ok (a, b) | _ => Raise (TypeError "a slice is required") end.
Definition as_array (v : value) : res array :=
  match v with VArray a => Ok a | _ => Raise (TypeError "an array is required") end.
Definition as_matrix (v : value) : res matrix :=
  match v with VMatrix m => Ok m | _ => Raise (TypeError "a matrix is required") end.

(** [state[idx]] where [idx] is a slice or a list of positions. *)
Definition index_by (state : array) (idx : value) : res array :=
  match idx with
  | VSlice a b => Ok (Np.slice_get state a b)
  | VIndex l => match mapM (fun i => state !! i) l with
                | Some a => Ok a
                | None => Raise (IndexError "index out of bounds")
                end
  | _ => Raise (TypeError "invalid index")
  end.

(** [x / self._limits]: with [None] as the divisor numpy divides entry by
    entry as Python objects, which raises at the first entry, if there is
    one. *)
Definition divide_by (x : array) (limits : value) : res array :=
  match limits with
  | VArray l => Np.divide x l
  | VNum y => Ok (map (fun a => (a / y)%Qc) x)
  | VNone => match x with
             | [] => Ok []
             | _ :: _ => Raise (TypeError "unsupported operand type(s) for /")
             end
  | _ => Raise (TypeError "unsupported operand type(s) for /")
  end.

(** Modelled from the spec: [gem.utils.concatenate_boxes] is not among the
    sources; the roles' observation spaces are joined in the order given
    (section 4.2, "for the engine's concatenation logic"). *)
Definition concatenate_boxes (bs : list Box) : Box :=
  {| low := concat (map low bs); high := concat (map high bs) |}.

(** *** The roles, as the engine calls them *)

Record PowerElectronicConverter (action CS : Type) : Type := {
  conv_supply_shape : shape;
  conv_output_shape : shape;
  set_action : action -> num -> M CS (list num);
  conv_i_sup : array -> M CS num;
  conv_convert : num -> array -> array -> M CS array;
  conv_reset : M CS unit;
  conv_get_observation : CS -> array;
  conv_limits : CS -> array;
  conv_observation_names : list string;
  conv_observation_space : Box;
  conv_seed : seeder CS
}.

Record ElectricMotor (MS : Type) : Type := {
  input_shape : shape;
  torque_shape : shape;
  motor_ode_size : nat;
  motor_HAS_JACOBIAN : bool;
  (** [motor_parameter['j_rotor']] *)
  motor_parameter_j_rotor : MS -> num;
  i_in : num -> value -> M MS array;
  set_u_in : array -> M MS unit;
  electrical_ode : MS -> array -> num -> array;
  torque : MS -> array -> num;
  electrical_jacobian : MS -> array -> num -> matrix * array * array;
  motor_reset : M MS unit;
  motor_get_observation : MS -> array -> array;
  motor_limits : MS -> array;
  motor_observation_names : list string;
  motor_observation_space : Box;
  motor_seed : seeder MS
}.

Record MechanicalLoad (LS : Type) : Type := {
  speed_shape : shape;
  load_ode_size : nat;
  load_HAS_JACOBIAN : bool;
  set_j_rotor : num -> LS -> LS;
  get_omega : LS -> array -> num;
  mechanical_ode : LS -> num -> array -> num -> array;
  mechanical_jacobian : LS -> num -> array -> num -> matrix * array;
  load_reset : M LS unit;
  load_get_observation : LS -> array -> array;
  load_limits : LS -> array;
  load_observation_names : list string;
  load_observation_space : Box;
  load_seed : seeder LS
}.

Record VoltageSupply (SS : Type) : Type := {
  supply_shape : shape;
  get_u_sup : num -> num -> M SS array;
  supply_reset : M SS unit;
  supply_get_observation : SS -> array;
  supply_limits : SS -> array;
  supply_observation_names : list string;
  supply_observation_space : Box;
  supply_seed : seeder SS
}.

(** Modelled from the spec: the [OdeSolver] classes are not among the
    sources.  Section 4.2: "Solver: setSystemEquation(rhs, jacobianOrNone),
    setInitialValue(state, time), integrate(targetTime) -> state, read-only
    current (state, time)".  The solver object keeps what it was given; the
    integration scheme itself is a parameter of the engine model. *)
Record OdeSolver : Type := {
  solver_equation : value;
  solver_jac : value;
  solver_t : num;
  solver_y : array
}.

Definition set_system_equation (f jac : value) (s : OdeSolver) : OdeSolver :=
  {| solver_equation := f; solver_jac := jac;
     solver_t := solver_t s; solver_y := solver_y s |}.

Definition set_initial_value (y : array) (t : num) (s : OdeSolver) : OdeSolver :=
  {| solver_equation := solver_equation s; solver_jac := solver_jac s;
     solver_t := t; solver_y := y |}.

(** Modelled from the spec: what a solver does in one [integrate] is a
    run of calls of the two functions it was given (section 4.1: the solver
    "integrates a combined state vector forward given a right-hand-side
    function (and optional Jacobian)"), ending in the new state or in an
    exception of its own.  Each call is answered by the engine, and what
    the solver does next depends on the answer. *)
Inductive solving : Type :=
| Solved (y : array)
| Stopped (e : exn)
| Evaluate (t : num) (y : array) (next : array -> solving)
| EvaluateJacobian (t : num) (y : array) (next : matrix -> solving).

(** The integration scheme: from whether a Jacobian was given, the time
    and the state the solver is at, and the target time, the run. *)
Definition scheme : Type := bool -> num -> array -> num -> solving.

Definition has_jacobian (s : OdeSolver) : bool :=
  match solver_jac s with VNone => false | _ => true end.

(** The methods the engine inherits from [PhysicalSystem] and
    [RandomComponent], neither of which is among the sources: they act on
    the state [B] those classes own (cycle counter, seed sequence, random
    generator). *)
Record Bases (B : Type) : Type := {
  (** the state left by [PhysicalSystem.__init__] and
      [RandomComponent.__init__] *)
  bases_init : B;
  _count_step : M B unit;
  PhysicalSystem_reset : M B unit;
  next_generator : M B unit;
  RandomComponent_seed : option SeedSequence -> M B unit;
  (** [self.seed_sequence] (property), and the same object after a
      [spawn] has advanced it *)
  seed_sequence : B -> res SeedSequence;
  with_seed_sequence : SeedSequence -> B -> B
}.

Arguments conv_supply_shape {action CS}. Arguments conv_output_shape {action CS}.
Arguments set_action {action CS}. Arguments conv_i_sup {action CS}.
Arguments conv_convert {action CS}. Arguments conv_reset {action CS}.
Arguments conv_get_observation {action CS}. Arguments conv_limits {action CS}.
Arguments conv_observation_names {action CS}.
Arguments conv_observation_space {action CS}.
Arguments conv_seed {action CS}.
Arguments input_shape {MS}. Arguments torque_shape {MS}.
Arguments motor_ode_size {MS}. Arguments motor_HAS_JACOBIAN {MS}.
Arguments motor_parameter_j_rotor {MS}. Arguments i_in {MS}.
Arguments set_u_in {MS}. Arguments electrical_ode {MS}. Arguments torque {MS}.
Arguments electrical_jacobian {MS}. Arguments motor_reset {MS}.
Arguments motor_get_observation {MS}. Arguments motor_limits {MS}.
Arguments motor_observation_names {MS}. Arguments motor_observation_space {MS}.
Arguments motor_seed {MS}. Arguments load_seed {LS}. Arguments supply_seed {SS}.
Arguments speed_shape {LS}. Arguments load_ode_size {LS}.
Arguments load_HAS_JACOBIAN {LS}. Arguments set_j_rotor {LS}.
Arguments get_omega {LS}. Arguments mechanical_ode {LS}.
Arguments mechanical_jacobian {LS}. Arguments load_reset {LS}.
Arguments load_get_observation {LS}. Arguments load_limits {LS}.
Arguments load_observation_names {LS}. Arguments load_observation_space {LS}.
Arguments supply_shape {SS}. Arguments get_u_sup {SS}.
Arguments supply_reset {SS}. Arguments supply_get_observation {SS}.
Arguments supply_limits {SS}. Arguments supply_observation_names {SS}.
Arguments supply_observation_space {SS}.
Arguments bases_init {B}. Arguments _count_step {B}.
Arguments PhysicalSystem_reset {B}. Arguments next_generator {B}.
Arguments RandomComponent_seed {B}. Arguments seed_sequence {B}.
Arguments with_seed_sequence {B}.

(** *** The engine *)

Record SCMLSystem (CS MS LS SS B : Type) : Type := {
  (** the attributes [__init__] and the methods assign on [self] *)
  dict : gmap string value;
  (** the objects behind [self._converter], [self._electric_motor],
      [self._mechanical_load], [self._supply] and [self._ode_solver] *)
  _converter : CS;
  _electric_motor : MS;
  _mechanical_load : LS;
  _supply : SS;
  _ode_solver : OdeSolver;
  (** what the base classes keep on [self] *)
  base : B;
  (** the warnings issued through [warnings.warn] *)
  warned : list string
}.
Arguments dict {CS MS LS SS B}. Arguments _converter {CS MS LS SS B}.
Arguments _electric_motor {CS MS LS SS B}.
Arguments _mechanical_load {CS MS LS SS B}.
Arguments _supply {CS MS LS SS B}. Arguments _ode_solver {CS MS LS SS B}.
Arguments base {CS MS LS SS B}. Arguments warned {CS MS LS SS B}.

Section Engine.
Context {action CS MS LS SS B : Type}.
Context (Conv : PowerElectronicConverter action CS) (Mot : ElectricMotor MS)
        (Mech : MechanicalLoad LS) (Sup : VoltageSupply SS)
        (Base : Bases B) (integrate_scheme : scheme)
        (solver_seed : seeder OdeSolver).

Local Abbreviation Self := (SCMLSystem CS MS LS SS B).

Definition with_dict (f : gmap string value -> gmap string value) (self : Self) : Self :=
  {| dict := f (dict self); _converter := _converter self;
     _electric_motor := _electric_motor self;
     _mechanical_load := _mechanical_load self; _supply := _supply self;
     _ode_solver := _ode_solver self; base := base self;
     warned := warned self |}.
Definition with_converter (c : CS) (self : Self) : Self :=
  {| dict := dict self; _converter := c;
     _electric_motor := _electric_motor self;
     _mechanical_load := _mechanical_load self; _supply := _supply self;
     _ode_solver := _ode_solver self; base := base self;
     warned := warned self |}.
Definition with_motor (m : MS) (self : Self) : Self :=
  {| dict := dict self; _converter := _converter self;
     _electric_motor := m;
     _mechanical_load := _mechanical_load self; _supply := _supply self;
     _ode_solver := _ode_solver self; base := base self;
     warned := warned self |}.
Definition with_load (l : LS) (self : Self) : Self :=
  {| dict := dict self; _converter := _converter self;
     _electric_motor := _electric_motor self;
     _mechanical_load := l; _supply := _supply self;
     _ode_solver := _ode_solver self; base := base self;
     warned := warned self |}.
Definition with_supply (s : SS) (self : Self) : Self :=
  {| dict := dict self; _converter := _converter self;
     _electric_motor := _electric_motor self;
     _mechanical_load := _mechanical_load self; _supply := s;
     _ode_solver := _ode_solver self; base := base self;
     warned := warned self |}.
Definition with_solver (o : OdeSolver) (self : Self) : Self :=
  {| dict := dict self; _converter := _converter self;
     _electric_motor := _electric_motor self;
     _mechanical_load := _mechanical_load self; _supply := _supply self;
     _ode_solver := o; base := base self;
     warned := warned self |}.
Definition with_base (b : B) (self : Self) : Self :=
  {| dict := dict self; _converter := _converter self;
     _electric_motor := _electric_motor self;
     _mechanical_load := _mechanical_load self; _supply := _supply self;
     _ode_solver := _ode_solver self; base := b;
     warned := warned self |}.
Definition with_warned (w : list string) (self : Self) : Self :=
  {| dict := dict self; _converter := _converter self;
     _electric_motor := _electric_motor self;
     _mechanical_load := _mechanical_load self; _supply := _supply self;
     _ode_solver := _ode_solver self; base := base self;
     warned := w |}.

(** A call on a component object, as it acts on the engine. *)
Definition on_converter {A} (c : M CS A) : M Self A :=
  fun self => let '(r, x) := c (_converter self) in (r, with_converter x self).
Definition on_motor {A} (c : M MS A) : M Self A :=
  fun self => let '(r, x) := c (_electric_motor self) in (r, with_motor x self).
Definition on_load {A} (c : M LS A) : M Self A :=
  fun self => let '(r, x) := c (_mechanical_load self) in (r, with_load x self).
Definition on_supply {A} (c : M SS A) : M Self A :=
  fun self => let '(r, x) := c (_supply self) in (r, with_supply x self).
Definition on_base {A} (c : M B A) : M Self A :=
  fun self => let '(r, x) := c (base self) in (r, with_base x self).

(** Attribute lookup: the instance's own attributes first, then the
    methods of the class. *)
Definition class_attr (name : string) : option value :=
  if decide (name = "_system_equation") then Some (VMethod system_equation)
  else if decide (name = "_system_jacobian") then Some (VMethod system_jacobian)
  else None.

Definition getattr (name : string) : M Self value :=
  fun self =>
    match dict self !! name with
    | Some v => (Ok v, self)
    | None => match class_attr name with
              | Some v => (Ok v, self)
              | None => (Raise (AttributeError name), self)
              end
    end.

Definition setattr (name : string) (v : value) : M Self unit :=
  modify (with_dict (insert name v)).

Definition getattr_as {A} (conv : value -> res A) (name : string) : M Self A :=
  let! v := getattr name in lift (conv v).

(** The names bound at module level in [scml_system.py]; none of them
    is an array. *)
Definition module_globals : list string :=
  ["np"; "TYPE_CHECKING"; "warnings"; "gem"; "RandomComponent";
   "PhysicalSystem"; "SCMLSystem"].

(** A name that is neither a local nor a parameter of the function is
    looked up at module level. *)
Definition global_matrix (name : string) : res matrix :=
  if bool_decide (name ∈ module_globals)
  then Raise (TypeError "object does not support item assignment")
  else Raise (NameError name).

(** [limits] (property) *)
Definition limits : M Self value :=
  let! l := getattr "_limits" in
  (match l with
   | VNone =>
       let! self := get in
       setattr "_limits"
         (VArray (Np.concatenate
                    [load_limits Mech (_mechanical_load self);
                     motor_limits Mot (_electric_motor self);
                     conv_limits Conv (_converter self);
                     supply_limits Sup (_supply self)]))
   | _ => ret tt
   end);;
  getattr "_limits".

(** [initial_ode_value] (property setter):
    [self._initial_ode_value[:] = value] *)
Definition set_initial_ode_value (v : array) : M Self unit :=
  let! y0 := getattr_as as_array "_initial_ode_value" in
  let! y0 := lift (Np.slice_set y0 0 (length y0) v) in
  setattr "_initial_ode_value" (VArray y0).

Definition _system_equation (t : num) (state : array) : M Self array :=
  let! ms := getattr_as as_slice "_motor_ode_slice" in
  let motor_state := Np.slice_get state ms.1 ms.2 in
  let! ls := getattr_as as_slice "_load_ode_slice" in
  let load_state := Np.slice_get state ls.1 ls.2 in
  let! self := get in
  let omega := get_omega Mech (_mechanical_load self) load_state in
  let el := electrical_ode Mot (_electric_motor self) motor_state omega in
  let! d := getattr_as as_array "_system_derivative" in
  let! ms := getattr_as as_slice "_motor_ode_slice" in
  let! d := lift (Np.slice_set d ms.1 ms.2 el) in
  setattr "_system_derivative" (VArray d);;
  let tq := torque Mot (_electric_motor self) motor_state in
  let me := mechanical_ode Mech (_mechanical_load self) t load_state tq in
  let! d := getattr_as as_array "_system_derivative" in
  let! ls := getattr_as as_slice "_load_ode_slice" in
  let! d := lift (Np.slice_set d ls.1 ls.2 me) in
  setattr "_system_derivative" (VArray d);;
  getattr_as as_array "_system_derivative".

Definition _system_jacobian (t : num) (state : array) : M Self matrix :=
  let! ms := getattr_as as_slice "_motor_ode_slice" in
  let motor_state := Np.slice_get state ms.1 ms.2 in
  let! ls := getattr_as as_slice "_load_ode_slice" in
  let load_state := Np.slice_get state ls.1 ls.2 in
  let! self := get in
  let omega := get_omega Mech (_mechanical_load self) load_state in
  let '(motor_jac, el_state_over_omega, torque_over_el_state) :=
    electrical_jacobian Mot (_electric_motor self) motor_state omega in
  let tq := torque Mot (_electric_motor self) motor_state in
  let! idx := getattr "_load_ode_idx" in
  let! x := lift (index_by state idx) in
  let '(load_jac, load_over_torque) :=
    mechanical_jacobian Mech (_mechanical_load self) t x tq in
  let '(lr, lc) := Np.shape2 load_jac in
  let '(mr, mc) := Np.shape2 motor_jac in
  let! system_jac := lift (global_matrix "system_jac") in
  let '(n, k) := Np.shape2 system_jac in
  let! system_jac := lift (Np.block_set system_jac 0 lr 0 lc load_jac) in
  let! system_jac :=
    lift (Np.block_set system_jac (Np.from_end n mr) n (Np.from_end k mc) k
            motor_jac) in
  let! j := getattr_as as_pos "_omega_ode_idx" in
  let! system_jac :=
    lift (Np.column_set system_jac (Np.from_end n mr) n j el_state_over_omega) in
  let! system_jac :=
    lift (Np.block_set system_jac 0 lr lc k
            (Np.outer load_over_torque torque_over_el_state)) in
  ret system_jac.

(** Calling what was handed to the solver. *)
Definition call (f : value) (t : num) (y : array) : M Self value :=
  match f with
  | VMethod system_equation => let! d := _system_equation t y in ret (VArray d)
  | VMethod system_jacobian => let! j := _system_jacobian t y in ret (VMatrix j)
  | _ => raise (TypeError "object is not callable")
  end.

(** The run of a solver on the engine: the two functions are bound
    methods of [self], so each call acts on the engine as the calls before
    it left it, and what [_system_equation] writes into
    [self._system_derivative] stays written, also when the run ends in an
    exception.  The solver is handed the numbers the buffer holds when the
    call returns. *)
Fixpoint solve (sol : OdeSolver) (run : solving) : M Self array :=
  match run with
  | Solved y => ret y
  | Stopped e => raise e
  | Evaluate t y next =>
      let! v := call (solver_equation sol) t y in
      let! d := lift (as_array v) in
      solve sol (next d)
  | EvaluateJacobian t y next =>
      let! v := call (solver_jac sol) t y in
      let! m := lift (as_matrix v) in
      solve sol (next m)
  end.

(** Modelled from the spec: [OdeSolver.integrate] is not among the
    sources.  Section 4.2: "integrate(targetTime) -> state", "read-only
    current (state, time)": the solver runs its scheme from where it is to
    the target time and is there afterwards; when the run raises it is
    where it was. *)
Definition integrate (t : num) : M Self array :=
  let! self := get in
  let sol := _ode_solver self in
  let! y := solve sol (integrate_scheme (has_jacobian sol) (solver_t sol)
                         (solver_y sol) t) in
  modify (with_solver {| solver_equation := solver_equation sol;
                         solver_jac := solver_jac sol;
                         solver_t := t; solver_y := y |});;
  ret y.

(** The body of [for t in switching_times:] in [simulate]; [None] stands
    for [ode_state] not yet bound. *)
Fixpoint integrate_all (switching_times : list num) (ode_state : option array)
  : M Self (option array) :=
  match switching_times with
  | [] => ret ode_state
  | t :: rest =>
      let! motor_state := getattr "_motor_state" in
      let! i_in := on_motor (i_in Mot t motor_state) in
      let! i_sup := on_converter (conv_i_sup Conv i_in) in
      let! t0 := getattr_as as_num "_t" in
      let! u_sup := on_supply (get_u_sup Sup t0 i_sup) in
      let! self := get in
      let! u_in := on_converter
                     (conv_convert Conv (solver_t (_ode_solver self)) i_in u_sup) in
      on_motor (set_u_in Mot u_in);;
      let! y := integrate t in
      integrate_all rest (Some y)
  end.

(** The observation both [simulate] and [reset] build:
    [np.concatenate((load, motor, converter, supply))]. *)
Definition observe : M Self array :=
  let! load_state := getattr_as as_array "_load_state" in
  let! motor_state := getattr_as as_array "_motor_state" in
  let! self := get in
  ret (Np.concatenate
         [load_get_observation Mech (_mechanical_load self) load_state;
          motor_get_observation Mot (_electric_motor self) motor_state;
          conv_get_observation Conv (_converter self);
          supply_get_observation Sup (_supply self)]).

Definition simulate (a : action) : M Self array :=
  let! t0 := getattr_as as_num "_t" in
  let! ts := on_converter (set_action Conv a t0) in
  let! t0 := getattr_as as_num "_t" in
  let! tau := getattr_as as_num "_tau" in
  let switching_times := ts ++ [(t0 + tau)%Qc] in
  let! last := integrate_all switching_times None in
  on_base (_count_step Base);;
  let! ode_state :=
    match last with
    | Some y => ret y
    | None => raise (NameError "ode_state")
    end in
  let! sl := getattr_as as_slice "_motor_state_slice" in
  setattr "_motor_state" (VArray (Np.slice_get ode_state sl.1 sl.2));;
  let! sl := getattr_as as_slice "_load_state_slice" in
  setattr "_load_state" (VArray (Np.slice_get ode_state sl.1 sl.2));;
  let! obs := observe in
  setattr "system_observation" (VArray obs);;
  let! obs := getattr_as as_array "system_observation" in
  let! lim := getattr "_limits" in
  lift (divide_by obs lim).

Definition reset : M Self array :=
  on_base (PhysicalSystem_reset Base);;
  on_base (next_generator Base);;
  on_load (load_reset Mech);;
  on_motor (motor_reset Mot);;
  on_converter (conv_reset Conv);;
  on_supply (supply_reset Sup);;
  let! y0 := getattr_as as_array "_initial_ode_value" in
  let! t0 := getattr_as as_num "_t" in
  modify (fun self => with_solver (set_initial_value y0 t0 (_ode_solver self)) self);;
  let! self := get in
  let! sl := getattr_as as_slice "_motor_ode_slice" in
  setattr "_motor_state"
    (VArray (Np.slice_get (solver_y (_ode_solver self)) sl.1 sl.2));;
  let! sl := getattr_as as_slice "_load_ode_slice" in
  setattr "_load_state"
    (VArray (Np.slice_get (solver_y (_ode_solver self)) sl.1 sl.2));;
  let! obs := observe in
  setattr "system_observation" (VArray obs);;
  let! obs := getattr_as as_array "system_observation" in
  let! lim := getattr "_limits" in
  lift (divide_by obs lim).

Definition assert {S} (c : bool) (msg : string) : M S unit :=
  if c then ret tt else raise (AssertionError msg).

Definition is_None (v : value) : bool :=
  match v with VNone => true | _ => false end.

Definition jacobian_warning : string :=
  "Jacobian Matrix is not provided for either the motor or the load Model".

(** The statements of [__init__], on the object under construction. *)
Definition init_body (tau : num) (calc_jacobian : option bool) : M Self unit :=
  let! self := get in
  let load := _mechanical_load self in
  let motor := _electric_motor self in
  setattr "_tau" (VNum tau);;
  assert (bool_decide (supply_shape Sup = conv_supply_shape Conv)) "";;
  assert (bool_decide (conv_output_shape Conv = input_shape Mot)) "";;
  assert (bool_decide (torque_shape Mot = speed_shape Mech)) "";;
  setattr "_motor_state" VNone;;
  setattr "_load_state" VNone;;
  let calc_jacobian :=
    match calc_jacobian with
    | None => motor_HAS_JACOBIAN Mot && load_HAS_JACOBIAN Mech
    | Some c => c
    end in
  let! jac :=
    if calc_jacobian && motor_HAS_JACOBIAN Mot && load_HAS_JACOBIAN Mech
    then getattr "_system_jacobian"
    else ret VNone in
  (if calc_jacobian && is_None jac
   then modify (fun self => with_warned (warned self ++ [jacobian_warning]) self)
   else ret tt);;
  let! f := getattr "_system_equation" in
  modify (fun self => with_solver (set_system_equation f jac (_ode_solver self)) self);;
  modify (fun self =>
            with_load (set_j_rotor Mech (motor_parameter_j_rotor Mot motor)
                         (_mechanical_load self)) self);;
  setattr "_t" (VNum (int 0));;
  setattr "_observation_space"
    (VBox (concatenate_boxes
             [load_observation_space Mech; motor_observation_space Mot;
              conv_observation_space Conv; supply_observation_space Sup]));;
  setattr "_state_names"
    (VNames (load_observation_names Mech ++ motor_observation_names Mot ++
             conv_observation_names Conv ++ supply_observation_names Sup));;
  setattr "_load_ode_slice" (VSlice 0 (load_ode_size Mech));;
  setattr "_motor_ode_slice"
    (VSlice (load_ode_size Mech) (load_ode_size Mech + motor_ode_size Mot));;
  setattr "_limits" VNone;;
  setattr "_nominal_state" VNone;;
  setattr "_initial_ode_value"
    (VArray (Np.zeros (motor_ode_size Mot + load_ode_size Mech)));;
  let! names := getattr "_state_names" in
  setattr "system_observation"
    (VArray (Np.zeros (match names with VNames l => length l | _ => 0 end)));;
  setattr "_system_derivative"
    (VArray (Np.zeros (load_ode_size Mech + motor_ode_size Mot)));;
  setattr "_system_jacobian"
    (VMatrix (Np.zeros2 (load_ode_size Mech + motor_ode_size Mot)
                (load_ode_size Mech + motor_ode_size Mot))).

(** [tau: float = 1e-4] *)
Definition default_tau : num := Q2Qc (1 # 10000).

Definition __init__ (converter : CS) (motor : MS) (load : LS) (supply : SS)
  (ode_solver : OdeSolver) (tau : num) (calc_jacobian : option bool)
  : res Self :=
  let blank := {| dict := ∅; _converter := converter; _electric_motor := motor;
                  _mechanical_load := load; _supply := supply;
                  _ode_solver := ode_solver; base := bases_init Base;
                  warned := [] |} in
  match init_body tau calc_jacobian blank with
  | (Ok _, self) => Ok self
  | (Raise e, _) => Raise e
  end.

(** [seed]: the engine keeps the sequence it is given and hands one
    child each to
    [self._random_components = (supply, converter, motor, load, ode_solver)]. *)
Definition seed (seed : option SeedSequence) : M Self unit :=
  on_base (RandomComponent_seed Base seed);;
  let! self := get in
  let! ss := lift (seed_sequence Base (base self)) in
  let '(sub_seeds, ss) := spawn 5 ss in
  modify (fun self => with_base (with_seed_sequence Base ss (base self)) self);;
  match sub_seeds with
  | [s0; s1; s2; s3; s4] =>
      on_supply (seed_if_random (supply_seed Sup) s0);;
      on_converter (seed_if_random (conv_seed Conv) s1);;
      on_motor (seed_if_random (motor_seed Mot) s2);;
      on_load (seed_if_random (load_seed Mech) s3);;
      (fun self =>
         let '(r, o) := seed_if_random solver_seed s4 (_ode_solver self) in
         (r, with_solver o self))
  | _ => ret tt
  end.

(** *** Vocabulary of the properties *)

(** A computation that assigns no attribute of [self] outside [W]. *)
Definition writes_only (W : list string) {A} (c : M Self A) : Prop :=
  forall s n, n ∉ W -> dict (c s).2 !! n = dict s !! n.

(** The engines a program can hold: built by [__init__] and then used
    through the methods of the class.  (The read-only properties assign
    nothing; [nominal_state], which fills [_nominal_state] as [limits] fills
    [_limits], is left out.) *)
Inductive reachable : Self -> Prop :=
| reach_init converter motor load supply ode_solver tau calc_jacobian self :
    __init__ converter motor load supply ode_solver tau calc_jacobian = Ok self ->
    reachable self
| reach_reset self : reachable self -> reachable (reset self).2
| reach_simulate a self : reachable self -> reachable (simulate a self).2
| reach_limits self : reachable self -> reachable (limits self).2
| reach_seed sd self : reachable self -> reachable (seed sd self).2
| reach_system_equation t y self :
    reachable self -> reachable (_system_equation t y self).2
| reach_system_jacobian t y self :
    reachable self -> reachable (_system_jacobian t y self).2
| reach_initial_ode_value v self :
    reachable self -> reachable (set_initial_ode_value v self).2.

(** The attribute names that two methods read and no statement of the
    class assigns. *)
Definition never_assigned : list string :=
  ["_motor_state_slice"; "_load_state_slice"; "_load_ode_idx"; "_omega_ode_idx"].

(** The attributes [simulate] and [reset] assign. *)
Definition engine_state : list string :=
  ["_motor_state"; "_load_state"; "system_observation"].

(** What [seed] amounts to when the engine keeps the sequence [sub] it
    is given: the children of [sub], in the order supply, converter,
    motor, load, solver. *)
Definition hand_out (sub : SeedSequence) : M Self unit :=
  let k := n_children_spawned sub in
  on_base (RandomComponent_seed Base (Some sub));;
  modify (fun self =>
            with_base (with_seed_sequence Base (spawn 5 sub).2 (base self)) self);;
  on_supply (seed_if_random (supply_seed Sup) (child sub k));;
  on_converter (seed_if_random (conv_seed Conv) (child sub (k + 1)));;
  on_motor (seed_if_random (motor_seed Mot) (child sub (k + 2)));;
  on_load (seed_if_random (load_seed Mech) (child sub (k + 3)));;
  (fun self =>
     let '(r, o) := seed_if_random solver_seed (child sub (k + 4))
                      (_ode_solver self) in
     (r, with_solver o self)).

(** [RandomComponent.seed] keeps the sequence it is given (section 3:
    the node "owns one entropy source", "replaced wholesale on
    re-seeding"). *)
Definition keeps_seed : Prop :=
  forall sub b, exists b',
    RandomComponent_seed Base (Some sub) b = (Ok tt, b') /\
    seed_sequence Base b' = Ok sub.

(** The three shape-compatibility conditions. *)
Definition shapes_fit : Prop :=
  supply_shape Sup = conv_supply_shape Conv /\
  conv_output_shape Conv = input_shape Mot /\
  torque_shape Mot = speed_shape Mech.

(** [calc_jacobian] after its default has been filled in. *)
Definition wants_jacobian (calc_jacobian : option bool) : bool :=
  match calc_jacobian with
  | Some c => c
  | None => motor_HAS_JACOBIAN Mot && load_HAS_JACOBIAN Mech
  end.

Definition both_have_jacobian : bool :=
  motor_HAS_JACOBIAN Mot && load_HAS_JACOBIAN Mech.

(** The layout of the ODE state that [__init__] fixes. *)
Definition layout (self : Self) : Prop :=
  let l := load_ode_size Mech in
  let m := motor_ode_size Mot in
  dict self !! "_load_ode_slice" = Some (VSlice 0 l) /\
  dict self !! "_motor_ode_slice" = Some (VSlice l (l + m)) /\
  dict self !! "_system_jacobian" = Some (VMatrix (Np.zeros2 (l + m) (l + m))) /\
  Forall (fun n => dict self !! n = None) never_assigned /\
  (exists d, dict self !! "_system_derivative" = Some (VArray d) /\
             length d = l + m) /\
  (exists y0, dict self !! "_initial_ode_value" = Some (VArray y0) /\
              length y0 = m + l) /\
  dict self !! "_t" = Some (VNum (int 0)) /\
  exists tau, dict self !! "_tau" = Some (VNum tau).

End Engine.

(** *** The read-only properties, and the calls on an engine *)

(** [comp.nominal_state] of the four components. *)
Record NominalStates (CS MS LS SS : Type) : Type := {
  load_nominal_state : LS -> array;
  motor_nominal_state : MS -> array;
  conv_nominal_state : CS -> array;
  supply_nominal_state : SS -> array
}.
Arguments load_nominal_state {CS MS LS SS}.
Arguments motor_nominal_state {CS MS LS SS}.
Arguments conv_nominal_state {CS MS LS SS}.
Arguments supply_nominal_state {CS MS LS SS}.

Section EngineCalls.
Context {action CS MS LS SS B : Type}.
Context (Conv : PowerElectronicConverter action CS) (Mot : ElectricMotor MS)
        (Mech : MechanicalLoad LS) (Sup : VoltageSupply SS)
        (Base : Bases B) (integrate_scheme : scheme)
        (solver_seed : seeder OdeSolver)
        (Nom : NominalStates CS MS LS SS).

Local Abbreviation Self := (SCMLSystem CS MS LS SS B).

(** [tau] (property) *)
Definition tau : M Self value := getattr "_tau".

(** [state_names] (property):
    [[name for comp in self._scml_components for name in comp.observation_names]],
    with [self._scml_components = load, motor, converter, supply]. *)
Definition state_names : list string :=
  load_observation_names Mech ++ motor_observation_names Mot ++
  conv_observation_names Conv ++ supply_observation_names Sup.

(** [state_observation_space] (property) *)
Definition state_observation_space : M Self value :=
  getattr "_observation_space".

(** [initial_ode_value] (property) *)
Definition initial_ode_value : M Self value := getattr "_initial_ode_value".

(** [nominal_state] (property) *)
Definition nominal_state : M Self value :=
  let! l := getattr "_nominal_state" in
  (match l with
   | VNone =>
       let! self := get in
       setattr "_nominal_state"
         (VArray (Np.concatenate
                    [load_nominal_state Nom (_mechanical_load self);
                     motor_nominal_state Nom (_electric_motor self);
                     conv_nominal_state Nom (_converter self);
                     supply_nominal_state Nom (_supply self)]))
   | _ => ret tt
   end);;
  getattr "_nominal_state".

(** A call on an engine. *)
Inductive use : Type :=
| UseReset
| UseSimulate (a : action)
| UseLimits
| UseNominalState
| UseSeed (sd : option SeedSequence)
| UseSystemEquation (t : num) (y : array)
| UseSystemJacobian (t : num) (y : array)
| UseInitialOdeValue (v : array).

(** The engine after a call, whether the call returned or raised. *)
Definition after (c : use) (self : Self) : Self :=
  match c with
  | UseReset => (reset Conv Mot Mech Sup Base self).2
  | UseSimulate a =>
      (simulate Conv Mot Mech Sup Base integrate_scheme a self).2
  | UseLimits => (limits Conv Mot Mech Sup self).2
  | UseNominalState => (nominal_state self).2
  | UseSeed sd => (seed Conv Mot Mech Sup Base solver_seed sd self).2
  | UseSystemEquation t y => (_system_equation Mot Mech t y self).2
  | UseSystemJacobian t y => (_system_jacobian Mot Mech t y self).2
  | UseInitialOdeValue v => (set_initial_ode_value v self).2
  end.

Definition after_all (cs : list use) (self : Self) : Self :=
  fold_left (fun s c => after c s) cs self.

(** The attributes a method can assign. *)
Definition assigned : list string :=
  engine_state ++
  ["_limits"; "_nominal_state"; "_system_derivative"; "_initial_ode_value"].

(** The attributes [__init__] assigns and no method assigns again. *)
Definition fixed_at_construction : list string :=
  ["_tau"; "_t"; "_observation_space"; "_state_names"; "_load_ode_slice";
   "_motor_ode_slice"; "_system_jacobian"].

(** The raw observation [reset] builds from the ODE state [y0] and the
    four components as they are after their own [reset]. *)
Definition observation (y0 : array) (l : LS) (m : MS) (c : CS) (s : SS) : array :=
  Np.concatenate
    [load_get_observation Mech l (Np.slice_get y0 0 (load_ode_size Mech));
     motor_get_observation Mot m
       (Np.slice_get y0 (load_ode_size Mech)
          (load_ode_size Mech + motor_ode_size Mot));
     conv_get_observation Conv c;
     supply_get_observation Sup s].

End EngineCalls.
End SCML.

(** ** A small drive, for evaluating the engine on concrete inputs *)

Module Demo.
Import SCML.

(** Modelled from the spec: the base class [FiniteConverter] is not among
    the sources.  Section 4.2: "setAction(action, time) ->
    sortedSwitchingTimes"; a finite converter keeps the action as its
    switching state and switches nowhere inside the interval; [reset]
    opens the transistor. *)
Definition converter : PowerElectronicConverter Z FiniteOneQuadrantConverter.t :=
  {| conv_supply_shape := [1]; conv_output_shape := [1];
     set_action := fun a _ _ =>
       (Ok [], {| FiniteOneQuadrantConverter._current_action := a |});
     conv_i_sup := fun i_out self =>
       (FiniteOneQuadrantConverter.i_sup self i_out, self);
     conv_convert := fun t i_out u_sup self =>
       (FiniteOneQuadrantConverter.convert self t i_out u_sup, self);
     conv_reset := fun _ =>
       (Ok tt, {| FiniteOneQuadrantConverter._current_action := 0 |});
     conv_get_observation := fun _ => [];
     conv_limits := fun _ => [];
     conv_observation_names := [];
     conv_observation_space := {| low := []; high := [] |};
     conv_seed := None |}.

Definition first (a : array) : num := default (int 0) (a !! 0).

(** A DC machine with unit resistance, inductance and flux: the state is
    the current [i], the object keeps the input voltage. *)
Definition motor (has_jacobian : bool) : ElectricMotor array :=
  {| input_shape := [1]; torque_shape := [1]; motor_ode_size := 1;
     motor_HAS_JACOBIAN := has_jacobian;
     motor_parameter_j_rotor := fun _ => int 2;
     i_in := fun _ st u =>
       match st with
       | VArray a => (Ok a, u)
       | _ => (Raise (TypeError "'NoneType' object is not subscriptable"), u)
       end;
     set_u_in := fun u _ => (Ok tt, u);
     electrical_ode := fun u st omega =>
       [(first u - first st - omega)%Qc];
     torque := fun _ st => first st;
     electrical_jacobian := fun _ _ _ => ([[int (-1)]], [int (-1)], [int 1]);
     motor_reset := fun _ => (Ok tt, [int 0]);
     motor_get_observation := fun u st => st ++ u;
     motor_limits := fun _ => [int 20; int 30];
     motor_observation_names := ["i"; "u"];
     motor_observation_space :=
       {| low := [int (-1); int (-1)]; high := [int 1; int 1] |};
     motor_seed := None |}.

(** A load with viscous friction; the object keeps the total inertia. *)
Definition load (has_jacobian : bool) : MechanicalLoad num :=
  {| speed_shape := [1]; load_ode_size := 1;
     load_HAS_JACOBIAN := has_jacobian;
     set_j_rotor := fun j j_load => (j_load + j)%Qc;
     get_omega := fun _ st => first st;
     mechanical_ode := fun j _ st tq =>
       [((tq - first st) / j)%Qc];
     mechanical_jacobian := fun j _ _ _ => ([[(int (-1) / j)%Qc]], [(int 1 / j)%Qc]);
     load_reset := fun j => (Ok tt, j);
     load_get_observation := fun _ st => st;
     load_limits := fun _ => [int 100];
     load_observation_names := ["omega"];
     load_observation_space := {| low := [int (-1)]; high := [int 1] |};
     load_seed := None |}.

(** An ideal supply of 10 V; it is a [RandomComponent] and keeps the seed
    sequence it is seeded with. *)
Definition supply : VoltageSupply (option NpRandom.SeedSequence) :=
  {| supply_shape := [1];
     get_u_sup := fun _ _ s => (Ok [int 10], s);
     supply_reset := fun s => (Ok tt, s);
     supply_get_observation := fun _ => [int 10];
     supply_limits := fun _ => [int 10];
     supply_observation_names := ["u_sup"];
     supply_observation_space := {| low := [int 0]; high := [int 1] |};
     supply_seed := Some (fun sub _ => (Ok tt, Some sub)) |}.

(** Modelled from the spec: [PhysicalSystem] and [RandomComponent] are not
    among the sources.  They are reduced to the cycle counter [k] and to
    the seed-tree node of section 3 ("owns one entropy source ... replaced
    wholesale on re-seeding"). *)
Definition bases : Bases (nat * option NpRandom.SeedSequence) :=
  {| bases_init := (0, None);
     _count_step := fun b => (Ok tt, (S b.1, b.2));
     PhysicalSystem_reset := fun b => (Ok tt, (0, b.2));
     next_generator := fun b => (Ok tt, b);
     RandomComponent_seed := fun seed b =>
       match seed with
       | Some s => (Ok tt, (b.1, Some s))
       | None => match NpRandom.new None 0 with
                 | Ok s => (Ok tt, (b.1, Some s))
                 | Raise e => (Raise e, b)
                 end
       end;
     seed_sequence := fun b =>
       match b.2 with
       | Some s => Ok s
       | None => Raise (AttributeError "seed_sequence")
       end;
     with_seed_sequence := fun s b => (b.1, Some s) |}.

(** One explicit Euler step to the target time; a Jacobian, when the
    solver was given one, is evaluated at the start of the step. *)
Definition euler : scheme :=
  fun has_jac t0 y0 t1 =>
    let step :=
      Evaluate t0 y0
        (fun d => Solved (zip_with (fun y dy => (y + (t1 - t0) * dy)%Qc) y0 d)) in
    if has_jac then EvaluateJacobian t0 y0 (fun _ => step) else step.

Definition new_solver : OdeSolver :=
  {| solver_equation := VNone; solver_jac := VNone;
     solver_t := int 0; solver_y := [] |}.

Definition transistor_off : FiniteOneQuadrantConverter.t :=
  {| FiniteOneQuadrantConverter._current_action := 0 |}.

(** [SCMLSystem(converter, motor, load, supply, ode_solver, tau=1/10,
    calc_jacobian=calc)] *)
Definition build (motor_jac load_jac : bool) (calc : option bool) :=
  __init__ converter (motor motor_jac) (load load_jac) supply bases
    transistor_off [int 0] (int 1) None new_solver (Q2Qc (1 # 10)) calc.

(** The engine [build mj lj calc] returns; the shapes of the four parts
    fit, so the other branch is not taken. *)
Definition engine (motor_jac load_jac : bool) (calc : option bool) :=
  match build motor_jac load_jac calc with
  | Ok self => self
  | Raise _ =>
      {| dict := ∅; _converter := transistor_off; _electric_motor := [];
         _mechanical_load := int 1; _supply := None;
         _ode_solver := new_solver; base := (0, None); warned := [] |}
  end.

(** A supply for a three-phase converter: its shape does not fit the
    single-quadrant converter. *)
Definition three_phase_supply : VoltageSupply (option NpRandom.SeedSequence) :=
  {| supply_shape := [3];
     get_u_sup := get_u_sup supply;
     supply_reset := supply_reset supply;
     supply_get_observation := supply_get_observation supply;
     supply_limits := supply_limits supply;
     supply_observation_names := supply_observation_names supply;
     supply_observation_space := supply_observation_space supply;
     supply_seed := supply_seed supply |}.

Definition simulate_ mj lj := simulate converter (motor mj) (load lj) supply bases euler.
Definition reset_ mj lj := reset converter (motor mj) (load lj) supply bases.
Definition limits_ mj lj :=
  limits converter (motor mj) (load lj) supply
    (B := (nat * option NpRandom.SeedSequence)%type).
Definition seed_ mj lj :=
  seed converter (motor mj) (load lj) supply bases None.

(** The engine as it is used: built, the limits read, reset. *)
Definition engine_in_use (mj lj : bool) (calc : option bool) :=
  (reset_ mj lj (limits_ mj lj (engine mj lj calc)).2).2.

(** The nominal values of the four parts. *)
Definition nominal
  : NominalStates FiniteOneQuadrantConverter.t array num
      (option NpRandom.SeedSequence) :=
  {| load_nominal_state := fun _ => [int 50];
     motor_nominal_state := fun _ => [int 10; int 30];
     conv_nominal_state := fun _ => [];
     supply_nominal_state := fun _ => [int 10] |}.

(** The engine after the calls [cs]. *)
Definition later (mj lj : bool) :=
  after_all converter (motor mj) (load lj) supply bases euler None nominal.

End Demo.

(** ** ElectricMotorEnvironment *)

Module Env.
Import NpRandom.

(** The collaborators, as the environment calls them.  [state] is the
    normalised state of the physical system, [reference] a reference
    array. *)
Record PhysicalSystem (action state PS : Type) : Type := {
  ps_reset : M PS state;
  simulate : action -> M PS state;
  (** [physical_system.k] (property) *)
  k : PS -> Z;
  ps_close : M PS unit;
  ps_seed : seeder PS
}.

Record ReferenceGenerator (state reference PS RG : Type) : Type := {
  rg_set_modules : PS -> M RG unit;
  rg_reset : state -> M RG unit;
  get_reference : state -> M RG reference;
  get_reference_observation : state -> M RG reference;
  rg_close : M RG unit;
  rg_seed : seeder RG
}.

Record RewardFunction (action state reference PS RF : Type) : Type := {
  rf_set_modules : PS -> M RF unit;
  reward : state -> reference -> Z -> action -> num -> M RF num;
  rf_reset : M RF unit;
  rf_close : M RF unit;
  rf_seed : seeder RF
}.

Record ConstraintMonitor (state PS CM : Type) : Type := {
  cm_set_modules : PS -> M CM unit;
  check_constraints : state -> M CM num;
  cm_seed : seeder CM
}.

Record Callback (action state reference CB : Type) : Type := {
  set_env : M CB unit;
  on_reset_begin : M CB unit;
  on_reset_end : state -> reference -> M CB unit;
  on_step_begin : Z -> action -> M CB unit;
  on_step_end : Z -> state -> reference -> num -> bool -> M CB unit;
  on_close : M CB unit;
  render : M CB unit;
  cb_seed : seeder CB
}.
Arguments ps_reset {action state PS}. Arguments simulate {action state PS}.
Arguments k {action state PS}. Arguments ps_close {action state PS}.
Arguments ps_seed {action state PS}.
Arguments rg_set_modules {state reference PS RG}.
Arguments rg_reset {state reference PS RG}.
Arguments get_reference {state reference PS RG}.
Arguments get_reference_observation {state reference PS RG}.
Arguments rg_close {state reference PS RG}.
Arguments rg_seed {state reference PS RG}.
Arguments rf_set_modules {action state reference PS RF}.
Arguments reward {action state reference PS RF}.
Arguments rf_reset {action state reference PS RF}.
Arguments rf_close {action state reference PS RF}.
Arguments rf_seed {action state reference PS RF}.
Arguments cm_set_modules {state PS CM}. Arguments check_constraints {state PS CM}.
Arguments cm_seed {state PS CM}.
Arguments set_env {action state reference CB}.
Arguments on_reset_begin {action state reference CB}.
Arguments on_reset_end {action state reference CB}.
Arguments on_step_begin {action state reference CB}.
Arguments on_step_end {action state reference CB}.
Arguments on_close {action state reference CB}.
Arguments render {action state reference CB}.
Arguments cb_seed {action state reference CB}.

(** The environment object.  The visualizations are the last
    [n_visualizations] entries of [_callbacks]
    ([tuple(callbacks) + tuple(self._visualizations)]). *)
Record ElectricMotorEnvironment (PS RG RF CM CB : Type) : Type := {
  _physical_system : PS;
  _reference_generator : RG;
  _reward_function : RF;
  _constraint_monitor : CM;
  _callbacks : list CB;
  n_visualizations : nat;
  _done : bool
}.
Arguments _physical_system {PS RG RF CM CB}.
Arguments _reference_generator {PS RG RF CM CB}.
Arguments _reward_function {PS RG RF CM CB}.
Arguments _constraint_monitor {PS RG RF CM CB}.
Arguments _callbacks {PS RG RF CM CB}.
Arguments n_visualizations {PS RG RF CM CB}.
Arguments _done {PS RG RF CM CB}.

Section Environment.
Context {action state reference PS RG RF CM CB : Type}.
Context (Phys : PhysicalSystem action state PS)
        (Ref : ReferenceGenerator state reference PS RG)
        (Rew : RewardFunction action state reference PS RF)
        (Mon : ConstraintMonitor state PS CM)
        (Cb : Callback action state reference CB).

Local Abbreviation Self := (ElectricMotorEnvironment PS RG RF CM CB).

Definition with_physical_system (x : PS) (self : Self) : Self :=
  {| _physical_system := x; _reference_generator := _reference_generator self;
     _reward_function := _reward_function self;
     _constraint_monitor := _constraint_monitor self;
     _callbacks := _callbacks self;
     n_visualizations := n_visualizations self; _done := _done self |}.
Definition with_reference_generator (x : RG) (self : Self) : Self :=
  {| _physical_system := _physical_system self; _reference_generator := x;
     _reward_function := _reward_function self;
     _constraint_monitor := _constraint_monitor self;
     _callbacks := _callbacks self;
     n_visualizations := n_visualizations self; _done := _done self |}.
Definition with_reward_function (x : RF) (self : Self) : Self :=
  {| _physical_system := _physical_system self;
     _reference_generator := _reference_generator self;
     _reward_function := x;
     _constraint_monitor := _constraint_monitor self;
     _callbacks := _callbacks self;
     n_visualizations := n_visualizations self; _done := _done self |}.
Definition with_constraint_monitor (x : CM) (self : Self) : Self :=
  {| _physical_system := _physical_system self;
     _reference_generator := _reference_generator self;
     _reward_function := _reward_function self;
     _constraint_monitor := x;
     _callbacks := _callbacks self;
     n_visualizations := n_visualizations self; _done := _done self |}.
Definition with_callbacks (x : list CB) (self : Self) : Self :=
  {| _physical_system := _physical_system self;
     _reference_generator := _reference_generator self;
     _reward_function := _reward_function self;
     _constraint_monitor := _constraint_monitor self;
     _callbacks := x;
     n_visualizations := n_visualizations self; _done := _done self |}.
Definition with_done (x : bool) (self : Self) : Self :=
  {| _physical_system := _physical_system self;
     _reference_generator := _reference_generator self;
     _reward_function := _reward_function self;
     _constraint_monitor := _constraint_monitor self;
     _callbacks := _callbacks self;
     n_visualizations := n_visualizations self; _done := x |}.

Definition on_physical_system {A} (c : M PS A) : M Self A :=
  fun self => let '(r, x) := c (_physical_system self) in
              (r, with_physical_system x self).
Definition on_reference_generator {A} (c : M RG A) : M Self A :=
  fun self => let '(r, x) := c (_reference_generator self) in
              (r, with_reference_generator x self).
Definition on_reward_function {A} (c : M RF A) : M Self A :=
  fun self => let '(r, x) := c (_reward_function self) in
              (r, with_reward_function x self).
Definition on_constraint_monitor {A} (c : M CM A) : M Self A :=
  fun self => let '(r, x) := c (_constraint_monitor self) in
              (r, with_constraint_monitor x self).

(** [for callback in cbs: handler(callback)]; a callback that raises ends
    the loop. *)
Fixpoint each (handler : M CB unit) (cbs : list CB) : res unit * list CB :=
  match cbs with
  | [] => (Ok tt, [])
  | c :: rest =>
      match handler c with
      | (Ok _, c') => let '(r, rest') := each handler rest in (r, c' :: rest')
      | (Raise e, c') => (Raise e, c' :: rest)
      end
  end.

Definition _call_callbacks (handler : M CB unit) : M Self unit :=
  fun self => let '(r, cbs) := each handler (_callbacks self) in
              (r, with_callbacks cbs self).

(** [__init__], for [constraints] an initialised [ConstraintMonitor];
    each state-action processor wraps the physical system
    ([set_physical_system]).  The three space attributes it copies from
    its collaborators are not modelled; [_done] has no value before the
    statement that assigns it. *)
Definition __init__ (physical_system : PS) (reference_generator : RG)
  (reward_function : RF) (visualizations callbacks : list CB) (constraints : CM)
  (state_action_processors : list (PS -> PS)) : res Self :=
  let ps := fold_left (fun ps sap => sap ps) state_action_processors
              physical_system in
  let blank := {| _physical_system := ps;
                  _reference_generator := reference_generator;
                  _reward_function := reward_function;
                  _constraint_monitor := constraints;
                  _callbacks := [];
                  n_visualizations := length visualizations;
                  _done := false |} in
  match (on_reference_generator (rg_set_modules Ref ps);;
         on_constraint_monitor (cm_set_modules Mon ps);;
         on_reward_function (rf_set_modules Rew ps);;
         modify (with_done true);;
         modify (with_callbacks (callbacks ++ visualizations));;
         _call_callbacks (set_env Cb)) blank with
  | (Ok _, self) => Ok self
  | (Raise e, _) => Raise e
  end.

Definition reset : M Self (state * reference) :=
  _call_callbacks (on_reset_begin Cb);;
  modify (with_done false);;
  let! state := on_physical_system (ps_reset Phys) in
  on_reference_generator (rg_reset Ref state);;
  let! reference := on_reference_generator (get_reference_observation Ref state) in
  on_reward_function (rf_reset Rew);;
  _call_callbacks (on_reset_end Cb state reference);;
  ret (state, reference).

Definition usage_error : exn :=
  AssertionError "A reset is required before the environment can perform further steps".

(** [step]; the last component of the result is the empty dictionary. *)
Definition step (a : action)
  : M Self ((state * reference) * num * bool * list (string * string)) :=
  let! self := get in
  (if _done self then raise usage_error else ret tt);;
  let! self := get in
  _call_callbacks (on_step_begin Cb (k Phys (_physical_system self)) a);;
  let! state := on_physical_system (simulate Phys a) in
  let! reference := on_reference_generator (get_reference Ref state) in
  let! violation_degree := on_constraint_monitor (check_constraints Mon state) in
  let! self := get in
  let! r := on_reward_function
              (reward Rew state reference (k Phys (_physical_system self)) a
                 violation_degree) in
  modify (with_done (ge violation_degree (int 1)));;
  let! ref_next := on_reference_generator (get_reference_observation Ref state) in
  let! self := get in
  _call_callbacks
    (on_step_end Cb (k Phys (_physical_system self)) state reference r
       (_done self));;
  let! self := get in
  ret ((state, ref_next), r, _done self, []).

(** The property setters. *)
Definition set_reference_generator (rg : RG) : M Self unit :=
  modify (with_reference_generator rg);; modify (with_done true).
Definition set_reward_function (rf : RF) : M Self unit :=
  modify (with_reward_function rf);; modify (with_done true).

(** [render]: the visualizations only. *)
Definition render_all : M Self unit :=
  fun self =>
    let cbs := _callbacks self in
    let n := length cbs - n_visualizations self in
    let '(r, vis) := each (render Cb) (drop n cbs) in
    (r, with_callbacks (take n cbs ++ vis) self).

Definition close : M Self unit :=
  _call_callbacks (on_close Cb);;
  on_reward_function (rf_close Rew);;
  on_physical_system (ps_close Phys);;
  on_reference_generator (rg_close Ref).

(** [for sub, rc in zip(subs, cbs): if isinstance(...): rc.seed(sub)] on
    the callbacks. *)
Fixpoint seed_each (subs : list SeedSequence) (cbs : list CB)
  : res unit * list CB :=
  match subs, cbs with
  | sub :: subs', c :: rest =>
      match seed_if_random (cb_seed Cb) sub c with
      | (Ok _, c') => let '(r, rest') := seed_each subs' rest in (r, c' :: rest')
      | (Raise e, c') => (Raise e, c' :: rest)
      end
  | _, _ => (Ok tt, cbs)
  end.

(** [seed]; [os_entropy] is what the operating system supplies when
    [seed] is [None]. *)
Definition seed (seed : option Z) (os_entropy : N) : M Self (list Z) :=
  let! sg := lift (new seed os_entropy) in
  let! self := get in
  let '(sub_sg, sg) := spawn (4 + length (_callbacks self)) sg in
  match sub_sg with
  | s0 :: s1 :: s2 :: s3 :: subs =>
      on_physical_system (seed_if_random (ps_seed Phys) s0);;
      on_reference_generator (seed_if_random (rg_seed Ref) s1);;
      on_reward_function (seed_if_random (rf_seed Rew) s2);;
      on_constraint_monitor (seed_if_random (cm_seed Mon) s3);;
      (fun self => let '(r, cbs) := seed_each subs (_callbacks self) in
                   (r, with_callbacks cbs self));;
      ret [entropy sg]
  | _ => ret [entropy sg]
  end.

(** *** Vocabulary of the properties *)

(** The child a root sequence of entropy [n] hands to the [i]-th
    component. *)
Definition root_child (n : Z) (i : nat) : SeedSequence :=
  {| entropy := n; spawn_key := [i]; n_children_spawned := 0 |}.

(** What [seed] amounts to for the root entropy [n]: the physical
    system, the reference generator, the reward function, the constraint
    monitor and the callbacks receive the children 0, 1, 2, 3, 4, ... of
    the root, and the value returned is the root entropy. *)
Definition hand_out (n : Z) : M Self (list Z) :=
  on_physical_system (seed_if_random (ps_seed Phys) (root_child n 0));;
  on_reference_generator (seed_if_random (rg_seed Ref) (root_child n 1));;
  on_reward_function (seed_if_random (rf_seed Rew) (root_child n 2));;
  on_constraint_monitor (seed_if_random (cm_seed Mon) (root_child n 3));;
  (fun self =>
     let '(r, cbs) :=
       seed_each (map (root_child n) (seq 4 (length (_callbacks self))))
         (_callbacks self) in
     (r, with_callbacks cbs self));;
  ret [n].

(** A computation that leaves [_done] as it is. *)
Definition keeps_done {A} (c : M Self A) : Prop :=
  forall s, _done (c s).2 = _done s.

(** The calls a user can make on an environment. *)
Inductive call : Type :=
| CallReset
| CallStep (a : action)
| CallSetReferenceGenerator (rg : RG)
| CallSetRewardFunction (rf : RF)
| CallRender
| CallSeed (seed : option Z) (os_entropy : N)
| CallClose.

(** The object after a call, and whether the call returned. *)
Definition perform (c : call) (self : Self) : bool * Self :=
  match c with
  | CallReset => let '(r, s) := reset self in (is_ok r, s)
  | CallStep a => let '(r, s) := step a self in (is_ok r, s)
  | CallSetReferenceGenerator rg =>
      let '(r, s) := set_reference_generator rg self in (is_ok r, s)
  | CallSetRewardFunction rf =>
      let '(r, s) := set_reward_function rf self in (is_ok r, s)
  | CallRender => let '(r, s) := render_all self in (is_ok r, s)
  | CallSeed sd os => let '(r, s) := seed sd os self in (is_ok r, s)
  | CallClose => let '(r, s) := close self in (is_ok r, s)
  end.

(** The environment after the calls [cs], whether they returned or
    raised. *)
Definition after_calls (cs : list call) (self : Self) : Self :=
  fold_left (fun s c => (perform c s).2) cs self.

(** A computation that neither adds nor drops a callback. *)
Definition keeps_callbacks {A} (c : M Self A) : Prop :=
  forall s, length (_callbacks (c s).2) = length (_callbacks s) /\
            n_visualizations (c s).2 = n_visualizations s.

End Environment.
End Env.

(** ** Two small environments *)

Module DemoEnv.
Import Env.

(** A physical system that is one number: [simulate] returns the action
    as the new state and counts the cycle. *)
Definition plant : PhysicalSystem Z array Z :=
  {| ps_reset := fun _ => (Ok [int 0], 0%Z);
     simulate := fun a k => (Ok [int a], (k + 1)%Z);
     k := fun k => k;
     ps_close := ret tt;
     ps_seed := None |}.

(** The engine of [Demo] as the physical system of an environment. *)
Definition drive : PhysicalSystem Z array
                     (SCML.SCMLSystem FiniteOneQuadrantConverter.t array num
                        (option NpRandom.SeedSequence)
                        (nat * option NpRandom.SeedSequence)) :=
  {| ps_reset := Demo.reset_ false false;
     simulate := Demo.simulate_ false false;
     k := fun self => Z.of_nat (SCML.base self).1;
     ps_close := ret tt;
     ps_seed := Some (fun sub => Demo.seed_ false false (Some sub)) |}.

(** A constant reference. *)
Definition generator (PS : Type) : ReferenceGenerator array array PS unit :=
  {| rg_set_modules := fun _ => ret tt;
     rg_reset := fun _ => ret tt;
     get_reference := fun _ => ret [int 1];
     get_reference_observation := fun _ => ret [int 1];
     rg_close := ret tt;
     rg_seed := None |}.


Definition rewards (PS : Type) : RewardFunction Z array array PS unit :=
  {| rf_set_modules := fun _ => ret tt;
     reward := fun _ _ _ _ violation_degree => ret (- violation_degree)%Qc;
     rf_reset := ret tt;
     rf_close := ret tt;
     rf_seed := None |}.

(** The violation degree is the first entry of the state. *)
Definition monitor (PS : Type) : ConstraintMonitor array PS unit :=
  {| cm_set_modules := fun _ => ret tt;
     check_constraints := fun st => ret (Demo.first st);
     cm_seed := None |}.

(** A callback that counts the calls it receives and keeps the seed
    sequence it is seeded with. *)
Definition counter : Callback Z array array (nat * option NpRandom.SeedSequence) :=
  let tick : M (nat * option NpRandom.SeedSequence) unit :=
    fun c => (Ok tt, (S c.1, c.2)) in
  {| set_env := tick; on_reset_begin := tick;
     on_reset_end := fun _ _ => tick;
     on_step_begin := fun _ _ => tick;
     on_step_end := fun _ _ _ _ _ => tick;
     on_close := tick; render := tick;
     cb_seed := Some (fun sub c => (Ok tt, (c.1, Some sub))) |}.

Definition new_env {PS} (ps : PS) :=
  __init__ (generator PS) (rewards PS) (monitor PS) counter
    ps tt tt [] [(0, None)] tt [].

Definition blank_env {PS} (ps : PS) :
  ElectricMotorEnvironment PS unit unit unit (nat * option NpRandom.SeedSequence) :=
  {| _physical_system := ps; _reference_generator := tt;
     _reward_function := tt; _constraint_monitor := tt; _callbacks := [];
     n_visualizations := 0; _done := false |}.

(** The environment around the plant, and the one around a fresh engine. *)
Definition plant_env :=
  match new_env 0%Z with Ok e => e | Raise _ => blank_env 0%Z end.
Definition drive_env :=
  match new_env (Demo.engine false false None) with
  | Ok e => e
  | Raise _ => blank_env (Demo.engine false false None)
  end.


Definition step_plant := step plant (generator Z) (rewards Z) (monitor Z) counter.
Definition reset_plant := reset plant (generator Z) (rewards Z) counter (CM := unit).
Definition seed_plant := seed plant (generator Z) (rewards Z) (monitor Z) counter.
Definition perform_drive :=
  perform drive (generator _) (rewards _) (monitor _) counter.
Definition step_drive := step drive (generator _) (rewards _) (monitor _) counter.
Definition reset_drive := reset drive (generator _) (rewards _) counter (CM := unit).

End DemoEnv.

(** ** ExternallyExcitedSynchronousMotor *)

Module ExternallyExcitedSynchronousMotor.

(** What the arithmetic of the motor adds to the exceptions of [Py]. *)
Inductive failure : Type :=
| ZeroDivisionError
| Python (e : exn).

Inductive outcome (A : Type) : Type :=
| Done (a : A)
| Failed (e : failure).
Arguments Done {A} a.
Arguments Failed {A} e.

Definition andthen {A B} (r : outcome A) (k : A -> outcome B) : outcome B :=
  match r with Done a => k a | Failed e => Failed e end.

Notation "'let/' x ':=' c 'in' k" := (andthen c (fun x => k))
  (at level 10, x pattern, c at level 200, k at level 200,
   format "'[v' 'let/'  x  ':='  c  'in' '/' k ']'") : py_scope.

(** [x / y] on Python numbers. *)
Definition div (x y : num) : outcome num :=
  if Qc_eq_dec y 0%Qc then Failed ZeroDivisionError else Done (x / y)%Qc.

(** [a[i]] *)
Definition item (a : array) (i : nat) : outcome num :=
  match a !! i with
  | Some x => Done x
  | None => Failed (Python (IndexError "index out of range"))
  end.

(** [np.matmul(m, v)] of a two-dimensional and a one-dimensional array. *)
Definition dot (row v : array) : num :=
  foldr Qcplus 0%Qc (zip_with Qcmult row v).

Definition matmul (m : matrix) (v : array) : outcome array :=
  if forallb (fun row => bool_decide (length row = length v)) m
  then Done (map (fun row => dot row v) m)
  else Failed (Python (ValueError "matmul: mismatch in its core dimension")).

(** [m[i] = m[i] / d], a row of an array divided by a number.  (A zero
    divisor gives 0 here; numpy gives inf or nan with a warning.) *)
Definition row_div (m : matrix) (i : nat) (d : num) : matrix :=
  alter (map (fun x => (x / d)%Qc)) i m.

(** [self._motor_parameter] *)
Record motor_parameter : Type := {
  p : num;
  l_d : num;
  l_q : num;
  l_m : num;
  l_e : num;
  j_rotor : num;
  r_s : num;
  r_e : num
}.

Definition I_SD_IDX : nat := 0.
Definition I_SQ_IDX : nat := 1.
Definition I_E_IDX : nat := 2.
Definition EPSILON_IDX : nat := 3.

(** The two attributes the methods read; [_model_constants] is [None]
    until [_update_model] has assigned it. *)
Record t : Type := {
  _motor_parameter : motor_parameter;
  _model_constants : option matrix
}.


(** [sigma = 1 - mp['l_m'] ** 2 / (mp['l_d'] * mp['l_e'])] *)
Definition sigma (mp : motor_parameter) : outcome num :=
  let/ q := div (l_m mp * l_m mp)%Qc (l_d mp * l_e mp)%Qc in
  Done (1 - q)%Qc.

(** The columns are the coefficients of omega, i_d, i_q, i_e, u_d, u_q,
    u_e, omega * i_d, omega * i_q and omega * i_e. *)
Definition _update_model (self : t) : outcome t :=
  let mp := _motor_parameter self in
  let/ sigma := sigma mp in
  let/ c01 := div (- r_s mp)%Qc sigma in
  let/ c03 := div (l_m mp * r_e mp)%Qc (sigma * l_e mp)%Qc in
  let/ c04 := div 1%Qc sigma in
  let/ c06 := div (- l_m mp)%Qc (sigma * l_e mp)%Qc in
  let/ c08 := div (l_q mp * p mp)%Qc sigma in
  let/ c21 := div (l_m mp * r_s mp)%Qc (sigma * l_d mp)%Qc in
  let/ c23 := div (- r_e mp)%Qc sigma in
  let/ c24 := div (- l_m mp)%Qc (sigma * l_d mp)%Qc in
  let/ c26 := div 1%Qc sigma in
  let/ c28 := div (- p mp * l_m mp * l_q mp)%Qc (sigma * l_d mp)%Qc in
  let model_constants : matrix :=
    [[0; c01; 0; c03; c04; 0; c06; 0; c08; 0];
     [0; 0; - r_s mp; 0; 0; 1; 0; - l_d mp * p mp; 0; - p mp * l_m mp];
     [0; c21; 0; c23; c24; 0; c26; 0; c28; 0];
     [p mp; 0; 0; 0; 0; 0; 0; 0; 0; 0]]%Qc in
  let model_constants := row_div model_constants I_SD_IDX (l_d mp) in
  let model_constants := row_div model_constants I_SQ_IDX (l_q mp) in
  let model_constants := row_div model_constants I_E_IDX (l_e mp) in
  Done {| _motor_parameter := mp; _model_constants := Some model_constants |}.

(** [electrical_ode(self, state, u_dq, omega, *_)] *)
Definition electrical_ode (self : t) (state u_dq : array) (omega : num)
  : outcome array :=
  match _model_constants self with
  | None => Failed (Python (AttributeError "_model_constants"))
  | Some model_constants =>
      let/ i_sd := item state I_SD_IDX in
      let/ i_sq := item state I_SQ_IDX in
      let/ i_e := item state I_E_IDX in
      let/ u_0 := item u_dq 0 in
      let/ u_1 := item u_dq 1 in
      let/ u_2 := item u_dq 2 in
      matmul model_constants
        [omega; i_sd; i_sq; i_e; u_0; u_1; u_2;
         omega * i_sd; omega * i_sq; omega * i_e]%Qc
  end.

(** [torque(self, currents)] *)
Definition torque (self : t) (currents : array) : outcome num :=
  let mp := _motor_parameter self in
  let/ i_e := item currents I_E_IDX in
  let/ i_sd := item currents I_SD_IDX in
  let/ i_sq := item currents I_SQ_IDX in
  Done (Q2Qc (3 # 2) * p mp
        * (l_m mp * i_e + (l_d mp - l_q mp) * i_sd) * i_sq)%Qc.

(** [electrical_jacobian(self, state, u_in, omega, *args)]: the three
    arrays dx'/dx, dx'/dw and dT/dx. *)
Definition electrical_jacobian (self : t) (state u_in : array) (omega : num)
  : outcome (matrix * array * array) :=
  let mp := _motor_parameter self in
  let/ sigma := sigma mp in
  let/ a00 := div (- r_s mp)%Qc (l_d mp) in
  let/ a01 := div (l_q mp) (sigma * l_d mp)%Qc in
  let/ a02 := div (l_m mp * r_e mp)%Qc (sigma * l_d mp * l_e mp)%Qc in
  let/ a10 := div (- l_d mp)%Qc (l_q mp) in
  let/ a11 := div (- r_s mp)%Qc (l_q mp) in
  let/ a12 := div (- omega * p mp * l_e mp)%Qc (l_q mp) in
  let/ a20 := div (l_m mp * r_s mp)%Qc (sigma * l_d mp * l_e mp)%Qc in
  let/ a21 := div (- omega * p mp * l_m mp * l_q mp)%Qc
                (sigma * l_d mp * l_e mp)%Qc in
  let/ a22 := div (- r_e mp)%Qc (l_e mp) in
  let/ b0 := div (p mp * l_q mp)%Qc (l_d mp) in
  let/ i_sq := item state I_SQ_IDX in
  let/ b1 := div (- p mp * l_d mp)%Qc (l_q mp) in
  let/ i_sd := item state I_SD_IDX in
  let/ b1' := div (p mp * l_m mp)%Qc (l_q mp) in
  let/ i_e := item state I_E_IDX in
  Done ([[a00; a01 * omega * p mp; a02; 0];
         [a10 * omega * p mp; a11; a12; 0];
         [a20; a21; a22; 0];
         [0; 0; 0; 0]]%Qc,
        [b0 * i_sq; b1 * i_sd - b1' * i_e; - p mp; p mp]%Qc,
        [Q2Qc (3 # 2) * p mp * (l_d mp - l_q mp) * i_sq;
         Q2Qc (3 # 2) * p mp * (l_e mp * i_e + (l_d mp - l_q mp) * i_sd);
         Q2Qc (3 # 2) * p mp * l_e mp * i_sq;
         0]%Qc).

(** [_default_motor_parameter] *)
Definition _default_motor_parameter : motor_parameter :=
  {| p := int 3;
     l_d := Q2Qc (166 # 100000);
     l_q := Q2Qc (35 # 100000);
     l_m := Q2Qc (1589 # 1000000);
     l_e := Q2Qc (174 # 100000);
     j_rotor := Q2Qc (3883 # 10000);
     r_s := Q2Qc (1555 # 100000);
     r_e := Q2Qc (72 # 10000) |}.

(** *** Vocabulary of the properties *)

(** The state with [h] added to its entry [j]. *)
Definition shifted (state : array) (j : nat) (h : num) : array :=
  alter (fun x => (x + h)%Qc) j state.

(** By how much [f] grows when the entry [j] of the state grows by [h].
    For an [f] that is a polynomial of degree one in that entry, this is
    [h] times the partial derivative of [f] in it. *)
Definition increase (f : array -> outcome num) (state : array) (j : nat) (h : num)
  : outcome num :=
  let/ y1 := f (shifted state j h) in
  let/ y0 := f state in
  Done (y1 - y0)%Qc.

(** The entry [i] of what [electrical_ode] returns. *)
Definition derivative_of (self : t) (i : nat) (u_dq : array) (omega : num)
  (state : array) : outcome num :=
  let/ d := electrical_ode self state u_dq omega in item d i.

(** By how much the entry [i] of what [electrical_ode] returns grows when
    the speed grows by [h]. *)
Definition increase_with_speed (self : t) (i : nat) (u_dq state : array)
  (omega h : num) : outcome num :=
  let/ y1 := derivative_of self i u_dq (omega + h)%Qc state in
  let/ y0 := derivative_of self i u_dq omega state in
  Done (y1 - y0)%Qc.

(** The inductances for which [sigma] is a number and not zero. *)
Definition regular (mp : motor_parameter) : Prop :=
  (l_d mp * l_e mp)%Qc <> 0%Qc /\
  (l_m mp * l_m mp)%Qc <> (l_d mp * l_e mp)%Qc.

(** *** A motor with the default parameters *)

(** Before [_update_model] has run. *)
Definition default_motor : t :=
  {| _motor_parameter := _default_motor_parameter; _model_constants := None |}.

(** After [_update_model]: the default inductances are regular, so the
    other branch is not taken. *)
Definition default_model : t :=
  match _update_model default_motor with
  | Done self => self
  | Failed _ => default_motor
  end.

(** Currents of 1, 2 and 3 A at the angle 0, voltages of 10, 20 and 30 V
    and a speed of 100 1/s. *)
Definition demo_state : array := [int 1; int 2; int 3; int 0].
Definition demo_u : array := [int 10; int 20; int 30].
Definition demo_omega : num := int 100.

(** The three arrays of [electrical_jacobian] there. *)
Definition demo_jacobian : matrix * array * array :=
  match electrical_jacobian default_model demo_state demo_u demo_omega with
  | Done r => r
  | Failed _ => ([], [], [])
  end.

End ExternallyExcitedSynchronousMotor.

(** * Properties *)

(** ** Numbers *)

Lemma int_1_mul (x : num) : (int 1 * x)%Qc = x.
Proof. apply Qcmult_1_l. Qed.

Lemma int_0_mul (x : num) : (int 0 * x)%Qc = int 0.
Proof. apply Qcmult_0_l. Qed.

Lemma ge_true (x y : num) : ge x y = true <-> (y <= x)%Qc.
Proof.
  unfold ge. destruct (Qclt_le_dec x y) as [Hlt | Hle].
  - split; [discriminate |]. intros Hle. exfalso.
    exact (Qclt_not_le _ _ Hlt Hle).
  - tauto.
Qed.

Lemma ge_false (x y : num) : ge x y = false <-> (x < y)%Qc.
Proof.
  unfold ge. destruct (Qclt_le_dec x y) as [Hlt | Hle].
  - tauto.
  - split; [discriminate |]. intros Hlt. exfalso.
    exact (Qclt_not_le _ _ Hlt Hle).
Qed.

Lemma int_inj (a b : Z) : int a = int b -> a = b.
Proof.
  unfold int. intros H.
  assert (Hq : (inject_Z a == inject_Z b)%Q).
  { rewrite <- (Qred_correct (inject_Z a)), <- (Qred_correct (inject_Z b)).
    change (Qred (inject_Z a)) with (this (Q2Qc (inject_Z a))).
    change (Qred (inject_Z b)) with (this (Q2Qc (inject_Z b))).
    rewrite H. reflexivity. }
  unfold Qeq in Hq. simpl in Hq. lia.
Qed.

Lemma Ok_singleton_inj {A} (x y : A) : Ok [x] = Ok [y] -> x = y.
Proof. intros H. now injection H. Qed.

(** ** The single-quadrant converter *)

Section OneQuadrant.
Import FiniteOneQuadrantConverter.

Lemma convert_negative_current self time i u rest_i rest_u :
  (i < int 0)%Qc ->
  convert self time (i :: rest_i) (u :: rest_u) = Ok [u].
Proof.
  intros Hneg. unfold convert. simpl.
  apply ge_false in Hneg. rewrite Hneg. reflexivity.
Qed.

Lemma convert_nonnegative_current self time i u rest_i rest_u :
  (int 0 <= i)%Qc ->
  convert self time (i :: rest_i) (u :: rest_u)
  = Ok [(int (_current_action self) * u)%Qc].
Proof.
  intros Hpos. unfold convert. simpl.
  apply ge_true in Hpos. rewrite Hpos. reflexivity.
Qed.

Lemma convert_on self time i u :
  _current_action self = on -> convert self time [i] [u] = Ok [u].
Proof.
  intros Hon. unfold convert. simpl. rewrite Hon.
  destruct (ge i (int 0)); simpl; [rewrite int_1_mul |]; reflexivity.
Qed.

(** C9: with the transistor on, [convert] returns the supply voltage for
    the output currents [-1] and [+1] alike; [i_sup] is the output current
    when the transistor is on and 0 when it is off, whatever the output
    current. *)
Theorem one_quadrant_scenario (time u : num) :
  convert (switched on) time [int (-1)] [u] = Ok [u] /\
  convert (switched on) time [int 1] [u] = Ok [u] /\
  (forall i, i_sup (switched on) [i] = Ok i) /\
  (forall i_out, i_sup (switched off) i_out = Ok (int 0)).
Proof.
  split; [| split; [| split]].
  - now apply convert_on.
  - now apply convert_on.
  - intros i. reflexivity.
  - intros i_out. reflexivity.
Qed.

(** C10: a negative output current makes [convert] return the supply
    voltage whatever the switching state, also when the transistor is off;
    a result of zero volts from a supply that is not at zero volts is
    produced only with the transistor off and a non-negative output
    current. *)
Theorem one_quadrant_freewheeling :
  (forall self time i u, (i < int 0)%Qc -> convert self time [i] [u] = Ok [u]) /\
  (forall time i u, (i < int 0)%Qc -> convert (switched off) time [i] [u] = Ok [u]) /\
  (forall self time i u,
      u <> int 0 -> convert self time [i] [u] = Ok [int 0] ->
      _current_action self = off /\ (int 0 <= i)%Qc).
Proof.
  split; [| split].
  - intros. now apply convert_negative_current.
  - intros. now apply convert_negative_current.
  - intros self time i u Hu Hc. unfold convert in Hc. simpl in Hc.
    destruct (ge i (int 0)) eqn:Hge; simpl in Hc.
    + apply ge_true in Hge. split; [| exact Hge].
      apply Ok_singleton_inj in Hc.
      destruct (Qcmult_integral _ _ Hc) as [Ha | Hu0]; [| contradiction].
      now apply int_inj in Ha.
    + congruence.
Qed.

Lemma one_quadrant_freewheeling_witness :
  convert (switched on) (int 0) [int (-3)] [int 10] = Ok [int 10] /\
  convert (switched off) (int 0) [int (-3)] [int 10] = Ok [int 10] /\
  (_current_action (switched off) = off /\ (int 0 <= int 2)%Qc).
Proof.
  split; [| split].
  - apply (proj1 one_quadrant_freewheeling). reflexivity.
  - apply (proj1 (proj2 one_quadrant_freewheeling)). reflexivity.
  - apply (proj2 (proj2 one_quadrant_freewheeling) (switched off) (int 0) (int 2)
             (int 10)).
    + discriminate.
    + vm_compute. reflexivity.
Defined.

(** *** Empty arrays, the power balance and the range of the output *)

Lemma int_eq_0 (a : Z) : int a = int 0 <-> a = 0%Z.
Proof. split; [apply int_inj | now intros ->]. Qed.

Lemma i_sup_cases self i_out :
  (_current_action self = on /\ i_sup self i_out = getitem i_out 0) \/
  (_current_action self <> on /\ i_sup self i_out = Ok (int 0)).
Proof.
  unfold i_sup, on. destruct (Z.eqb_spec (_current_action self) 1) as [H | H].
  - now left.
  - now right.
Qed.

(** X1: [convert] reads the first entry of the output current and of the
    supply voltage whatever the switching state: it raises [IndexError]
    exactly when one of the two arrays is empty, and what it returns
    otherwise is one voltage.  [i_sup] reads the output current only when
    the transistor is on: on an empty array it raises [IndexError] then,
    and returns 0 in every other switching state. *)
Theorem empty_arrays_raise_index_error self time i_out u_sup :
  (convert self time i_out u_sup = Raise (IndexError "index out of range")
   <-> i_out = [] \/ u_sup = []) /\
  (forall u_out, convert self time i_out u_sup = Ok u_out -> length u_out = 1) /\
  (i_sup self [] = Raise (IndexError "index out of range")
   <-> _current_action self = on) /\
  (_current_action self <> on -> i_sup self [] = Ok (int 0)).
Proof.
  split; [| split; [| split]].
  - unfold convert. destruct i_out as [| i ri], u_sup as [| u ru]; simpl.
    + split; [now left | reflexivity].
    + split; [now left | reflexivity].
    + destruct (ge i (int 0)); simpl; (split; [now right | reflexivity]).
    + destruct (ge i (int 0)); simpl;
        (split; [discriminate | intros [H | H]; discriminate H]).
  - intros u_out. unfold convert.
    destruct i_out as [| i ri], u_sup as [| u ru]; simpl; try discriminate.
    + destruct (ge i (int 0)); discriminate.
    + destruct (ge i (int 0)); simpl; intros H; now injection H as <-.
  - destruct (i_sup_cases self []) as [[Hon ->] | [Hoff ->]]; simpl.
    + tauto.
    + split; [discriminate | contradiction].
  - intros Hoff. destruct (i_sup_cases self []) as [[Hon _] | [_ ->]];
      [contradiction | reflexivity].
Qed.

(** X2: for a non-negative output current the power the converter takes
    from the supply, [u_sup * i_sup], is the power it delivers, [u_out *
    i_out], in both switching states; for a stored action other than 0 and
    1 the two agree only when that power is zero. *)
Theorem power_balance self time i u u_out i_s :
  (int 0 <= i)%Qc ->
  convert self time [i] [u] = Ok [u_out] ->
  i_sup self [i] = Ok i_s ->
  ((u_out * i = u * i_s)%Qc <->
   _current_action self = off \/ _current_action self = on \/
   (u * i = int 0)%Qc).
Proof.
  intros Hpos Hc Hi.
  rewrite (convert_nonnegative_current self time i u [] [] Hpos) in Hc.
  apply Ok_singleton_inj in Hc. subst u_out.
  destruct (i_sup_cases self [i]) as [[Hon Hs] | [Hoff Hs]];
    rewrite Hs in Hi; simpl in Hi; injection Hi as <-.
  - rewrite Hon. unfold on. rewrite int_1_mul. tauto.
  - rewrite <- Qcmult_assoc.
    replace (u * int 0)%Qc with (int 0) by (symmetry; apply Qcmult_0_r).
    split.
    + intros H. destruct (Qcmult_integral _ _ H) as [Ha | Hui].
      * left. now apply int_eq_0.
      * right. now right.
    + intros [Ha | [Ha | Hui]].
      * rewrite Ha. apply int_0_mul.
      * contradiction.
      * rewrite Hui. apply Qcmult_0_r.
Qed.

Lemma power_balance_witness :
  (int 10 * int 2 = int 10 * int 2)%Qc <->
  _current_action (switched on) = off \/ _current_action (switched on) = on \/
  (int 10 * int 2 = int 0)%Qc.
Proof.
  apply (power_balance (switched on) (int 0) (int 2) (int 10) (int 10) (int 2)).
  - vm_compute. discriminate.
  - vm_compute. reflexivity.
  - reflexivity.
Defined.

(** X3: in the two switching states of the action space the converter
    passes the supply voltage or blocks it: with a supply voltage that is
    not negative the output voltage is 0 or the supply voltage, so it lies
    between the two; the supply current is 0 or the output current. *)
Theorem output_between_zero_and_supply self time i u u_out i_s :
  _current_action self = off \/ _current_action self = on ->
  (int 0 <= u)%Qc ->
  convert self time [i] [u] = Ok [u_out] ->
  i_sup self [i] = Ok i_s ->
  (u_out = int 0 \/ u_out = u) /\ (int 0 <= u_out)%Qc /\ (u_out <= u)%Qc /\
  (i_s = int 0 \/ i_s = i).
Proof.
  intros Ha Hu Hc Hi.
  assert (Hout : u_out = int 0 \/ u_out = u).
  { unfold convert in Hc. simpl in Hc.
    destruct (ge i (int 0)); simpl in Hc; apply Ok_singleton_inj in Hc;
      subst u_out; [| now right].
    destruct Ha as [-> | ->]; unfold off, on.
    - left. apply int_0_mul.
    - right. apply int_1_mul. }
  split; [exact Hout |].
  split; [| split].
  - destruct Hout as [-> | ->]; [apply Qcle_refl | exact Hu].
  - destruct Hout as [-> | ->]; [exact Hu | apply Qcle_refl].
  - destruct (i_sup_cases self [i]) as [[_ Hs] | [_ Hs]];
      rewrite Hs in Hi; simpl in Hi; injection Hi as <-; [now right | now left].
Qed.

Lemma output_between_zero_and_supply_witness :
  (int 0 = int 0 \/ int 0 = int 10) /\ (int 0 <= int 0)%Qc /\
  (int 0 <= int 10)%Qc /\ (int 0 = int 0 \/ int 0 = int 2).
Proof.
  apply (output_between_zero_and_supply (switched off) (int 0) (int 2) (int 10)
           (int 0) (int 0)).
  - now left.
  - vm_compute. discriminate.
  - vm_compute. reflexivity.
  - reflexivity.
Defined.

End OneQuadrant.

(** ** The monad *)

Lemma bind_ok {S A B} (c : M S A) (k : A -> M S B) s a s' :
  c s = (Ok a, s') -> bind c k s = k a s'.
Proof. intros H. unfold bind. now rewrite H. Qed.

Lemma bind_raise {S A B} (c : M S A) (k : A -> M S B) s e s' :
  c s = (Raise e, s') -> bind c k s = (Raise e, s').
Proof. intros H. unfold bind. now rewrite H. Qed.

(** ** Arrays *)

(** Dividing by the limits and multiplying by them again gives the raw
    observation back, when no limit is zero. *)
Lemma divide_multiply (obs lim q : array) :
  length obs = length lim ->
  Forall (fun l => l <> int 0) lim ->
  Np.divide obs lim = Ok q ->
  Np.multiply q lim = obs.
Proof.
  intros Hlen Hnz. unfold Np.divide. rewrite decide_True by exact Hlen.
  intros H. injection H as <-. unfold Np.multiply.
  revert lim Hlen Hnz. induction obs as [| x obs IH]; intros [| l lim] Hlen Hnz;
    try discriminate; [reflexivity |].
  simpl. inversion Hnz as [| ? ? Hl Hrest]; subst.
  f_equal.
  - rewrite Qcmult_comm. now apply Qcmult_div_r.
  - apply IH; [now injection Hlen | exact Hrest].
Qed.

(** ** The engine *)

Section EngineProperties.
Import SCML.
Context {action CS MS LS SS B : Type}.
Context (Conv : PowerElectronicConverter action CS) (Mot : ElectricMotor MS)
        (Mech : MechanicalLoad LS) (Sup : VoltageSupply SS)
        (Base : Bases B) (integrate_scheme : scheme)
        (solver_seed : NpRandom.seeder OdeSolver).

Local Abbreviation Self := (SCMLSystem CS MS LS SS B).

(** *** Which attributes a method assigns *)

Lemma writes_only_ret W {A} (a : A) : writes_only W (ret a : M Self A).
Proof. now intros s n _. Qed.

Lemma writes_only_raise W {A} e : writes_only W (raise e : M Self A).
Proof. now intros s n _. Qed.

Lemma writes_only_lift W {A} (r : res A) : writes_only W (lift r : M Self A).
Proof. now intros s n _. Qed.

Lemma writes_only_get W : writes_only W (get : M Self Self).
Proof. now intros s n _. Qed.

Lemma writes_only_bind W {A C} (c : M Self A) (k : A -> M Self C) :
  writes_only W c -> (forall a, writes_only W (k a)) -> writes_only W (bind c k).
Proof.
  intros Hc Hk s n Hn. unfold bind.
  specialize (Hc s n Hn). destruct (c s) as [[a | e] s']; simpl in *.
  - now rewrite Hk.
  - exact Hc.
Qed.

Lemma writes_only_getattr W name :
  writes_only W
    (getattr (B := B) (CS := CS) (MS := MS) (LS := LS) (SS := SS) name).
Proof.
  intros s n _. unfold getattr.
  destruct (dict s !! name); [reflexivity |].
  now destruct (class_attr name).
Qed.

Lemma writes_only_getattr_as W {A} (f : value -> res A) name :
  writes_only W
    (getattr_as (B := B) (CS := CS) (MS := MS) (LS := LS) (SS := SS) f name).
Proof.
  unfold getattr_as. apply writes_only_bind; [apply writes_only_getattr |].
  intros v. apply writes_only_lift.
Qed.

Lemma writes_only_setattr W name v :
  name ∈ W ->
  writes_only W
    (setattr (B := B) (CS := CS) (MS := MS) (LS := LS) (SS := SS) name v).
Proof.
  intros Hin s n Hn. unfold setattr, modify, with_dict. simpl.
  apply lookup_insert_ne. intros ->. contradiction.
Qed.

Lemma writes_only_same_dict W {A} (c : M Self A) :
  (forall s, dict (c s).2 = dict s) -> writes_only W c.
Proof. intros H s n _. now rewrite H. Qed.

Lemma on_converter_dict {A} (c : M CS A) (s : Self) :
  dict (on_converter c s).2 = dict s.
Proof. unfold on_converter. now destruct (c (_converter s)). Qed.

Lemma on_motor_dict {A} (c : M MS A) (s : Self) : dict (on_motor c s).2 = dict s.
Proof. unfold on_motor. now destruct (c (_electric_motor s)). Qed.

Lemma on_load_dict {A} (c : M LS A) (s : Self) : dict (on_load c s).2 = dict s.
Proof. unfold on_load. now destruct (c (_mechanical_load s)). Qed.

Lemma on_supply_dict {A} (c : M SS A) (s : Self) : dict (on_supply c s).2 = dict s.
Proof. unfold on_supply. now destruct (c (_supply s)). Qed.

Lemma on_base_dict {A} (c : M B A) (s : Self) : dict (on_base c s).2 = dict s.
Proof. unfold on_base. now destruct (c (base s)). Qed.

Lemma writes_only_mono W W' {A} (c : M Self A) :
  W ⊆ W' -> writes_only W c -> writes_only W' c.
Proof. intros Hsub Hc s n Hn. apply Hc. intros Hin. apply Hn, Hsub, Hin. Qed.

Ltac frame :=
  repeat
    match goal with
    | |- writes_only _ (bind _ _) => apply writes_only_bind; [| intros ?]
    | |- writes_only _ (ret _) => apply writes_only_ret
    | |- writes_only _ (raise _) => apply writes_only_raise
    | |- writes_only _ (lift _) => apply writes_only_lift
    | |- writes_only _ get => apply writes_only_get
    | |- writes_only _ (getattr _) => apply writes_only_getattr
    | |- writes_only _ (getattr_as _ _) => apply writes_only_getattr_as
    | |- writes_only _ (setattr _ _) => apply writes_only_setattr; set_solver
    | |- writes_only _ (on_converter _) =>
        apply writes_only_same_dict; intros ?; apply on_converter_dict
    | |- writes_only _ (on_motor _) =>
        apply writes_only_same_dict; intros ?; apply on_motor_dict
    | |- writes_only _ (on_load _) =>
        apply writes_only_same_dict; intros ?; apply on_load_dict
    | |- writes_only _ (on_supply _) =>
        apply writes_only_same_dict; intros ?; apply on_supply_dict
    | |- writes_only _ (on_base _) =>
        apply writes_only_same_dict; intros ?; apply on_base_dict
    | |- writes_only _ (modify _) =>
        apply writes_only_same_dict; intros ?; reflexivity
    | |- writes_only _ (match ?x with _ => _ end) => destruct x
    end.

Lemma system_equation_writes t y :
  writes_only ["_system_derivative"]
    (_system_equation Mot Mech (B := B) (CS := CS) (SS := SS) t y).
Proof. unfold _system_equation. frame. Qed.

Lemma system_jacobian_writes t y :
  writes_only [] (_system_jacobian Mot Mech (B := B) (CS := CS) (SS := SS) t y).
Proof. unfold _system_jacobian. frame. Qed.

Lemma call_writes f t y :
  writes_only ["_system_derivative"]
    (call Mot Mech (B := B) (CS := CS) (SS := SS) f t y).
Proof.
  unfold call. destruct f as [| | | | | | | | | []]; frame.
  - apply system_equation_writes.
  - apply (writes_only_mono []); [| apply system_jacobian_writes].
    intros n Hin. now apply elem_of_nil in Hin.
Qed.

Lemma solve_writes sol run :
  writes_only ["_system_derivative"]
    (solve Mot Mech (B := B) (CS := CS) (SS := SS) sol run).
Proof.
  induction run as [y | e | t y next IH | t y next IH]; simpl; frame;
    first [apply call_writes | apply IH].
Qed.

Lemma integrate_writes t :
  writes_only ["_system_derivative"]
    (integrate Mot Mech integrate_scheme (B := B) (CS := CS) (SS := SS) t).
Proof. unfold integrate. frame. apply solve_writes. Qed.

Lemma integrate_all_writes ts last :
  writes_only ["_system_derivative"]
    (integrate_all Conv Mot Mech Sup integrate_scheme (B := B) ts last).
Proof.
  revert last. induction ts as [| t ts IH]; intros last; simpl.
  - apply writes_only_ret.
  - frame; try apply IH. apply integrate_writes.
Qed.

Lemma observe_writes W : writes_only W (observe Conv Mot Mech Sup (B := B)).
Proof. unfold observe. frame. Qed.

Lemma simulate_writes a :
  writes_only (engine_state ++ ["_system_derivative"])
    (simulate Conv Mot Mech Sup Base integrate_scheme a).
Proof.
  unfold simulate, engine_state. frame.
  - apply (writes_only_mono ["_system_derivative"]);
      [| apply integrate_all_writes].
    intros n Hin. apply elem_of_cons in Hin as [-> | Hin];
      [| now apply elem_of_nil in Hin].
    repeat first [apply list_elem_of_here | apply list_elem_of_further].
  - apply observe_writes.
Qed.

Lemma reset_writes : writes_only engine_state (reset Conv Mot Mech Sup Base).
Proof. unfold reset, engine_state. frame. apply observe_writes. Qed.

Lemma limits_writes : writes_only ["_limits"] (limits Conv Mot Mech Sup (B := B)).
Proof. unfold limits. frame. Qed.

Lemma seed_writes sd : writes_only [] (seed Conv Mot Mech Sup Base solver_seed sd).
Proof.
  unfold seed. frame.
  all: try (apply writes_only_same_dict; intros s'; simpl;
            now destruct (NpRandom.seed_if_random _ _ _)).
Qed.

(** *** Evaluating the methods *)

Lemma getattr_found (s : Self) n v :
  dict s !! n = Some v -> getattr n s = (Ok v, s).
Proof. intros H. unfold getattr. now rewrite H. Qed.

Lemma getattr_method (s : Self) n v :
  dict s !! n = None -> class_attr n = Some v -> getattr n s = (Ok v, s).
Proof. intros H Hc. unfold getattr. now rewrite H, Hc. Qed.

Lemma getattr_missing (s : Self) n :
  dict s !! n = None -> class_attr n = None ->
  getattr n s = (Raise (AttributeError n), s).
Proof. intros H Hc. unfold getattr. now rewrite H, Hc. Qed.

Ltac crunch :=
  cbv beta iota zeta delta
    [bind ret get modify raise lift setattr assert getattr_as
     with_dict with_solver with_load with_warned with_base
     is_None as_slice as_array as_num as_pos as_matrix
     fst snd andb negb];
  cbn [dict _converter _electric_motor _mechanical_load _supply _ode_solver
       base warned].

Ltac lookup_tac :=
  repeat (rewrite lookup_insert_ne by discriminate);
  first [apply lookup_insert_eq | apply lookup_empty | eassumption].

Ltac eval_getattr :=
  match goal with
  | |- context [getattr ?n ?s] =>
      first
        [ erewrite (getattr_found s n) by (cbn [dict]; lookup_tac)
        | erewrite (getattr_method s n)
            by first [ (cbn [dict]; lookup_tac) | reflexivity ]
        | rewrite (getattr_missing s n)
            by first [ (cbn [dict]; lookup_tac) | reflexivity ] ]
  end.

Ltac run := crunch; repeat (eval_getattr; crunch).

(** The same on an object given field by field, as in [__init__]. *)
Ltac crunch_literal :=
  cbv beta iota zeta delta
    [bind ret get modify raise lift setattr assert getattr_as
     with_dict with_solver with_load with_warned with_base
     dict _converter _electric_motor _mechanical_load _supply _ode_solver
     base warned is_None fst snd andb negb].

Ltac run_literal := crunch_literal; repeat (eval_getattr; crunch_literal).

(** *** Construction *)

Lemma init_success converter motor load supply ode_solver tau calc :
  shapes_fit Conv Mot Mech Sup ->
  exists self,
    __init__ Conv Mot Mech Sup Base converter motor load supply ode_solver tau calc
    = Ok self /\
    _ode_solver self
    = set_system_equation (VMethod system_equation)
        (if wants_jacobian Mot Mech calc && both_have_jacobian Mot Mech
         then VMethod system_jacobian else VNone) ode_solver /\
    warned self
    = (if wants_jacobian Mot Mech calc && negb (both_have_jacobian Mot Mech)
       then [jacobian_warning] else []) /\
    dict self
    = <["_system_jacobian" :=
          VMatrix (Np.zeros2 (load_ode_size Mech + motor_ode_size Mot)
                     (load_ode_size Mech + motor_ode_size Mot))]>
        (<["_system_derivative" :=
             VArray (Np.zeros (load_ode_size Mech + motor_ode_size Mot))]>
         (<["system_observation" :=
              VArray (Np.zeros
                        (length (load_observation_names Mech ++
                                 motor_observation_names Mot ++
                                 conv_observation_names Conv ++
                                 supply_observation_names Sup)))]>
         (<["_initial_ode_value" :=
              VArray (Np.zeros (motor_ode_size Mot + load_ode_size Mech))]>
         (<["_nominal_state" := VNone]>
         (<["_limits" := VNone]>
         (<["_motor_ode_slice" :=
              VSlice (load_ode_size Mech)
                (load_ode_size Mech + motor_ode_size Mot)]>
         (<["_load_ode_slice" := VSlice 0 (load_ode_size Mech)]>
         (<["_state_names" :=
              VNames (load_observation_names Mech ++
                      motor_observation_names Mot ++
                      conv_observation_names Conv ++
                      supply_observation_names Sup)]>
         (<["_observation_space" :=
              VBox (concatenate_boxes
                      [load_observation_space Mech;
                       motor_observation_space Mot;
                       conv_observation_space Conv;
                       supply_observation_space Sup])]>
         (<["_t" := VNum (int 0)]>
         (<["_load_state" := VNone]>
         (<["_motor_state" := VNone]>
         (<["_tau" := VNum tau]> ∅))))))))))))).
Proof.
  intros (H1 & H2 & H3).
  unfold __init__, init_body, wants_jacobian, both_have_jacobian.
  rewrite (bool_decide_eq_true_2 _ H1), (bool_decide_eq_true_2 _ H2),
    (bool_decide_eq_true_2 _ H3).
  destruct calc as [[|] |], (motor_HAS_JACOBIAN Mot), (load_HAS_JACOBIAN Mech);
    run_literal; (eexists; split; [reflexivity | repeat split]).
Qed.

Lemma init_failure converter motor load supply ode_solver tau calc :
  ~ shapes_fit Conv Mot Mech Sup ->
  __init__ Conv Mot Mech Sup Base converter motor load supply ode_solver tau calc
  = Raise (AssertionError "").
Proof.
  intros Hno. unfold __init__, init_body.
  destruct (decide (supply_shape Sup = conv_supply_shape Conv)) as [H1 | H1].
  2:{ rewrite (bool_decide_eq_false_2 _ H1). now crunch. }
  destruct (decide (conv_output_shape Conv = input_shape Mot)) as [H2 | H2].
  2:{ rewrite (bool_decide_eq_true_2 _ H1), (bool_decide_eq_false_2 _ H2).
      now crunch. }
  destruct (decide (torque_shape Mot = speed_shape Mech)) as [H3 | H3].
  2:{ rewrite (bool_decide_eq_true_2 _ H1), (bool_decide_eq_true_2 _ H2),
        (bool_decide_eq_false_2 _ H3). now crunch. }
  exfalso. apply Hno. now repeat split.
Qed.

Lemma shapes_fit_dec : Decision (shapes_fit Conv Mot Mech Sup).
Proof. unfold shapes_fit. apply _. Qed.

(** C7: construction succeeds exactly when the supply's shape is the
    converter's supply-side shape, the converter's output shape is the
    motor's input shape and the motor's torque shape is the load's speed
    shape; when one of the three fails, construction raises an
    [AssertionError] and no engine is built. *)
Theorem construction_iff_shapes converter motor load supply ode_solver tau calc :
  (shapes_fit Conv Mot Mech Sup <->
   exists self,
     __init__ Conv Mot Mech Sup Base converter motor load supply ode_solver tau calc
     = Ok self) /\
  (~ shapes_fit Conv Mot Mech Sup <->
   __init__ Conv Mot Mech Sup Base converter motor load supply ode_solver tau calc
   = Raise (AssertionError "")).
Proof.
  split; split.
  - intros Hfit.
    destruct (init_success converter motor load supply ode_solver tau calc Hfit)
      as (self & Hself & _).
    now exists self.
  - intros (self & Hself).
    destruct shapes_fit_dec as [Hfit | Hno]; [exact Hfit |].
    rewrite (init_failure _ _ _ _ _ _ _ Hno) in Hself. discriminate.
  - apply init_failure.
  - intros Hraise Hfit.
    destruct (init_success converter motor load supply ode_solver tau calc Hfit)
      as (self & Hself & _).
    rewrite Hself in Hraise. discriminate.
Qed.

(** C4: when the shapes fit, construction returns an engine whatever
    [calc_jacobian] and the two [HAS_JACOBIAN] flags are.  The solver is
    given the bound method [_system_jacobian] exactly when [calc_jacobian]
    is true, or is left at its default, and both the motor and the load
    declare [HAS_JACOBIAN]; otherwise it is given [None].  The warning is
    issued exactly when a Jacobian was asked for and the motor or the load
    has none. *)
Theorem jacobian_degradation converter motor load supply ode_solver tau calc :
  shapes_fit Conv Mot Mech Sup ->
  exists self,
    __init__ Conv Mot Mech Sup Base converter motor load supply ode_solver tau calc
    = Ok self /\
    solver_equation (_ode_solver self) = VMethod system_equation /\
    (calc = Some true -> both_have_jacobian Mot Mech = false ->
     solver_jac (_ode_solver self) = VNone /\ warned self = [jacobian_warning]) /\
    (solver_jac (_ode_solver self) = VMethod system_jacobian <->
     (calc = Some true \/ calc = None) /\
     motor_HAS_JACOBIAN Mot = true /\ load_HAS_JACOBIAN Mech = true) /\
    (solver_jac (_ode_solver self) = VNone \/
     solver_jac (_ode_solver self) = VMethod system_jacobian) /\
    (warned self = [jacobian_warning] <->
     calc = Some true /\ both_have_jacobian Mot Mech = false) /\
    (warned self = [] \/ warned self = [jacobian_warning]).
Proof.
  intros Hfit.
  destruct (init_success converter motor load supply ode_solver tau calc Hfit)
    as (self & Hself & Hsolver & Hwarned & _).
  exists self. split; [exact Hself |].
  rewrite Hsolver, Hwarned. unfold wants_jacobian, both_have_jacobian. simpl.
  destruct calc as [[|] |], (motor_HAS_JACOBIAN Mot), (load_HAS_JACOBIAN Mech);
    simpl; repeat split; intros; try tauto; try discriminate;
    try (intuition discriminate); auto.
Qed.


(** *** Slices *)

Lemma slice_get_load {A} (ls ms : list A) :
  Np.slice_get (ls ++ ms) 0 (length ls) = ls.
Proof.
  unfold Np.slice_get. rewrite Nat.sub_0_r, drop_0.
  now rewrite take_app_length.
Qed.

Lemma slice_get_motor {A} (ls ms : list A) :
  Np.slice_get (ls ++ ms) (length ls) (length ls + length ms) = ms.
Proof.
  unfold Np.slice_get. rewrite drop_app_length.
  replace (length ls + length ms - length ls) with (length ms) by lia.
  apply firstn_all.
Qed.

Lemma slice_set_length a lo hi v a' :
  Np.slice_set a lo hi v = Ok a' -> length a' = length a.
Proof.
  unfold Np.slice_set. intros H.
  case_decide as Hlen.
  - injection H as <-. rewrite !length_app, length_take, length_drop. lia.
  - destruct v as [| x [| ? ?]]; try discriminate.
    injection H as <-.
    rewrite !length_app, length_take, length_replicate, length_drop. lia.
Qed.

Lemma slice_set_exact a lo hi v :
  lo <= hi -> hi <= length a -> length v = hi - lo ->
  Np.slice_set a lo hi v = Ok (take lo a ++ v ++ drop hi a).
Proof.
  intros Hlo Hhi Hv. unfold Np.slice_set.
  replace (lo `min` length a) with lo by lia.
  replace (lo `max` (hi `min` length a)) with hi by lia.
  now rewrite decide_True.
Qed.

(** *** The layout is kept *)

Ltac not_in :=
  let H := fresh in
  unfold engine_state; cbn [app]; intros H;
  repeat (apply elem_of_cons in H as [H | H]; [discriminate H |]);
  apply elem_of_nil in H; exact H.

Ltac sub_in :=
  let n := fresh in
  let H := fresh in
  unfold engine_state; cbn [app]; intros n H;
  repeat (apply elem_of_cons in H as [-> | H];
          [repeat first [apply list_elem_of_here | apply list_elem_of_further] |]);
  apply elem_of_nil in H; contradiction.

Lemma init_layout converter motor load supply ode_solver tau calc self :
  __init__ Conv Mot Mech Sup Base converter motor load supply ode_solver tau calc
  = Ok self ->
  layout Mot Mech self.
Proof.
  intros Hself.
  destruct shapes_fit_dec as [Hfit | Hno].
  2:{ rewrite (init_failure _ _ _ _ _ _ _ Hno) in Hself. discriminate. }
  destruct (init_success converter motor load supply ode_solver tau calc Hfit)
    as (self' & Hself' & _ & _ & Hdict).
  rewrite Hself in Hself'. injection Hself' as <-.
  unfold layout, never_assigned. rewrite Hdict.
  repeat split; try lookup_tac.
  - repeat constructor; lookup_tac.
  - eexists. split; [lookup_tac |]. apply length_replicate.
  - eexists. split; [lookup_tac |]. apply length_replicate.
  - eexists. lookup_tac.
Qed.

Ltac split_missing :=
  unfold never_assigned in *;
  repeat match goal with
         | H : Forall _ (_ :: _) |- _ => inversion H; subst; clear H
         end.

Lemma layout_keep (s s' : Self) :
  (forall n, n ∉ engine_state ++ ["_limits"; "_system_derivative"; "_initial_ode_value"] ->
             dict s' !! n = dict s !! n) ->
  (forall d, dict s !! "_system_derivative" = Some (VArray d) ->
             exists d', dict s' !! "_system_derivative" = Some (VArray d') /\
                        length d' = length d) ->
  (forall y0, dict s !! "_initial_ode_value" = Some (VArray y0) ->
              exists y1, dict s' !! "_initial_ode_value" = Some (VArray y1) /\
                         length y1 = length y0) ->
  layout Mot Mech s -> layout Mot Mech s'.
Proof.
  intros Hkeep Hder Hini
    (Hl & Hm & Hj & Hn & (d & Hd & Hlen) & (y0 & Hy & Hylen) & Ht & (tau & Htau)).
  unfold layout. split_missing.
  split; [rewrite Hkeep by not_in; assumption |].
  split; [rewrite Hkeep by not_in; assumption |].
  split; [rewrite Hkeep by not_in; assumption |].
  split; [repeat constructor; rewrite Hkeep by not_in; assumption |].
  split; [destruct (Hder d Hd) as (d' & Hd' & Hlen'); exists d'; split;
          [exact Hd' | lia] |].
  split; [destruct (Hini y0 Hy) as (y1 & Hy1 & Hlen1); exists y1; split;
          [exact Hy1 | lia] |].
  split; [rewrite Hkeep by not_in; assumption |].
  exists tau. rewrite Hkeep by not_in. assumption.
Qed.

Lemma layout_frame W {A} (c : M Self A) (s : Self) :
  writes_only W c ->
  (forall n, n ∈ W -> n ∈ engine_state ++ ["_limits"]) ->
  layout Mot Mech s -> layout Mot Mech (c s).2.
Proof.
  intros Hc HW. 
  assert (Hkeep : forall n, n ∉ engine_state ++ ["_limits"] ->
                            dict (c s).2 !! n = dict s !! n).
  { intros n Hn'. apply Hc. intros Hin. apply Hn', HW, Hin. }
  apply layout_keep.
  - intros n Hn. apply Hkeep. intros Hin. apply Hn.
    unfold engine_state in *. cbn [app] in *.
    repeat (apply elem_of_cons in Hin as [-> | Hin];
            [repeat first [apply list_elem_of_here | apply list_elem_of_further] |]).
    now apply elem_of_nil in Hin.
  - intros d Hd. exists d. split; [| reflexivity]. now rewrite Hkeep by not_in.
  - intros y0 Hy. exists y0. split; [| reflexivity]. now rewrite Hkeep by not_in.
Qed.

Lemma system_equation_layout t y (s : Self) :
  layout Mot Mech s -> layout Mot Mech (_system_equation Mot Mech t y s).2.
Proof.
  intros Hlay.
  pose proof Hlay as (Hl & Hm & _).
  assert (Hkeep : forall n, n ∉ ["_system_derivative"] ->
                            dict (_system_equation Mot Mech t y s).2 !! n
                            = dict s !! n).
  { intros n Hn'. now apply system_equation_writes. }
  revert Hlay. apply layout_keep.
  - intros n Hn. apply Hkeep. intros Hin. apply Hn.
    apply elem_of_cons in Hin as [-> | Hin]; [| now apply elem_of_nil in Hin].
    unfold engine_state. cbn [app].
    repeat first [apply list_elem_of_here | apply list_elem_of_further].
  - intros d Hd. clear Hkeep. unfold _system_equation. run.
    destruct (Np.slice_set d _ _ _) as [d1 | e] eqn:H1; run.
    2:{ exists d. now split. }
    apply slice_set_length in H1.
    destruct (Np.slice_set d1 _ _ _) as [d2 | e] eqn:H2; run.
    2:{ exists d1. split; [lookup_tac | lia]. }
    apply slice_set_length in H2.
    exists d2. split; [lookup_tac | lia].
  - intros y0 Hy. exists y0. split; [| reflexivity]. now rewrite Hkeep by not_in.
Qed.

Lemma initial_ode_value_writes v :
  writes_only ["_initial_ode_value"]
    (set_initial_ode_value (B := B) (CS := CS) (MS := MS) (LS := LS) (SS := SS) v).
Proof. unfold set_initial_ode_value. frame. Qed.

Lemma initial_ode_value_layout v (s : Self) :
  layout Mot Mech s -> layout Mot Mech (set_initial_ode_value v s).2.
Proof.
  intros Hlay.
  assert (Hkeep : forall n, n ∉ ["_initial_ode_value"] ->
                            dict (set_initial_ode_value v s).2 !! n
                            = dict s !! n).
  { intros n Hn'. now apply initial_ode_value_writes. }
  revert Hlay. apply layout_keep.
  - intros n Hn. apply Hkeep. intros Hin. apply Hn.
    apply elem_of_cons in Hin as [-> | Hin]; [| now apply elem_of_nil in Hin].
    unfold engine_state. cbn [app].
    repeat first [apply list_elem_of_here | apply list_elem_of_further].
  - intros d Hd. exists d. split; [| reflexivity]. now rewrite Hkeep by not_in.
  - intros y0 Hy. clear Hkeep. unfold set_initial_ode_value. run.
    destruct (Np.slice_set y0 _ _ _) as [y1 | e] eqn:H1; run.
    2:{ exists y0. now split. }
    apply slice_set_length in H1.
    exists y1. split; [lookup_tac | lia].
Qed.

Lemma layout_bind {A C} (c : M Self A) (k : A -> M Self C) :
  (forall s, layout Mot Mech s -> layout Mot Mech (c s).2) ->
  (forall a s, layout Mot Mech s -> layout Mot Mech (k a s).2) ->
  forall s, layout Mot Mech s -> layout Mot Mech (bind c k s).2.
Proof.
  intros Hc Hk s Hs. unfold bind. specialize (Hc s Hs).
  destruct (c s) as [[a | e] s']; simpl in *; [now apply Hk | exact Hc].
Qed.

Lemma layout_of_writes W {A} (c : M Self A) :
  writes_only W c ->
  (forall n, n ∈ W -> n ∈ engine_state ++ ["_limits"]) ->
  forall s, layout Mot Mech s -> layout Mot Mech (c s).2.
Proof. intros Hc HW s. now apply (layout_frame W). Qed.

Lemma call_layout f t y (s : Self) :
  layout Mot Mech s -> layout Mot Mech (call Mot Mech f t y s).2.
Proof.
  revert s. unfold call.
  destruct f as [| | | | | | | | | []];
    try solve [apply (layout_of_writes []); [frame | sub_in]].
  - apply layout_bind; [intros s; apply system_equation_layout |].
    intros d. apply (layout_of_writes []); [frame | sub_in].
  - apply layout_bind;
      [apply (layout_of_writes []); [apply system_jacobian_writes | sub_in] |].
    intros j. apply (layout_of_writes []); [frame | sub_in].
Qed.

Lemma solve_layout sol run (s : Self) :
  layout Mot Mech s -> layout Mot Mech (solve Mot Mech sol run s).2.
Proof.
  revert s.
  induction run as [y | e | t y next IH | t y next IH]; cbn [solve].
  - apply (layout_of_writes []); [frame | sub_in].
  - apply (layout_of_writes []); [frame | sub_in].
  - apply layout_bind; [intros s; apply call_layout |]. intros v.
    apply layout_bind; [apply (layout_of_writes []); [frame | sub_in] |].
    intros d. apply IH.
  - apply layout_bind; [intros s; apply call_layout |]. intros v.
    apply layout_bind; [apply (layout_of_writes []); [frame | sub_in] |].
    intros m. apply IH.
Qed.

Lemma integrate_layout t (s : Self) :
  layout Mot Mech s -> layout Mot Mech (integrate Mot Mech integrate_scheme t s).2.
Proof.
  revert s. unfold integrate.
  apply layout_bind; [apply (layout_of_writes []); [frame | sub_in] |].
  intros self.
  apply layout_bind; [intros s; apply solve_layout |]. intros y.
  apply (layout_of_writes []); [frame | sub_in].
Qed.

Lemma integrate_all_layout ts last (s : Self) :
  layout Mot Mech s ->
  layout Mot Mech (integrate_all Conv Mot Mech Sup integrate_scheme ts last s).2.
Proof.
  revert last s. induction ts as [| t ts IH]; intros last; cbn [integrate_all].
  - apply (layout_of_writes []); [frame | sub_in].
  - repeat (apply layout_bind;
            [solve [apply (layout_of_writes []); [frame | sub_in]] | intros ?]).
    apply layout_bind; [intros s; apply integrate_layout |].
    intros y. apply IH.
Qed.

Lemma simulate_layout a (s : Self) :
  layout Mot Mech s ->
  layout Mot Mech (simulate Conv Mot Mech Sup Base integrate_scheme a s).2.
Proof.
  revert s. unfold simulate.
  repeat (apply layout_bind;
          [solve [apply (layout_of_writes []); [frame | sub_in]] | intros ?]).
  apply layout_bind; [intros s; apply integrate_all_layout |]. intros last.
  apply (layout_of_writes engine_state); [| sub_in].
  unfold engine_state. frame. apply observe_writes.
Qed.

Lemma reachable_layout self :
  reachable Conv Mot Mech Sup Base integrate_scheme solver_seed self ->
  layout Mot Mech self.
Proof.
  induction 1 as [? ? ? ? ? ? ? self Hinit | self _ IH | a self _ IH | self _ IH
                 | sd self _ IH | t y self _ IH | t y self _ IH | v self _ IH].
  - eapply init_layout, Hinit.
  - eapply layout_frame; [apply reset_writes | sub_in | exact IH].
  - apply simulate_layout, IH.
  - eapply layout_frame; [apply limits_writes | sub_in | exact IH].
  - eapply layout_frame; [apply seed_writes | sub_in | exact IH].
  - apply system_equation_layout, IH.
  - eapply layout_frame; [apply system_jacobian_writes | sub_in | exact IH].
  - apply initial_ode_value_layout, IH.
Qed.


Lemma writes_only_ok W {A} (c : M Self A) s a s' n :
  writes_only W c -> n ∉ W -> c s = (Ok a, s') -> dict s' !! n = dict s !! n.
Proof. intros Hc Hn Hrun. specialize (Hc s n Hn). now rewrite Hrun in Hc. Qed.

Lemma bind_never_ok {S A C} (c : M S A) (k : A -> M S C) s :
  (forall a s', c s = (Ok a, s') -> is_ok (k a s').1 = false) ->
  is_ok (bind c k s).1 = false.
Proof.
  intros H. unfold bind. destruct (c s) as [[a | e] s'] eqn:Hc; [| reflexivity].
  now apply H.
Qed.

(** *** The combined right-hand side *)

(** C2: on a state vector made of a load segment followed by a motor
    segment, [_system_equation] returns the load's mechanical derivative,
    taken at the time, the load segment and the torque of the motor
    segment, followed by the motor's electrical derivative, taken at the
    motor segment and the speed [get_omega] reads from the load segment;
    each derivative has the size of its segment. *)
Theorem system_equation_concatenates (self : Self) t load_state motor_state :
  reachable Conv Mot Mech Sup Base integrate_scheme solver_seed self ->
  length load_state = load_ode_size Mech ->
  length motor_state = motor_ode_size Mot ->
  let load := _mechanical_load self in
  let motor := _electric_motor self in
  let omega := get_omega Mech load load_state in
  let tq := torque Mot motor motor_state in
  let electrical := electrical_ode Mot motor motor_state omega in
  let mechanical := mechanical_ode Mech load t load_state tq in
  length electrical = motor_ode_size Mot ->
  length mechanical = load_ode_size Mech ->
  exists derivative,
    (_system_equation Mot Mech t (load_state ++ motor_state) self).1
    = Ok derivative /\
    derivative = mechanical ++ electrical /\
    Np.slice_get derivative 0 (load_ode_size Mech) = mechanical /\
    Np.slice_get derivative (load_ode_size Mech)
      (load_ode_size Mech + motor_ode_size Mot) = electrical.
Proof.
  intros Hreach Hls Hms load motor omega tq electrical mechanical Hel Hme.
  destruct (reachable_layout self Hreach)
    as (Hl & Hm & _ & _ & (d & Hd & Hlen) & _).
  exists (mechanical ++ electrical).
  split; [| split; [reflexivity | split]].
  - unfold _system_equation. run.
    rewrite <- Hls, <- Hms, slice_get_load, slice_get_motor.
    rewrite Hls, Hms. fold load motor omega tq electrical mechanical.
    rewrite (slice_set_exact d) by lia. run.
    rewrite slice_set_exact; [| lia | |].
    + run. f_equal. rewrite take_0, app_nil_l. f_equal.
      rewrite (drop_ge d) by lia. rewrite app_nil_r.
      rewrite drop_app_length'; [reflexivity |].
      rewrite length_take. lia.
    + rewrite !length_app, length_take, length_drop. lia.
    + lia.
  - rewrite <- Hme. apply slice_get_load.
  - rewrite <- Hme, <- Hel. apply slice_get_motor.
Qed.

(** *** The Jacobian *)

Lemma system_jacobian_attribute_error (self : Self) t state :
  layout Mot Mech self ->
  (_system_jacobian Mot Mech t state self).1
  = Raise (AttributeError "_load_ode_idx").
Proof.
  intros (Hl & Hm & _ & Hn & _). split_missing.
  unfold _system_jacobian. run.
  destruct (electrical_jacobian _ _ _ _) as [[motor_jac eso] toe].
  run. reflexivity.
Qed.

(** With the two missing attributes supplied from outside, the routine
    still stops, at the name [system_jac]. *)
Lemma system_jacobian_name_error (self : Self) t state idx :
  layout Mot Mech self ->
  (_system_jacobian Mot Mech t state
     (with_dict (insert "_load_ode_idx" (VSlice 0 idx))
        (with_dict (insert "_omega_ode_idx" (VPos 0)) self))).1
  = Raise (NameError "system_jac").
Proof.
  intros (Hl & Hm & _ & _).
  unfold _system_jacobian. run.
  destruct (electrical_jacobian _ _ _ _) as [[motor_jac eso] toe].
  run. cbn [index_by].
  destruct (mechanical_jacobian _ _ _ _ _) as [load_jac lot].
  destruct (Np.shape2 load_jac), (Np.shape2 motor_jac).
  reflexivity.
Qed.

(** C3: the bound method [_system_jacobian] is what the solver is given
    when both roles have a Jacobian and it is asked for or left at the
    default, and the attribute of the same name that [__init__] assigns
    afterwards holds a zero matrix, not the method; but on every engine
    the method stops at [self._load_ode_idx], an attribute nothing
    assigns, and returns no matrix. *)
Theorem system_jacobian_raises (self : Self) t state :
  reachable Conv Mot Mech Sup Base integrate_scheme solver_seed self ->
  (_system_jacobian Mot Mech t state self).1
  = Raise (AttributeError "_load_ode_idx") /\
  (call Mot Mech (VMethod system_jacobian) t state self).1
  = Raise (AttributeError "_load_ode_idx") /\
  (getattr "_system_jacobian" self).1
  = Ok (VMatrix (Np.zeros2 (load_ode_size Mech + motor_ode_size Mot)
                   (load_ode_size Mech + motor_ode_size Mot))).
Proof.
  intros Hreach. pose proof (reachable_layout self Hreach) as Hlay.
  pose proof (system_jacobian_attribute_error self t state Hlay) as Hraise.
  split; [exact Hraise | split].
  - unfold call, bind.
    destruct (_system_jacobian Mot Mech t state self) as [[m | e] s'];
      simpl in *; congruence.
  - destruct Hlay as (_ & _ & Hj & _).
    now rewrite (getattr_found _ _ _ Hj).
Qed.

(** *** [simulate] and [reset] *)

Lemma simulate_past_the_loop (self : Self) a t0 ts s1 t0' s2 tau s3 y s4 s5 :
  layout Mot Mech self ->
  getattr_as as_num "_t" self = (Ok t0, self) ->
  on_converter (set_action Conv a t0) self = (Ok ts, s1) ->
  getattr_as as_num "_t" s1 = (Ok t0', s2) ->
  getattr_as as_num "_tau" s2 = (Ok tau, s3) ->
  integrate_all Conv Mot Mech Sup integrate_scheme (ts ++ [(t0' + tau)%Qc]) None s3
  = (Ok (Some y), s4) ->
  on_base (_count_step Base) s4 = (Ok tt, s5) ->
  simulate Conv Mot Mech Sup Base integrate_scheme a self
  = (Raise (AttributeError "_motor_state_slice"), s5).
Proof.
  intros Hlay H1 H2 H3 H4 H5 H6.
  assert (Hnone : dict s5 !! "_motor_state_slice" = None).
  { destruct Hlay as (_ & _ & _ & Hn & _). inversion Hn as [| ? ? Hn1 _]; subst.
    rewrite <- Hn1.
    rewrite (writes_only_ok [] _ _ _ _ _ (writes_only_same_dict _ _ (on_base_dict _)) ltac:(not_in) H6).
    rewrite (writes_only_ok ["_system_derivative"] _ _ _ _ "_motor_state_slice"
               (integrate_all_writes _ _) ltac:(not_in) H5).
    rewrite (writes_only_ok [] _ _ _ _ _ (writes_only_getattr_as _ _ _) ltac:(not_in) H4).
    rewrite (writes_only_ok [] _ _ _ _ _ (writes_only_getattr_as _ _ _) ltac:(not_in) H3).
    rewrite (writes_only_ok [] _ _ _ _ _ (writes_only_same_dict _ _ (on_converter_dict _)) ltac:(not_in) H2).
    reflexivity. }
  unfold simulate.
  rewrite (bind_ok _ _ _ _ _ H1), (bind_ok _ _ _ _ _ H2), (bind_ok _ _ _ _ _ H3),
    (bind_ok _ _ _ _ _ H4), (bind_ok _ _ _ _ _ H5), (bind_ok _ _ _ _ _ H6).
  run. reflexivity.
Qed.

(** C1: [simulate] returns no observation: on every engine and for every
    action the call ends in an exception. *)
Theorem simulate_raises (self : Self) a :
  reachable Conv Mot Mech Sup Base integrate_scheme solver_seed self ->
  exists e, (simulate Conv Mot Mech Sup Base integrate_scheme a self).1 = Raise e.
Proof.
  intros Hreach. pose proof (reachable_layout self Hreach) as Hlay.
  assert (Hnone : dict self !! "_motor_state_slice" = None).
  { destruct Hlay as (_ & _ & _ & Hn & _). now inversion Hn. }
  enough (Hno : is_ok (simulate Conv Mot Mech Sup Base integrate_scheme a self).1
                = false).
  { destruct (simulate _ _ _ _ _ _ a self).1 as [x | e]; [discriminate |].
    now exists e. }
  unfold simulate.
  apply bind_never_ok. intros t0 s1 H1.
  apply bind_never_ok. intros ts s2 H2.
  apply bind_never_ok. intros t0' s3 H3.
  apply bind_never_ok. intros tau s4 H4.
  apply bind_never_ok. intros last s5 H5.
  apply bind_never_ok. intros [] s6 H6.
  apply bind_never_ok. intros y s7 H7.
  assert (Hs7 : dict s7 !! "_motor_state_slice" = None).
  { rewrite <- Hnone.
    assert (Hs67 : dict s7 = dict s6).
    { destruct last; unfold ret, raise in H7; now inversion H7. }
    rewrite Hs67.
    rewrite (writes_only_ok [] _ _ _ _ _ (writes_only_same_dict _ _ (on_base_dict _)) ltac:(not_in) H6).
    rewrite (writes_only_ok ["_system_derivative"] _ _ _ _ "_motor_state_slice"
               (integrate_all_writes _ _) ltac:(not_in) H5).
    rewrite (writes_only_ok [] _ _ _ _ _ (writes_only_getattr_as _ _ _) ltac:(not_in) H4).
    rewrite (writes_only_ok [] _ _ _ _ _ (writes_only_getattr_as _ _ _) ltac:(not_in) H3).
    rewrite (writes_only_ok [] _ _ _ _ _ (writes_only_same_dict _ _ (on_converter_dict _)) ltac:(not_in) H2).
    rewrite (writes_only_ok [] _ _ _ _ _ (writes_only_getattr_as _ _ _) ltac:(not_in) H1).
    reflexivity. }
  run. reflexivity.
Qed.


(** *** What [reset] returns, and the normalisation *)

Lemma on_base_run {A} (c : M B A) (s : Self) r b :
  c (base s) = (r, b) -> on_base c s = (r, with_base b s).
Proof. intros H. unfold on_base. now rewrite H. Qed.

Lemma on_load_run {A} (c : M LS A) (s : Self) r x :
  c (_mechanical_load s) = (r, x) -> on_load c s = (r, with_load x s).
Proof. intros H. unfold on_load. now rewrite H. Qed.

Lemma on_motor_run {A} (c : M MS A) (s : Self) r x :
  c (_electric_motor s) = (r, x) -> on_motor c s = (r, with_motor x s).
Proof. intros H. unfold on_motor. now rewrite H. Qed.

Lemma on_converter_run {A} (c : M CS A) (s : Self) r x :
  c (_converter s) = (r, x) -> on_converter c s = (r, with_converter x s).
Proof. intros H. unfold on_converter. now rewrite H. Qed.

Lemma on_supply_run {A} (c : M SS A) (s : Self) r x :
  c (_supply s) = (r, x) -> on_supply c s = (r, with_supply x s).
Proof. intros H. unfold on_supply. now rewrite H. Qed.

Lemma reset_result (self : Self) b1 b2 l' m' c' s' limits :
  layout Mot Mech self ->
  dict self !! "_limits" = Some limits ->
  PhysicalSystem_reset Base (base self) = (Ok tt, b1) ->
  next_generator Base b1 = (Ok tt, b2) ->
  load_reset Mech (_mechanical_load self) = (Ok tt, l') ->
  motor_reset Mot (_electric_motor self) = (Ok tt, m') ->
  conv_reset Conv (_converter self) = (Ok tt, c') ->
  supply_reset Sup (_supply self) = (Ok tt, s') ->
  exists y0,
    dict self !! "_initial_ode_value" = Some (VArray y0) /\
    (reset Conv Mot Mech Sup Base self).1
    = divide_by
        (Np.concatenate
           [load_get_observation Mech l'
              (Np.slice_get y0 0 (load_ode_size Mech));
            motor_get_observation Mot m'
              (Np.slice_get y0 (load_ode_size Mech)
                 (load_ode_size Mech + motor_ode_size Mot));
            conv_get_observation Conv c';
            supply_get_observation Sup s'])
        limits.
Proof.
  intros (Hl & Hm & _ & _ & _ & (y0 & Hy & _) & Ht & _) Hlim H1 H2 H3 H4 H5 H6.
  exists y0. split; [exact Hy |].
  unfold reset.
  rewrite (bind_ok _ _ _ _ _ (on_base_run _ _ _ _ H1)).
  rewrite (bind_ok _ _ _ _ _ (on_base_run _ (with_base b1 self) _ _ H2)).
  erewrite bind_ok by (apply on_load_run; exact H3).
  erewrite bind_ok by (apply on_motor_run; exact H4).
  erewrite bind_ok by (apply on_converter_run; exact H5).
  erewrite bind_ok by (apply on_supply_run; exact H6).
  unfold observe, with_supply, with_converter, with_motor, with_load, with_base,
    set_initial_value.
  run. reflexivity.
Qed.

(** Before anything has read the [limits] property, [reset] cannot
    divide. *)
Lemma reset_before_limits (self : Self) b1 b2 l' m' c' s' :
  layout Mot Mech self ->
  dict self !! "_limits" = Some VNone ->
  PhysicalSystem_reset Base (base self) = (Ok tt, b1) ->
  next_generator Base b1 = (Ok tt, b2) ->
  load_reset Mech (_mechanical_load self) = (Ok tt, l') ->
  motor_reset Mot (_electric_motor self) = (Ok tt, m') ->
  conv_reset Conv (_converter self) = (Ok tt, c') ->
  supply_reset Sup (_supply self) = (Ok tt, s') ->
  supply_get_observation Sup s' <> [] ->
  (reset Conv Mot Mech Sup Base self).1
  = Raise (TypeError "unsupported operand type(s) for /").
Proof.
  intros Hlay Hlim H1 H2 H3 H4 H5 H6 Hobs.
  destruct (reset_result self b1 b2 l' m' c' s' VNone Hlay Hlim H1 H2 H3 H4 H5 H6)
    as (y0 & _ & ->).
  unfold divide_by, Np.concatenate. cbn [concat].
  destruct (load_get_observation _ _ _ ++ _) as [| x rest] eqn:Hcat;
    [| reflexivity].
  exfalso. apply Hobs.
  apply app_eq_nil in Hcat as [_ Hcat]. apply app_eq_nil in Hcat as [_ Hcat].
  apply app_eq_nil in Hcat as [_ Hcat]. now apply app_eq_nil in Hcat as [Hcat _].
Qed.

Lemma limits_first_read (self : Self) :
  dict self !! "_limits" = Some VNone ->
  let all := Np.concatenate
               [load_limits Mech (_mechanical_load self);
                motor_limits Mot (_electric_motor self);
                conv_limits Conv (_converter self);
                supply_limits Sup (_supply self)] in
  limits Conv Mot Mech Sup self
  = (Ok (VArray all), with_dict (insert "_limits" (VArray all)) self).
Proof. intros Hlim all. unfold limits. run. reflexivity. Qed.

Lemma limits_later_reads (self : Self) all :
  dict self !! "_limits" = Some (VArray all) ->
  limits Conv Mot Mech Sup self = (Ok (VArray all), self).
Proof. intros Hlim. unfold limits. run. reflexivity. Qed.

(** *** An engine in use *)

Context (Nom : NominalStates CS MS LS SS).

Local Abbreviation later :=
  (after_all Conv Mot Mech Sup Base integrate_scheme solver_seed Nom).
Local Abbreviation after_ :=
  (after Conv Mot Mech Sup Base integrate_scheme solver_seed Nom).

Lemma nominal_state_writes :
  writes_only ["_nominal_state"] (nominal_state Nom (B := B)).
Proof. unfold nominal_state. frame. Qed.

Lemma later_nil (s : Self) : later [] s = s.
Proof. reflexivity. Qed.

Lemma later_cons c cs (s : Self) : later (c :: cs) s = later cs (after_ c s).
Proof. reflexivity. Qed.

Lemma later_app cs cs' (s : Self) : later (cs ++ cs') s = later cs' (later cs s).
Proof. unfold after_all. apply fold_left_app. Qed.

Lemma after_writes (c : @use action) :
  exists W : list string,
    W ⊆ assigned /\
    forall (s : Self) n, n ∉ W -> dict (after_ c s) !! n = dict s !! n.
Proof.
  destruct c as [| a | | | sd | t y | t y | v]; simpl.
  - exists engine_state. split; [sub_in | apply reset_writes].
  - exists (engine_state ++ ["_system_derivative"]).
    split; [sub_in | apply simulate_writes].
  - exists ["_limits"]. split; [sub_in | apply limits_writes].
  - exists ["_nominal_state"]. split; [sub_in | apply nominal_state_writes].
  - exists []. split; [sub_in | apply seed_writes].
  - exists ["_system_derivative"]. split; [sub_in | apply system_equation_writes].
  - exists []. split; [sub_in | apply system_jacobian_writes].
  - exists ["_initial_ode_value"].
    split; [sub_in | apply initial_ode_value_writes].
Qed.

Lemma after_keeps c (s : Self) n :
  n ∉ assigned -> dict (after_ c s) !! n = dict s !! n.
Proof.
  intros Hn. destruct (after_writes c) as (W & HW & Hkeep).
  apply Hkeep. intros Hin. apply Hn, HW, Hin.
Qed.

Lemma later_keeps cs (s : Self) n :
  n ∉ assigned -> dict (later cs s) !! n = dict s !! n.
Proof.
  intros Hn. revert s. induction cs as [| c cs IH]; intros s; [reflexivity |].
  rewrite later_cons, IH. now apply after_keeps.
Qed.

Lemma nominal_state_layout (s : Self) :
  layout Mot Mech s -> layout Mot Mech (nominal_state Nom s).2.
Proof.
  intros (Hl & Hm & Hj & Hn & (d & Hd & Hlen) & (y0 & Hy & Hylen) & Ht
          & (tau0 & Htau)).
  assert (Hkeep : forall n, n ∉ ["_nominal_state"] ->
                            dict (nominal_state Nom s).2 !! n = dict s !! n).
  { intros n Hn'. now apply nominal_state_writes. }
  unfold layout. split_missing.
  split; [rewrite Hkeep by not_in; assumption |].
  split; [rewrite Hkeep by not_in; assumption |].
  split; [rewrite Hkeep by not_in; assumption |].
  split; [repeat constructor; rewrite Hkeep by not_in; assumption |].
  split; [exists d; split; [rewrite Hkeep by not_in; assumption | exact Hlen] |].
  split; [exists y0; split; [rewrite Hkeep by not_in; assumption | exact Hylen] |].
  split; [rewrite Hkeep by not_in; assumption |].
  exists tau0. rewrite Hkeep by not_in. assumption.
Qed.

Lemma after_layout (c : @use action) (s : Self) :
  layout Mot Mech s -> layout Mot Mech (after_ c s).
Proof.
  intros Hlay. destruct c as [| a | | | sd | t y | t y | v]; simpl.
  - eapply layout_frame; [apply reset_writes | sub_in | exact Hlay].
  - apply simulate_layout, Hlay.
  - eapply layout_frame; [apply limits_writes | sub_in | exact Hlay].
  - apply nominal_state_layout, Hlay.
  - eapply layout_frame; [apply seed_writes | sub_in | exact Hlay].
  - apply system_equation_layout, Hlay.
  - eapply layout_frame; [apply system_jacobian_writes | sub_in | exact Hlay].
  - apply initial_ode_value_layout, Hlay.
Qed.

Lemma later_layout cs (s : Self) :
  layout Mot Mech s -> layout Mot Mech (later cs s).
Proof.
  revert s. induction cs as [| c cs IH]; intros s Hlay; [exact Hlay |].
  rewrite later_cons. apply IH, after_layout, Hlay.
Qed.

(** *** What construction fixes *)

Ltac in_list :=
  unfold fixed_at_construction, never_assigned; cbn [app];
  repeat first [apply list_elem_of_here | apply list_elem_of_further].

Lemma not_assigned n : n ∈ fixed_at_construction ++ never_assigned -> n ∉ assigned.
Proof.
  unfold fixed_at_construction, never_assigned, assigned, engine_state.
  cbn [app]. intros Hin.
  repeat (apply elem_of_cons in Hin as [-> | Hin]; [not_in |]).
  now apply elem_of_nil in Hin.
Qed.

(** X4: the time step, the simulation time [_t] (which stays at 0), the
    observation space, the state names, the two slices of the ODE state
    and the zero matrix in [_system_jacobian] are what [__init__] made
    them, whatever calls were made on the engine since; and the four
    attributes that [simulate] and [_system_jacobian] read without their
    ever being assigned stay unassigned. *)
Theorem construction_time_attributes_never_change
  converter motor load supply ode_solver tau0 calc self cs :
  __init__ Conv Mot Mech Sup Base converter motor load supply ode_solver tau0 calc
  = Ok self ->
  (forall n, n ∈ fixed_at_construction ->
             dict (later cs self) !! n = dict self !! n) /\
  (tau (later cs self)).1 = Ok (VNum tau0) /\
  (getattr "_t" (later cs self)).1 = Ok (VNum (int 0)) /\
  (state_observation_space (later cs self)).1
  = Ok (VBox (concatenate_boxes
                [load_observation_space Mech; motor_observation_space Mot;
                 conv_observation_space Conv; supply_observation_space Sup])) /\
  dict (later cs self) !! "_state_names"
  = Some (VNames (state_names Conv Mot Mech Sup)) /\
  dict (later cs self) !! "_load_ode_slice"
  = Some (VSlice 0 (load_ode_size Mech)) /\
  dict (later cs self) !! "_motor_ode_slice"
  = Some (VSlice (load_ode_size Mech) (load_ode_size Mech + motor_ode_size Mot)) /\
  Forall (fun n => dict (later cs self) !! n = None) never_assigned.
Proof.
  intros Hself.
  assert (Hkeep : forall n, n ∈ fixed_at_construction ++ never_assigned ->
                            dict (later cs self) !! n = dict self !! n).
  { intros n Hn. apply later_keeps, not_assigned, Hn. }
  destruct shapes_fit_dec as [Hfit | Hno].
  2:{ rewrite (init_failure _ _ _ _ _ _ _ Hno) in Hself. discriminate. }
  destruct (init_success converter motor load supply ode_solver tau0 calc Hfit)
    as (self' & Hself' & _ & _ & Hdict).
  rewrite Hself in Hself'. injection Hself' as <-.
  split; [| split; [| split; [| split; [| split; [| split; [| split]]]]]].
  - intros n Hn. apply Hkeep. apply elem_of_app. now left.
  - unfold tau. erewrite getattr_found; [reflexivity |].
    rewrite Hkeep by in_list. rewrite Hdict. lookup_tac.
  - erewrite getattr_found; [reflexivity |].
    rewrite Hkeep by in_list. rewrite Hdict. lookup_tac.
  - unfold state_observation_space. erewrite getattr_found; [reflexivity |].
    rewrite Hkeep by in_list. rewrite Hdict. lookup_tac.
  - rewrite Hkeep by in_list. rewrite Hdict. lookup_tac.
  - rewrite Hkeep by in_list. rewrite Hdict. lookup_tac.
  - rewrite Hkeep by in_list. rewrite Hdict. lookup_tac.
  - unfold never_assigned.
    repeat constructor; (rewrite Hkeep by in_list);
      rewrite Hdict; lookup_tac.
Qed.

(** *** The limits and the nominal state are computed once *)

Lemma is_limits (c : @use action) : c = UseLimits \/ c <> UseLimits.
Proof. destruct c; first [now left | right; discriminate]. Qed.

Lemma limits_attr_unread (c : @use action) (s : Self) :
  c <> UseLimits -> dict (after_ c s) !! "_limits" = dict s !! "_limits".
Proof.
  intros Hc. destruct c as [| a | | | sd | t y | t y | v]; simpl.
  - apply reset_writes. not_in.
  - apply simulate_writes. not_in.
  - contradiction.
  - apply nominal_state_writes. not_in.
  - apply seed_writes. not_in.
  - apply system_equation_writes. not_in.
  - apply system_jacobian_writes. not_in.
  - apply initial_ode_value_writes. not_in.
Qed.

Lemma limits_attr_kept (c : @use action) (s : Self) all :
  dict s !! "_limits" = Some (VArray all) ->
  dict (after_ c s) !! "_limits" = Some (VArray all).
Proof.
  intros H. destruct (is_limits c) as [-> | Hc].
  - simpl. now rewrite (limits_later_reads s all H).
  - now rewrite limits_attr_unread.
Qed.

Lemma later_limits_kept cs (s : Self) all :
  dict s !! "_limits" = Some (VArray all) ->
  dict (later cs s) !! "_limits" = Some (VArray all).
Proof.
  revert s. induction cs as [| c cs IH]; intros s H; [exact H |].
  rewrite later_cons. apply IH, limits_attr_kept, H.
Qed.

Lemma later_limits_unread cs (s : Self) :
  UseLimits ∉ cs -> dict (later cs s) !! "_limits" = dict s !! "_limits".
Proof.
  revert s. induction cs as [| c cs IH]; intros s Hno; [reflexivity |].
  rewrite later_cons, IH by (intros Hin; apply Hno; now right).
  apply limits_attr_unread. intros ->. apply Hno. now left.
Qed.

Lemma later_limits_none_or_array cs (s : Self) :
  dict s !! "_limits" = Some VNone ->
  dict (later cs s) !! "_limits" = Some VNone \/
  exists all, dict (later cs s) !! "_limits" = Some (VArray all).
Proof.
  revert s. induction cs as [| c cs IH]; intros s H; [now left |].
  rewrite later_cons. destruct (is_limits c) as [-> | Hc].
  - right. eexists. apply later_limits_kept. simpl.
    rewrite (limits_first_read s H). cbn [snd with_dict dict].
    apply lookup_insert_eq.
  - apply IH. now rewrite limits_attr_unread.
Qed.

Lemma init_limits converter motor load supply ode_solver tau0 calc self :
  __init__ Conv Mot Mech Sup Base converter motor load supply ode_solver tau0 calc
  = Ok self ->
  dict self !! "_limits" = Some VNone /\
  dict self !! "_nominal_state" = Some VNone /\
  dict self !! "_initial_ode_value"
  = Some (VArray (Np.zeros (motor_ode_size Mot + load_ode_size Mech))).
Proof.
  intros Hself.
  destruct shapes_fit_dec as [Hfit | Hno].
  2:{ rewrite (init_failure _ _ _ _ _ _ _ Hno) in Hself. discriminate. }
  destruct (init_success converter motor load supply ode_solver tau0 calc Hfit)
    as (self' & Hself' & _ & _ & Hdict).
  rewrite Hself in Hself'. injection Hself' as <-.
  rewrite Hdict. repeat split; lookup_tac.
Qed.

(** X5: [limits] computes the limits at its first read, from the limits
    the load, the motor, the converter and the supply report then, in this
    order, and keeps them: every later read returns the same array and
    changes nothing, whatever calls were made on the engine in between. *)
Theorem limits_are_computed_once
  converter motor load supply ode_solver tau0 calc self0 cs0 cs :
  __init__ Conv Mot Mech Sup Base converter motor load supply ode_solver tau0 calc
  = Ok self0 ->
  let self := later cs0 self0 in
  exists all,
    (limits Conv Mot Mech Sup self).1 = Ok (VArray all) /\
    (UseLimits ∉ cs0 ->
     all = Np.concatenate
             [load_limits Mech (_mechanical_load self);
              motor_limits Mot (_electric_motor self);
              conv_limits Conv (_converter self);
              supply_limits Sup (_supply self)]) /\
    limits Conv Mot Mech Sup (later cs (limits Conv Mot Mech Sup self).2)
    = (Ok (VArray all), later cs (limits Conv Mot Mech Sup self).2).
Proof.
  intros Hself self.
  destruct (init_limits _ _ _ _ _ _ _ _ Hself) as (Hnone & _).
  destruct (later_limits_none_or_array cs0 self0 Hnone) as [Hl | (all & Hl)];
    fold self in Hl.
  - eexists. rewrite (limits_first_read self Hl). cbn [fst snd].
    split; [reflexivity | split; [reflexivity |]].
    apply limits_later_reads, later_limits_kept.
    cbn [with_dict dict]. apply lookup_insert_eq.
  - exists all. rewrite (limits_later_reads self all Hl). cbn [fst snd].
    split; [reflexivity | split].
    + intros Hno. unfold self in Hl.
      rewrite (later_limits_unread cs0 self0 Hno), Hnone in Hl. discriminate.
    + apply limits_later_reads, later_limits_kept, Hl.
Qed.

Lemma nominal_first_read (self : Self) :
  dict self !! "_nominal_state" = Some VNone ->
  let all := Np.concatenate
               [load_nominal_state Nom (_mechanical_load self);
                motor_nominal_state Nom (_electric_motor self);
                conv_nominal_state Nom (_converter self);
                supply_nominal_state Nom (_supply self)] in
  nominal_state Nom self
  = (Ok (VArray all), with_dict (insert "_nominal_state" (VArray all)) self).
Proof. intros Hnom all. unfold nominal_state. run. reflexivity. Qed.

Lemma nominal_later_reads (self : Self) all :
  dict self !! "_nominal_state" = Some (VArray all) ->
  nominal_state Nom self = (Ok (VArray all), self).
Proof. intros Hnom. unfold nominal_state. run. reflexivity. Qed.

Lemma is_nominal_state (c : @use action) :
  c = UseNominalState \/ c <> UseNominalState.
Proof. destruct c; first [now left | right; discriminate]. Qed.

Lemma nominal_attr_unread (c : @use action) (s : Self) :
  c <> UseNominalState ->
  dict (after_ c s) !! "_nominal_state" = dict s !! "_nominal_state".
Proof.
  intros Hc. destruct c as [| a | | | sd | t y | t y | v]; simpl.
  - apply reset_writes. not_in.
  - apply simulate_writes. not_in.
  - apply limits_writes. not_in.
  - contradiction.
  - apply seed_writes. not_in.
  - apply system_equation_writes. not_in.
  - apply system_jacobian_writes. not_in.
  - apply initial_ode_value_writes. not_in.
Qed.

Lemma nominal_attr_kept (c : @use action) (s : Self) all :
  dict s !! "_nominal_state" = Some (VArray all) ->
  dict (after_ c s) !! "_nominal_state" = Some (VArray all).
Proof.
  intros H. destruct (is_nominal_state c) as [-> | Hc].
  - simpl. now rewrite (nominal_later_reads s all H).
  - now rewrite nominal_attr_unread.
Qed.

Lemma later_nominal_kept cs (s : Self) all :
  dict s !! "_nominal_state" = Some (VArray all) ->
  dict (later cs s) !! "_nominal_state" = Some (VArray all).
Proof.
  revert s. induction cs as [| c cs IH]; intros s H; [exact H |].
  rewrite later_cons. apply IH, nominal_attr_kept, H.
Qed.

Lemma later_nominal_unread cs (s : Self) :
  UseNominalState ∉ cs ->
  dict (later cs s) !! "_nominal_state" = dict s !! "_nominal_state".
Proof.
  revert s. induction cs as [| c cs IH]; intros s Hno; [reflexivity |].
  rewrite later_cons, IH by (intros Hin; apply Hno; now right).
  apply nominal_attr_unread. intros ->. apply Hno. now left.
Qed.

Lemma later_nominal_none_or_array cs (s : Self) :
  dict s !! "_nominal_state" = Some VNone ->
  dict (later cs s) !! "_nominal_state" = Some VNone \/
  exists all, dict (later cs s) !! "_nominal_state" = Some (VArray all).
Proof.
  revert s. induction cs as [| c cs IH]; intros s H; [now left |].
  rewrite later_cons. destruct (is_nominal_state c) as [-> | Hc].
  - right. eexists. apply later_nominal_kept. simpl.
    rewrite (nominal_first_read s H). cbn [snd with_dict dict].
    apply lookup_insert_eq.
  - apply IH. now rewrite nominal_attr_unread.
Qed.

(** X6: [nominal_state] computes the nominal state at its first read,
    from the nominal states the load, the motor, the converter and the
    supply report then, in this order, and keeps it: every later read
    returns the same array and changes nothing, whatever calls were made
    on the engine in between. *)
Theorem nominal_state_is_computed_once
  converter motor load supply ode_solver tau0 calc self0 cs0 cs :
  __init__ Conv Mot Mech Sup Base converter motor load supply ode_solver tau0 calc
  = Ok self0 ->
  let self := later cs0 self0 in
  exists all,
    (nominal_state Nom self).1 = Ok (VArray all) /\
    (UseNominalState ∉ cs0 ->
     all = Np.concatenate
             [load_nominal_state Nom (_mechanical_load self);
              motor_nominal_state Nom (_electric_motor self);
              conv_nominal_state Nom (_converter self);
              supply_nominal_state Nom (_supply self)]) /\
    nominal_state Nom (later cs (nominal_state Nom self).2)
    = (Ok (VArray all), later cs (nominal_state Nom self).2).
Proof.
  intros Hself self.
  destruct (init_limits _ _ _ _ _ _ _ _ Hself) as (_ & Hnone & _).
  destruct (later_nominal_none_or_array cs0 self0 Hnone) as [Hl | (all & Hl)];
    fold self in Hl.
  - eexists. rewrite (nominal_first_read self Hl). cbn [fst snd].
    split; [reflexivity | split; [reflexivity |]].
    apply nominal_later_reads, later_nominal_kept.
    cbn [with_dict dict]. apply lookup_insert_eq.
  - exists all. rewrite (nominal_later_reads self all Hl). cbn [fst snd].
    split; [reflexivity | split].
    + intros Hno. unfold self in Hl.
      rewrite (later_nominal_unread cs0 self0 Hno), Hnone in Hl. discriminate.
    + apply nominal_later_reads, later_nominal_kept, Hl.
Qed.

(** *** What [reset] does *)

Lemma reset_run (self : Self) b1 b2 l' m' c' s' lim y0 :
  dict self !! "_load_ode_slice" = Some (VSlice 0 (load_ode_size Mech)) ->
  dict self !! "_motor_ode_slice"
  = Some (VSlice (load_ode_size Mech) (load_ode_size Mech + motor_ode_size Mot)) ->
  dict self !! "_initial_ode_value" = Some (VArray y0) ->
  dict self !! "_t" = Some (VNum (int 0)) ->
  dict self !! "_limits" = Some lim ->
  PhysicalSystem_reset Base (base self) = (Ok tt, b1) ->
  next_generator Base b1 = (Ok tt, b2) ->
  load_reset Mech (_mechanical_load self) = (Ok tt, l') ->
  motor_reset Mot (_electric_motor self) = (Ok tt, m') ->
  conv_reset Conv (_converter self) = (Ok tt, c') ->
  supply_reset Sup (_supply self) = (Ok tt, s') ->
  reset Conv Mot Mech Sup Base self
  = (divide_by (observation Conv Mot Mech Sup y0 l' m' c' s') lim,
     {| dict :=
          <["system_observation" :=
              VArray (observation Conv Mot Mech Sup y0 l' m' c' s')]>
            (<["_load_state" :=
                 VArray (Np.slice_get y0 0 (load_ode_size Mech))]>
               (<["_motor_state" :=
                    VArray (Np.slice_get y0 (load_ode_size Mech)
                              (load_ode_size Mech + motor_ode_size Mot))]>
                  (dict self)));
        _converter := c'; _electric_motor := m'; _mechanical_load := l';
        _supply := s';
        _ode_solver := set_initial_value y0 (int 0) (_ode_solver self);
        base := b2; warned := warned self |}).
Proof.
  intros Hl Hm Hy Ht Hlim H1 H2 H3 H4 H5 H6.
  unfold reset.
  rewrite (bind_ok _ _ _ _ _ (on_base_run _ _ _ _ H1)).
  rewrite (bind_ok _ _ _ _ _ (on_base_run _ (with_base b1 self) _ _ H2)).
  erewrite bind_ok by (apply on_load_run; exact H3).
  erewrite bind_ok by (apply on_motor_run; exact H4).
  erewrite bind_ok by (apply on_converter_run; exact H5).
  erewrite bind_ok by (apply on_supply_run; exact H6).
  unfold observe, with_supply, with_converter, with_motor, with_load, with_base,
    set_initial_value, observation.
  run. reflexivity.
Qed.

Lemma reset_effect (self : Self) b1 b2 l' m' c' s' lim :
  layout Mot Mech self ->
  dict self !! "_limits" = Some lim ->
  PhysicalSystem_reset Base (base self) = (Ok tt, b1) ->
  next_generator Base b1 = (Ok tt, b2) ->
  load_reset Mech (_mechanical_load self) = (Ok tt, l') ->
  motor_reset Mot (_electric_motor self) = (Ok tt, m') ->
  conv_reset Conv (_converter self) = (Ok tt, c') ->
  supply_reset Sup (_supply self) = (Ok tt, s') ->
  exists y0,
    dict self !! "_initial_ode_value" = Some (VArray y0) /\
    length y0 = motor_ode_size Mot + load_ode_size Mech /\
    let obs := observation Conv Mot Mech Sup y0 l' m' c' s' in
    let after_reset := (reset Conv Mot Mech Sup Base self).2 in
    (reset Conv Mot Mech Sup Base self).1 = divide_by obs lim /\
    _ode_solver after_reset = set_initial_value y0 (int 0) (_ode_solver self) /\
    dict after_reset !! "_load_state"
    = Some (VArray (Np.slice_get y0 0 (load_ode_size Mech))) /\
    dict after_reset !! "_motor_state"
    = Some (VArray (Np.slice_get y0 (load_ode_size Mech)
                      (load_ode_size Mech + motor_ode_size Mot))) /\
    dict after_reset !! "system_observation" = Some (VArray obs) /\
    base after_reset = b2 /\ _mechanical_load after_reset = l' /\
    _electric_motor after_reset = m' /\ _converter after_reset = c' /\
    _supply after_reset = s'.
Proof.
  intros (Hl & Hm & _ & _ & _ & (y0 & Hy & Hlen) & Ht & _) Hlim H1 H2 H3 H4 H5 H6.
  exists y0. split; [exact Hy | split; [exact Hlen |]].
  cbn zeta.
  rewrite (reset_run self b1 b2 l' m' c' s' lim y0 Hl Hm Hy Ht Hlim
             H1 H2 H3 H4 H5 H6).
  cbn [fst snd dict _ode_solver base _mechanical_load _electric_motor _converter
       _supply].
  repeat split; lookup_tac.
Qed.

Lemma built_layout converter motor load supply ode_solver tau0 calc self0 cs :
  __init__ Conv Mot Mech Sup Base converter motor load supply ode_solver tau0 calc
  = Ok self0 ->
  layout Mot Mech (later cs self0).
Proof. intros Hself. eapply later_layout, init_layout, Hself. Qed.

Lemma later_limits_read cs (s : Self) :
  dict s !! "_limits" = Some VNone ->
  UseLimits ∈ cs ->
  exists all, dict (later cs s) !! "_limits" = Some (VArray all).
Proof.
  intros Hnone Hin.
  apply list_elem_of_split in Hin as (cs1 & cs2 & ->).
  rewrite later_app, later_cons.
  destruct (later_limits_none_or_array cs1 s Hnone) as [Hl | (all & Hl)].
  - eexists. apply later_limits_kept. simpl.
    rewrite (limits_first_read _ Hl). cbn [snd with_dict dict].
    apply lookup_insert_eq.
  - exists all. apply later_limits_kept, limits_attr_kept, Hl.
Qed.

(** X7: [reset] divides the observation by [self._limits], which is
    [None] until the [limits] property has been read.  On an engine whose
    limits were never read, [reset] resets the components, restarts the
    solver and stores the observation, and then raises [TypeError] at the
    division, unless the observation is empty. *)
Theorem reset_before_the_limits_are_read
  converter motor load supply ode_solver tau0 calc self0 cs b1 b2 l' m' c' s' :
  __init__ Conv Mot Mech Sup Base converter motor load supply ode_solver tau0 calc
  = Ok self0 ->
  UseLimits ∉ cs ->
  let self := later cs self0 in
  PhysicalSystem_reset Base (base self) = (Ok tt, b1) ->
  next_generator Base b1 = (Ok tt, b2) ->
  load_reset Mech (_mechanical_load self) = (Ok tt, l') ->
  motor_reset Mot (_electric_motor self) = (Ok tt, m') ->
  conv_reset Conv (_converter self) = (Ok tt, c') ->
  supply_reset Sup (_supply self) = (Ok tt, s') ->
  exists y0,
    dict self !! "_initial_ode_value" = Some (VArray y0) /\
    let obs := observation Conv Mot Mech Sup y0 l' m' c' s' in
    (reset Conv Mot Mech Sup Base self).1
    = match obs with
      | [] => Ok []
      | _ :: _ => Raise (TypeError "unsupported operand type(s) for /")
      end /\
    dict (reset Conv Mot Mech Sup Base self).2 !! "system_observation"
    = Some (VArray obs) /\
    _ode_solver (reset Conv Mot Mech Sup Base self).2
    = set_initial_value y0 (int 0) (_ode_solver self).
Proof.
  intros Hself Hno self H1 H2 H3 H4 H5 H6.
  assert (Hlim : dict self !! "_limits" = Some VNone).
  { unfold self. rewrite (later_limits_unread cs self0 Hno).
    apply (init_limits _ _ _ _ _ _ _ _ Hself). }
  destruct (reset_effect self b1 b2 l' m' c' s' VNone
              (built_layout _ _ _ _ _ _ _ _ cs Hself) Hlim H1 H2 H3 H4 H5 H6)
    as (y0 & Hy & _ & Hres & Hsol & _ & _ & Hobs & _).
  exists y0. split; [exact Hy |]. split; [| split; [exact Hobs | exact Hsol]].
  rewrite Hres. reflexivity.
Qed.

(** X8: once the limits have been read, [reset] resets the four
    components, restarts the solver at [initial_ode_value] and time 0,
    takes the first [load.ode_size] entries of that value as the load
    state and the next [motor.ode_size] as the motor state, stores the
    concatenated observation of load, motor, converter and supply in
    [system_observation], and returns that observation divided by the
    limits; when the two have the same length and no limit is zero,
    multiplying what it returns by the limits gives the stored
    observation back. *)
Theorem reset_returns_the_normalised_observation
  converter motor load supply ode_solver tau0 calc self0 cs b1 b2 l' m' c' s' :
  __init__ Conv Mot Mech Sup Base converter motor load supply ode_solver tau0 calc
  = Ok self0 ->
  UseLimits ∈ cs ->
  let self := later cs self0 in
  PhysicalSystem_reset Base (base self) = (Ok tt, b1) ->
  next_generator Base b1 = (Ok tt, b2) ->
  load_reset Mech (_mechanical_load self) = (Ok tt, l') ->
  motor_reset Mot (_electric_motor self) = (Ok tt, m') ->
  conv_reset Conv (_converter self) = (Ok tt, c') ->
  supply_reset Sup (_supply self) = (Ok tt, s') ->
  exists y0 lim,
    (initial_ode_value self).1 = Ok (VArray y0) /\
    (limits Conv Mot Mech Sup self).1 = Ok (VArray lim) /\
    let obs := observation Conv Mot Mech Sup y0 l' m' c' s' in
    let after_reset := (reset Conv Mot Mech Sup Base self).2 in
    (reset Conv Mot Mech Sup Base self).1 = Np.divide obs lim /\
    _ode_solver after_reset = set_initial_value y0 (int 0) (_ode_solver self) /\
    dict after_reset !! "_load_state"
    = Some (VArray (Np.slice_get y0 0 (load_ode_size Mech))) /\
    dict after_reset !! "_motor_state"
    = Some (VArray (Np.slice_get y0 (load_ode_size Mech)
                      (load_ode_size Mech + motor_ode_size Mot))) /\
    dict after_reset !! "system_observation" = Some (VArray obs) /\
    (length obs = length lim -> Forall (fun x => x <> int 0) lim ->
     exists q, (reset Conv Mot Mech Sup Base self).1 = Ok q /\
               Np.multiply q lim = obs).
Proof.
  intros Hself Hin self H1 H2 H3 H4 H5 H6.
  destruct (later_limits_read cs self0 (proj1 (init_limits _ _ _ _ _ _ _ _ Hself))
              Hin) as (lim & Hlim).
  fold self in Hlim.
  destruct (reset_effect self b1 b2 l' m' c' s' (VArray lim)
              (built_layout _ _ _ _ _ _ _ _ cs Hself) Hlim H1 H2 H3 H4 H5 H6)
    as (y0 & Hy & _ & Hres & Hsol & Hls & Hms & Hobs & _).
  exists y0, lim.
  split; [unfold initial_ode_value; now rewrite (getattr_found _ _ _ Hy) |].
  split; [now rewrite (limits_later_reads self lim Hlim) |].
  split; [exact Hres |].
  split; [exact Hsol | split; [exact Hls | split; [exact Hms |]]].
  split; [exact Hobs |].
  intros Hlen Hnz. cbn zeta in Hres. rewrite Hres. cbn [divide_by].
  destruct (Np.divide _ lim) as [q | e] eqn:Hdiv.
  - exists q. split; [reflexivity |]. eapply divide_multiply; eassumption.
  - unfold Np.divide in Hdiv. rewrite decide_True in Hdiv by exact Hlen.
    discriminate.
Qed.

(** X9: the first [reset] of an engine whose limits have been read
    observes the zero state: it returns the observation the components
    give for an ODE state of zeros, divided by the limits the load, the
    motor, the converter and the supply reported, and the solver starts
    from zeros at time 0. *)
Theorem first_reset_observes_the_zero_state
  converter motor load supply ode_solver tau0 calc self0 b1 b2 l' m' c' s' :
  __init__ Conv Mot Mech Sup Base converter motor load supply ode_solver tau0 calc
  = Ok self0 ->
  let self := (limits Conv Mot Mech Sup self0).2 in
  PhysicalSystem_reset Base (base self0) = (Ok tt, b1) ->
  next_generator Base b1 = (Ok tt, b2) ->
  load_reset Mech (_mechanical_load self0) = (Ok tt, l') ->
  motor_reset Mot (_electric_motor self0) = (Ok tt, m') ->
  conv_reset Conv (_converter self0) = (Ok tt, c') ->
  supply_reset Sup (_supply self0) = (Ok tt, s') ->
  let zeros := Np.zeros (motor_ode_size Mot + load_ode_size Mech) in
  (reset Conv Mot Mech Sup Base self).1
  = Np.divide
      (observation Conv Mot Mech Sup zeros l' m' c' s')
      (Np.concatenate
         [load_limits Mech (_mechanical_load self0);
          motor_limits Mot (_electric_motor self0);
          conv_limits Conv (_converter self0);
          supply_limits Sup (_supply self0)]) /\
  solver_y (_ode_solver (reset Conv Mot Mech Sup Base self).2) = zeros /\
  solver_t (_ode_solver (reset Conv Mot Mech Sup Base self).2) = int 0.
Proof.
  intros Hself self H1 H2 H3 H4 H5 H6 zeros.
  destruct (init_limits _ _ _ _ _ _ _ _ Hself) as (Hnone & _ & Hzero).
  pose proof (limits_first_read self0 Hnone) as Hread. cbn zeta in Hread.
  assert (Hs : self = with_dict
                        (insert "_limits"
                           (VArray (Np.concatenate
                                      [load_limits Mech (_mechanical_load self0);
                                       motor_limits Mot (_electric_motor self0);
                                       conv_limits Conv (_converter self0);
                                       supply_limits Sup (_supply self0)])))
                        self0).
  { unfold self. now rewrite Hread. }
  assert (Hlay : layout Mot Mech self).
  { unfold self.
    eapply layout_frame; [apply limits_writes | sub_in | eapply init_layout, Hself]. }
  assert (Hlim : dict self !! "_limits"
                 = Some (VArray (Np.concatenate
                                   [load_limits Mech (_mechanical_load self0);
                                    motor_limits Mot (_electric_motor self0);
                                    conv_limits Conv (_converter self0);
                                    supply_limits Sup (_supply self0)]))).
  { rewrite Hs. cbn [with_dict dict]. apply lookup_insert_eq. }
  assert (Hy : dict self !! "_initial_ode_value" = Some (VArray zeros)).
  { rewrite Hs. cbn [with_dict dict].
    rewrite lookup_insert_ne by discriminate. exact Hzero. }
  assert (H1' : PhysicalSystem_reset Base (base self) = (Ok tt, b1))
    by (now rewrite Hs).
  assert (H3' : load_reset Mech (_mechanical_load self) = (Ok tt, l'))
    by (now rewrite Hs).
  assert (H4' : motor_reset Mot (_electric_motor self) = (Ok tt, m'))
    by (now rewrite Hs).
  assert (H5' : conv_reset Conv (_converter self) = (Ok tt, c'))
    by (now rewrite Hs).
  assert (H6' : supply_reset Sup (_supply self) = (Ok tt, s'))
    by (now rewrite Hs).
  destruct (reset_effect self b1 b2 l' m' c' s' _ Hlay Hlim H1' H2 H3' H4' H5' H6')
    as (y0 & Hy0 & _ & Hres & Hsol & _).
  rewrite Hy in Hy0. injection Hy0 as <-.
  cbn zeta in Hres, Hsol. rewrite Hres, Hsol.
  repeat split.
Qed.

(** *** Assigning the initial ODE state *)

Lemma slice_set_all (a v : array) :
  Np.slice_set a 0 (length a) v
  = if decide (length v = length a) then Ok v
    else match v with
         | [x] => Ok (replicate (length a) x)
         | _ => Raise (ValueError "could not broadcast input array")
         end.
Proof.
  unfold Np.slice_set.
  replace (0 `min` length a) with 0 by lia.
  replace (0 `max` (length a `min` length a)) with (length a) by lia.
  rewrite Nat.sub_0_r, take_0, drop_all. cbn [app].
  destruct (decide (length v = length a)); [now rewrite app_nil_r |].
  destruct v as [| x [| ? ?]]; try reflexivity. now rewrite app_nil_r.
Qed.

(** X10: assigning [initial_ode_value] writes into the array of
    [motor.ode_size + load.ode_size] entries that [__init__] created: a
    value of that length is what the property returns afterwards, a value
    of one entry is repeated over all entries, and a value of any other
    length is refused with [ValueError] and changes nothing. *)
Theorem initial_ode_value_round_trip
  converter motor load supply ode_solver tau0 calc self0 cs v :
  __init__ Conv Mot Mech Sup Base converter motor load supply ode_solver tau0 calc
  = Ok self0 ->
  let self := later cs self0 in
  let n := motor_ode_size Mot + load_ode_size Mech in
  (length v = n ->
   (set_initial_ode_value v self).1 = Ok tt /\
   (initial_ode_value (set_initial_ode_value v self).2).1 = Ok (VArray v)) /\
  (forall x, v = [x] ->
   (set_initial_ode_value v self).1 = Ok tt /\
   (initial_ode_value (set_initial_ode_value v self).2).1
   = Ok (VArray (replicate n x))) /\
  (length v <> n -> length v <> 1 ->
   set_initial_ode_value v self
   = (Raise (ValueError "could not broadcast input array"), self)).
Proof.
  intros Hself self n.
  destruct (built_layout _ _ _ _ _ _ _ _ cs Hself)
    as (_ & _ & _ & _ & _ & (y0 & Hy & Hlen) & _).
  fold self in Hy. fold n in Hlen.
  assert (Hrun : set_initial_ode_value v self
                 = match Np.slice_set y0 0 (length y0) v with
                   | Ok y1 => (Ok tt, with_dict (insert "_initial_ode_value"
                                                   (VArray y1)) self)
                   | Raise e => (Raise e, self)
                   end).
  { unfold set_initial_ode_value. run.
    destruct (Np.slice_set y0 0 (length y0) v); reflexivity. }
  rewrite Hrun, slice_set_all, Hlen.
  split; [| split].
  - intros Hv. rewrite decide_True by exact Hv. cbn [fst snd].
    split; [reflexivity |]. unfold initial_ode_value.
    erewrite getattr_found; [reflexivity |].
    cbn [with_dict dict]. apply lookup_insert_eq.
  - intros x ->. destruct (decide (length [x] = n)) as [Hv | Hv]; cbn [fst snd].
    + split; [reflexivity |]. unfold initial_ode_value.
      erewrite getattr_found;
        [| cbn [with_dict dict]; apply lookup_insert_eq].
      cbn [fst]. rewrite <- Hv. reflexivity.
    + split; [reflexivity |]. unfold initial_ode_value.
      erewrite getattr_found; [reflexivity |].
      cbn [with_dict dict]. apply lookup_insert_eq.
  - intros Hv H1. rewrite decide_False by exact Hv.
    destruct v as [| x [| ? ?]]; try reflexivity. now contradiction H1.
Qed.

(** *** The right-hand side on any state vector *)

Lemma slice_set_refused a lo hi v :
  lo <= hi -> hi <= length a -> length v <> hi - lo -> length v <> 1 ->
  Np.slice_set a lo hi v = Raise (ValueError "could not broadcast input array").
Proof.
  intros Hlo Hhi Hv H1. unfold Np.slice_set.
  replace (lo `min` length a) with lo by lia.
  replace (lo `max` (hi `min` length a)) with hi by lia.
  rewrite decide_False by exact Hv.
  destruct v as [| x [| ? ?]]; try reflexivity. now contradiction H1.
Qed.

(** X11: [_system_equation] does not check the length of the state
    vector: the load segment and the motor segment are the slices
    [state[0:l]] and [state[l:l+m]], cut short when the vector is; with
    derivatives of the sizes [l] and [m] the call returns the mechanical
    derivative followed by the electrical one, and that array is what
    [_system_derivative] holds afterwards.  What is checked is the size
    of a derivative: one that has neither the size of its segment nor one
    entry is refused with [ValueError]. *)
Theorem system_equation_accepts_any_state
  converter motor load supply ode_solver tau0 calc self0 cs t state :
  __init__ Conv Mot Mech Sup Base converter motor load supply ode_solver tau0 calc
  = Ok self0 ->
  let self := later cs self0 in
  let l := load_ode_size Mech in
  let m := motor_ode_size Mot in
  let load_state := Np.slice_get state 0 l in
  let motor_state := Np.slice_get state l (l + m) in
  let omega := get_omega Mech (_mechanical_load self) load_state in
  let electrical := electrical_ode Mot (_electric_motor self) motor_state omega in
  let mechanical :=
    mechanical_ode Mech (_mechanical_load self) t load_state
      (torque Mot (_electric_motor self) motor_state) in
  (length electrical = m -> length mechanical = l ->
   (_system_equation Mot Mech t state self).1 = Ok (mechanical ++ electrical) /\
   dict (_system_equation Mot Mech t state self).2 !! "_system_derivative"
   = Some (VArray (mechanical ++ electrical))) /\
  (length electrical <> m -> length electrical <> 1 ->
   _system_equation Mot Mech t state self
   = (Raise (ValueError "could not broadcast input array"), self)) /\
  (length electrical = m -> length mechanical <> l -> length mechanical <> 1 ->
   (_system_equation Mot Mech t state self).1
   = Raise (ValueError "could not broadcast input array")).
Proof.
  intros Hself self l m load_state motor_state omega electrical mechanical.
  destruct (built_layout _ _ _ _ _ _ _ _ cs Hself)
    as (Hl & Hm & _ & _ & (d & Hd & Hlen) & _).
  fold self in Hl, Hm, Hd. fold l m in Hl, Hm, Hlen.
  split; [| split].
  - intros Hel Hme.
    assert (Hrun : _system_equation Mot Mech t state self
                   = (Ok (mechanical ++ electrical),
                      with_dict (insert "_system_derivative"
                                   (VArray (mechanical ++ electrical)))
                        (with_dict (insert "_system_derivative"
                                      (VArray (take l d ++ electrical
                                               ++ drop (l + m) d))) self))).
    { unfold _system_equation. run.
      fold l m load_state motor_state omega electrical mechanical.
      rewrite (slice_set_exact d) by lia. run.
      rewrite slice_set_exact; [| lia | |].
      - run.
        assert (Heq : take 0 (take l d ++ electrical ++ drop (l + m) d)
                      ++ mechanical
                      ++ drop l (take l d ++ electrical ++ drop (l + m) d)
                      = mechanical ++ electrical).
        { rewrite take_0, app_nil_l. f_equal.
          rewrite (drop_ge d) by lia. rewrite app_nil_r.
          rewrite drop_app_length'; [reflexivity |].
          rewrite length_take. lia. }
        rewrite Heq. reflexivity.
      - rewrite !length_app, length_take, length_drop. lia.
      - lia. }
    rewrite Hrun. cbn [fst snd with_dict dict].
    split; [reflexivity | apply lookup_insert_eq].
  - intros Hel H1. unfold _system_equation. run.
    fold l m load_state motor_state omega electrical mechanical.
    rewrite slice_set_refused by lia. reflexivity.
  - intros Hel Hme H1. unfold _system_equation. run.
    fold l m load_state motor_state omega electrical mechanical.
    rewrite (slice_set_exact d) by lia. run.
    rewrite slice_set_refused; [reflexivity | lia | | | exact H1].
    + rewrite !length_app, length_take, length_drop. lia.
    + lia.
Qed.

(** *** [simulate] stores no new state *)





End EngineProperties.

(** ** The environment *)

Lemma bind_ok_inv {S A C} (c : M S A) (k : A -> M S C) s b s' :
  bind c k s = (Ok b, s') ->
  exists a s1, c s = (Ok a, s1) /\ k a s1 = (Ok b, s').
Proof.
  unfold bind. destruct (c s) as [[a | e] s1]; [| discriminate].
  intros H. now exists a, s1.
Qed.

Section EnvironmentProperties.
Import Env NpRandom.
Context {action state reference PS RG RF CM CB : Type}.
Context (Phys : PhysicalSystem action state PS)
        (Ref : ReferenceGenerator state reference PS RG)
        (Rew : RewardFunction action state reference PS RF)
        (Mon : ConstraintMonitor state PS CM)
        (Cb : Callback action state reference CB).

Local Abbreviation Self := (ElectricMotorEnvironment PS RG RF CM CB).

Lemma on_physical_system_done {A} (c : M PS A) (s : Self) :
  _done (on_physical_system c s).2 = _done s.
Proof. unfold on_physical_system. now destruct (c _). Qed.

Lemma on_reference_generator_done {A} (c : M RG A) (s : Self) :
  _done (on_reference_generator c s).2 = _done s.
Proof. unfold on_reference_generator. now destruct (c _). Qed.

Lemma on_reward_function_done {A} (c : M RF A) (s : Self) :
  _done (on_reward_function c s).2 = _done s.
Proof. unfold on_reward_function. now destruct (c _). Qed.

Lemma on_constraint_monitor_done {A} (c : M CM A) (s : Self) :
  _done (on_constraint_monitor c s).2 = _done s.
Proof. unfold on_constraint_monitor. now destruct (c _). Qed.

Lemma call_callbacks_done h (s : Self) :
  _done (_call_callbacks h s).2 = _done s.
Proof. unfold _call_callbacks. now destruct (each h _). Qed.

Lemma keeps_done_bind {A C} (c : M Self A) (k : A -> M Self C) :
  keeps_done c -> (forall a, keeps_done (k a)) -> keeps_done (bind c k).
Proof.
  intros Hc Hk s. unfold bind. specialize (Hc s).
  destruct (c s) as [[a | e] s']; simpl in *; [| exact Hc].
  now rewrite Hk.
Qed.

Lemma keeps_done_ret {A} (a : A) : keeps_done (ret a : M Self A).
Proof. now intros s. Qed.

Ltac keeps :=
  repeat
    match goal with
    | |- keeps_done (bind _ _) => apply keeps_done_bind; [| intros ?]
    | |- keeps_done (ret _) => apply keeps_done_ret
    | |- keeps_done (on_physical_system _) =>
        intros ?; apply on_physical_system_done
    | |- keeps_done (on_reference_generator _) =>
        intros ?; apply on_reference_generator_done
    | |- keeps_done (on_reward_function _) =>
        intros ?; apply on_reward_function_done
    | |- keeps_done (on_constraint_monitor _) =>
        intros ?; apply on_constraint_monitor_done
    | |- keeps_done (_call_callbacks _) => intros ?; apply call_callbacks_done
    end.

Lemma close_keeps_done : keeps_done (close Phys Ref Rew Cb (CM := CM)).
Proof. unfold close. keeps. Qed.

Lemma render_keeps_done :
  keeps_done (render_all Cb (PS := PS) (RG := RG) (RF := RF) (CM := CM)).
Proof. intros s. unfold render_all. now destruct (each _ _). Qed.

Lemma seed_keeps_done sd os : keeps_done (seed Phys Ref Rew Mon Cb sd os).
Proof.
  unfold seed. apply keeps_done_bind.
  - now intros s.
  - intros sg. apply keeps_done_bind; [now intros s |]. intros self.
    destruct (spawn _ sg) as [subs sg'].
    destruct subs as [| s0 [| s1 [| s2 [| s3 subs]]]]; keeps.
    intros s. now destruct (seed_each _ _ _).
Qed.

(** *** The [done] flag *)

Lemma init_done ps rg rf vis cbs cm saps self :
  __init__ Ref Rew Mon Cb ps rg rf vis cbs cm saps = Ok self -> _done self = true.
Proof.
  unfold __init__.
  set (blank := Build_ElectricMotorEnvironment _ _ _ _ _ _ _ _ _ _ _ _).
  destruct (bind _ _ blank) as [[[] | e] s] eqn:Hrun; [| discriminate].
  intros H. injection H as <-.
  apply bind_ok_inv in Hrun as ([] & s1 & H1 & Hrun).
  apply bind_ok_inv in Hrun as ([] & s2 & H2 & Hrun).
  apply bind_ok_inv in Hrun as ([] & s3 & H3 & Hrun).
  apply bind_ok_inv in Hrun as ([] & s4 & H4 & Hrun).
  apply bind_ok_inv in Hrun as ([] & s5 & H5 & Hrun).
  pose proof (call_callbacks_done (set_env Cb) s5) as Hd.
  rewrite Hrun in Hd. simpl in Hd. rewrite Hd.
  unfold modify in H4, H5. injection H4 as <-. injection H5 as <-.
  reflexivity.
Qed.

Lemma step_when_done (self : Self) a :
  _done self = true ->
  step Phys Ref Rew Mon Cb a self = (Raise usage_error, self).
Proof. intros Hd. unfold step, bind, get. now rewrite Hd. Qed.

Lemma on_physical_system_inv {A} (c : M PS A) (s s' : Self) a :
  on_physical_system c s = (Ok a, s') ->
  exists x, c (_physical_system s) = (Ok a, x) /\ s' = with_physical_system x s.
Proof.
  unfold on_physical_system. destruct (c _) as [r x]. intros H.
  injection H as -> <-. now exists x.
Qed.

Lemma on_reference_generator_inv {A} (c : M RG A) (s s' : Self) a :
  on_reference_generator c s = (Ok a, s') ->
  exists x, c (_reference_generator s) = (Ok a, x) /\
            s' = with_reference_generator x s.
Proof.
  unfold on_reference_generator. destruct (c _) as [r x]. intros H.
  injection H as -> <-. now exists x.
Qed.

Lemma on_reward_function_inv {A} (c : M RF A) (s s' : Self) a :
  on_reward_function c s = (Ok a, s') ->
  exists x, c (_reward_function s) = (Ok a, x) /\ s' = with_reward_function x s.
Proof.
  unfold on_reward_function. destruct (c _) as [r x]. intros H.
  injection H as -> <-. now exists x.
Qed.

Lemma on_constraint_monitor_inv {A} (c : M CM A) (s s' : Self) a :
  on_constraint_monitor c s = (Ok a, s') ->
  exists x, c (_constraint_monitor s) = (Ok a, x) /\
            s' = with_constraint_monitor x s.
Proof.
  unfold on_constraint_monitor. destruct (c _) as [r x]. intros H.
  injection H as -> <-. now exists x.
Qed.

Lemma call_callbacks_inv h (s s' : Self) :
  _call_callbacks h s = (Ok tt, s') ->
  exists cbs, s' = with_callbacks cbs s.
Proof.
  unfold _call_callbacks. destruct (each h _) as [r cbs]. intros H.
  injection H as -> <-. now exists cbs.
Qed.

Lemma step_inversion (self self' : Self) a obs r d info :
  step Phys Ref Rew Mon Cb a self = (Ok (obs, r, d, info), self') ->
  exists st ps' rf rg' violation_degree cm',
    simulate Phys a (_physical_system self) = (Ok st, ps') /\
    get_reference Ref st (_reference_generator self) = (Ok rf, rg') /\
    check_constraints Mon st (_constraint_monitor self)
    = (Ok violation_degree, cm') /\
    obs.1 = st /\
    (d = true <-> (int 1 <= violation_degree)%Qc) /\
    _done self' = d /\
    (d = true ->
     forall a', step Phys Ref Rew Mon Cb a' self' = (Raise usage_error, self')).
Proof.
  intros Hstep. unfold step in Hstep.
  apply bind_ok_inv in Hstep as (s0 & s0' & H0 & Hstep).
  unfold get in H0. injection H0 as <- <-.
  apply bind_ok_inv in Hstep as ([] & s1 & H1 & Hstep).
  destruct (_done self) eqn:Hdone; [discriminate |].
  unfold ret in H1. injection H1 as <-.
  apply bind_ok_inv in Hstep as (s2 & s2' & H2 & Hstep).
  unfold get in H2. injection H2 as <- <-.
  apply bind_ok_inv in Hstep as ([] & s3 & H3 & Hstep).
  apply call_callbacks_inv in H3 as (cbs & ->).
  apply bind_ok_inv in Hstep as (st & s4 & H4 & Hstep).
  apply on_physical_system_inv in H4 as (ps' & Hsim & ->).
  apply bind_ok_inv in Hstep as (rf & s5 & H5 & Hstep).
  apply on_reference_generator_inv in H5 as (rg' & Href & ->).
  apply bind_ok_inv in Hstep as (vd & s6 & H6 & Hstep).
  apply on_constraint_monitor_inv in H6 as (cm' & Hcheck & ->).
  apply bind_ok_inv in Hstep as (s7 & s7' & H7 & Hstep).
  unfold get in H7. injection H7 as <- <-.
  apply bind_ok_inv in Hstep as (rw & s8 & H8 & Hstep).
  apply on_reward_function_inv in H8 as (rf' & Hrew & ->).
  apply bind_ok_inv in Hstep as ([] & s9 & H9 & Hstep).
  unfold modify in H9. injection H9 as <-.
  apply bind_ok_inv in Hstep as (ref_next & s10 & H10 & Hstep).
  apply on_reference_generator_inv in H10 as (rg'' & Hnext & ->).
  apply bind_ok_inv in Hstep as (s11 & s11' & H11 & Hstep).
  unfold get in H11. injection H11 as <- <-.
  apply bind_ok_inv in Hstep as ([] & s12 & H12 & Hstep).
  apply call_callbacks_inv in H12 as (cbs' & ->).
  apply bind_ok_inv in Hstep as (s13 & s13' & H13 & Hstep).
  unfold get in H13. injection H13 as <- <-.
  unfold ret in Hstep. injection Hstep as <- <- <- <- <-.
  simpl in *.
  exists st, ps', rf, rg', vd, cm'.
  repeat split; try assumption.
  - apply ge_true.
  - apply ge_true.
  - intros Hd a'. now apply step_when_done.
Qed.



Lemma reset_clears_done (self : Self) cbs :
  each (on_reset_begin Cb) (_callbacks self) = (Ok tt, cbs) ->
  _done (reset Phys Ref Rew Cb (CM := CM) self).2 = false.
Proof.
  intros Hcb. unfold reset.
  assert (H1 : _call_callbacks (on_reset_begin Cb) self
               = (Ok tt, with_callbacks cbs self)).
  { unfold _call_callbacks. now rewrite Hcb. }
  rewrite (bind_ok _ _ _ _ _ H1).
  unfold bind at 1, modify at 1.
  match goal with
  | |- _done (?c ?s).2 = false =>
      assert (Hk : keeps_done c); [| now rewrite Hk]
  end.
  keeps.
Qed.

Lemma reset_keeps_done_on_callback_error (self : Self) e cbs :
  each (on_reset_begin Cb) (_callbacks self) = (Raise e, cbs) ->
  _done (reset Phys Ref Rew Cb (CM := CM) self).2 = _done self.
Proof.
  intros Hcb. unfold reset.
  assert (H1 : _call_callbacks (on_reset_begin Cb) self
               = (Raise e, with_callbacks cbs self)).
  { unfold _call_callbacks. now rewrite Hcb. }
  now rewrite (bind_raise _ _ _ _ _ H1).
Qed.

Lemma only_reset_clears_done (c : call) (self : Self) :
  _done self = true ->
  _done (perform Phys Ref Rew Mon Cb c self).2 = false ->
  c = CallReset.
Proof.
  intros Hd Hclear. destruct c as [| a | rg | rf | | sd os |];
    [reflexivity | exfalso ..]; simpl in Hclear.
  - rewrite (step_when_done self a Hd) in Hclear. simpl in Hclear. congruence.
  - discriminate.
  - discriminate.
  - pose proof (render_keeps_done self) as Hk.
    destruct (render_all Cb self); simpl in *; congruence.
  - pose proof (seed_keeps_done sd os self) as Hk.
    destruct (seed Phys Ref Rew Mon Cb sd os self); simpl in *; congruence.
  - pose proof (close_keeps_done self) as Hk.
    destruct (close Phys Ref Rew Cb self); simpl in *; congruence.
Qed.

(** C5, amended: the flag is true after construction; [step] on an
    environment whose flag is true, so before any [reset] and after a
    [step] that returned [done = true], raises the usage error and leaves
    the environment and all its collaborators as they were; of the calls on
    an environment only [reset] clears the flag, and it clears it as soon
    as the [on_reset_begin] callbacks have returned, before the physical
    system, the reference generator and the reward function are reset. *)
Theorem step_requires_reset :
  (forall ps rg rf vis cbs cm saps self,
      __init__ Ref Rew Mon Cb ps rg rf vis cbs cm saps = Ok self ->
      _done self = true) /\
  (forall (self : Self) a,
      _done self = true ->
      step Phys Ref Rew Mon Cb a self = (Raise usage_error, self)) /\
  (forall (self self' : Self) a obs r info,
      step Phys Ref Rew Mon Cb a self = (Ok (obs, r, true, info), self') ->
      forall a', step Phys Ref Rew Mon Cb a' self' = (Raise usage_error, self')) /\
  (forall (c : call) (self : Self),
      _done self = true ->
      _done (perform Phys Ref Rew Mon Cb c self).2 = false ->
      c = CallReset) /\
  (forall (self : Self) cbs,
      each (on_reset_begin Cb) (_callbacks self) = (Ok tt, cbs) ->
      _done (reset Phys Ref Rew Cb (CM := CM) self).2 = false).
Proof.
  split; [| split; [| split; [| split]]].
  - apply init_done.
  - apply step_when_done.
  - intros self self' a obs r info Hstep a'.
    destruct (step_inversion _ _ _ _ _ _ _ Hstep)
      as (? & ? & ? & ? & ? & ? & _ & _ & _ & _ & _ & _ & Hnext).
    now apply Hnext.
  - apply only_reset_clears_done.
  - apply reset_clears_done.
Qed.

(** *** Seeding *)

Lemma seed_is_hand_out seed_arg os n (self : Self) :
  new seed_arg os = Ok {| entropy := n; spawn_key := [];
                          n_children_spawned := 0 |} ->
  seed Phys Ref Rew Mon Cb seed_arg os self = hand_out Phys Ref Rew Mon Cb n self.
Proof.
  intros Hnew. unfold seed, hand_out. unfold bind at 1, lift at 1.
  rewrite Hnew. unfold bind at 1, get at 1.
  unfold spawn. cbn [n_children_spawned Nat.add seq map entropy spawn_key].
  unfold child at 1 2 3 4. cbn [entropy spawn_key app].
  fold (root_child n 0) (root_child n 1) (root_child n 2) (root_child n 3).
  replace (map (child {| entropy := n; spawn_key := []; n_children_spawned := 0 |})
             (seq 4 (length (_callbacks self))))
    with (map (root_child n) (seq 4 (length (_callbacks self))))
    by (apply map_ext; reflexivity).
  unfold bind, on_physical_system, on_reference_generator, on_reward_function,
    on_constraint_monitor.
  destruct (seed_if_random (ps_seed Phys) _ _) as [[[] | e] ps']; [| reflexivity].
  cbn [_reference_generator with_physical_system].
  destruct (seed_if_random (rg_seed Ref) _ _) as [[[] | e] rg']; [| reflexivity].
  cbn [_reward_function with_reference_generator].
  destruct (seed_if_random (rf_seed Rew) _ _) as [[[] | e] rf']; [| reflexivity].
  cbn [_constraint_monitor with_reward_function].
  destruct (seed_if_random (cm_seed Mon) _ _) as [[[] | e] cm']; [| reflexivity].
  cbn [_callbacks with_constraint_monitor].
  destruct (seed_each Cb _ _) as [[[] | e] cbs]; reflexivity.
Qed.

Lemma new_integer n os :
  (0 <= n)%Z ->
  new (Some n) os = Ok {| entropy := n; spawn_key := []; n_children_spawned := 0 |}.
Proof. intros Hn. unfold new. now rewrite (proj2 (Z.ltb_ge n 0) Hn). Qed.

Lemma hand_out_returns n (self self' : Self) ids :
  hand_out Phys Ref Rew Mon Cb n self = (Ok ids, self') -> ids = [n].
Proof.
  unfold hand_out. intros H.
  apply bind_ok_inv in H as (? & ? & _ & H).
  apply bind_ok_inv in H as (? & ? & _ & H).
  apply bind_ok_inv in H as (? & ? & _ & H).
  apply bind_ok_inv in H as (? & ? & _ & H).
  apply bind_ok_inv in H as (? & ? & _ & H).
  unfold ret in H. now injection H as <- _.
Qed.

Lemma seed_returns_root sd os (self self' : Self) ids :
  seed Phys Ref Rew Mon Cb sd os self = (Ok ids, self') ->
  ids = [match sd with Some n => n | None => Z.of_N os end].
Proof.
  intros Hseed. destruct sd as [n |].
  - destruct (Z.ltb_spec n 0) as [Hneg | Hpos].
    + unfold seed, bind, lift, new in Hseed.
      rewrite (proj2 (Z.ltb_lt n 0) Hneg) in Hseed. discriminate.
    + rewrite (seed_is_hand_out _ _ n _ (new_integer n os Hpos)) in Hseed.
      eapply hand_out_returns, Hseed.
  - rewrite (seed_is_hand_out None os (Z.of_N os) _ eq_refl) in Hseed.
    eapply hand_out_returns, Hseed.
Qed.

Lemma seed_if_random_run {X} (f : seeder X) sub (x x' : X) :
  seed_if_random f sub x = (Ok tt, x') ->
  (forall g, f = Some g -> g sub x = (Ok tt, x')) /\ (f = None -> x' = x).
Proof.
  destruct f as [g |]; simpl; intros H; split.
  - intros g' Hg. injection Hg as <-. exact H.
  - discriminate.
  - discriminate.
  - intros _. unfold ret in H. now injection H.
Qed.

Lemma seed_if_random_returns {X} (f : seeder X) sub (x : X) :
  (forall g s y, f = Some g -> (g s y).1 = Ok tt) ->
  exists x', seed_if_random f sub x = (Ok tt, x').
Proof.
  intros H. destruct f as [g |]; simpl.
  - specialize (H g sub x eq_refl). destruct (g sub x) as [r x'].
    simpl in H. subst r. now exists x'.
  - now exists x.
Qed.

Lemma seed_each_run subs cbs cbs' :
  seed_each Cb subs cbs = (Ok tt, cbs') ->
  length cbs' = length cbs /\
  forall i c sub,
    cbs !! i = Some c -> subs !! i = Some sub ->
    exists c', cbs' !! i = Some c' /\
               seed_if_random (cb_seed Cb) sub c = (Ok tt, c').
Proof.
  revert cbs cbs'.
  induction subs as [| sub subs IH]; intros [| c rest] cbs' H; simpl in H;
    try (injection H as <-; split; [reflexivity | intros i c0 sub0 H1 H2];
         first [now rewrite lookup_nil in H1 | now rewrite lookup_nil in H2]).
  destruct (seed_if_random (cb_seed Cb) sub c) as [[[] | e] c'] eqn:Hc;
    [| discriminate].
  destruct (seed_each Cb subs rest) as [r rest'] eqn:Hrest.
  injection H as -> <-.
  destruct (IH rest rest' Hrest) as (Hlen & Hall).
  split; [simpl; now rewrite Hlen |].
  intros [| i] c0 sub0 H1 H2; simpl in *.
  - injection H1 as <-. injection H2 as <-. now exists c'.
  - now apply Hall.
Qed.

Lemma seed_each_not_random subs cbs :
  cb_seed Cb = None -> seed_each Cb subs cbs = (Ok tt, cbs).
Proof.
  intros Hnone. revert subs.
  induction cbs as [| c rest IH]; intros [| sub subs]; try reflexivity.
  simpl. rewrite Hnone. simpl. now rewrite IH.
Qed.

Lemma seed_each_returns subs cbs :
  (forall g s y, cb_seed Cb = Some g -> (g s y).1 = Ok tt) ->
  exists cbs', seed_each Cb subs cbs = (Ok tt, cbs').
Proof.
  intros H. revert subs.
  induction cbs as [| c rest IH]; intros [| sub subs];
    try (eexists; reflexivity).
  simpl. destruct (seed_if_random_returns (cb_seed Cb) sub c H) as (c' & ->).
  destruct (IH subs) as (rest' & ->). now eexists.
Qed.

Lemma hand_out_run n (self self' : Self) ids :
  hand_out Phys Ref Rew Mon Cb n self = (Ok ids, self') ->
  exists ps rg rf cm cbs,
    ids = [n] /\
    seed_if_random (ps_seed Phys) (root_child n 0) (_physical_system self)
    = (Ok tt, ps) /\
    seed_if_random (rg_seed Ref) (root_child n 1) (_reference_generator self)
    = (Ok tt, rg) /\
    seed_if_random (rf_seed Rew) (root_child n 2) (_reward_function self)
    = (Ok tt, rf) /\
    seed_if_random (cm_seed Mon) (root_child n 3) (_constraint_monitor self)
    = (Ok tt, cm) /\
    seed_each Cb (map (root_child n) (seq 4 (length (_callbacks self))))
      (_callbacks self) = (Ok tt, cbs) /\
    self' = {| _physical_system := ps; _reference_generator := rg;
               _reward_function := rf; _constraint_monitor := cm;
               _callbacks := cbs;
               n_visualizations := n_visualizations self;
               _done := _done self |}.
Proof.
  unfold hand_out. intros H.
  apply bind_ok_inv in H as ([] & s1 & H1 & H).
  apply on_physical_system_inv in H1 as (ps & H1 & ->).
  apply bind_ok_inv in H as ([] & s2 & H2 & H).
  apply on_reference_generator_inv in H2 as (rg & H2 & ->).
  apply bind_ok_inv in H as ([] & s3 & H3 & H).
  apply on_reward_function_inv in H3 as (rf & H3 & ->).
  apply bind_ok_inv in H as ([] & s4 & H4 & H).
  apply on_constraint_monitor_inv in H4 as (cm & H4 & ->).
  apply bind_ok_inv in H as ([] & s5 & H5 & H).
  cbn [_callbacks with_constraint_monitor with_reward_function
       with_reference_generator with_physical_system] in H5.
  destruct (seed_each Cb _ (_callbacks self)) as [r cbs] eqn:Hcbs.
  injection H5 as -> <-.
  unfold ret in H. injection H as <- <-.
  exists ps, rg, rf, cm, cbs. repeat split; assumption.
Qed.

Lemma seed_refuses_negative n os (self : Self) :
  (n < 0)%Z ->
  seed Phys Ref Rew Mon Cb (Some n) os self
  = (Raise (ValueError "expected non-negative integer"), self).
Proof.
  intros Hn. unfold seed, bind, lift, new.
  now rewrite (proj2 (Z.ltb_lt n 0) Hn).
Qed.

Lemma seed_root sd os (self self' : Self) ids :
  seed Phys Ref Rew Mon Cb sd os self = (Ok ids, self') ->
  seed Phys Ref Rew Mon Cb sd os self
  = hand_out Phys Ref Rew Mon Cb
      (match sd with Some n => n | None => Z.of_N os end) self.
Proof.
  intros Hseed. destruct sd as [n |].
  - destruct (Z.ltb_spec n 0) as [Hneg | Hpos].
    + rewrite (seed_refuses_negative n os self Hneg) in Hseed. discriminate.
    + apply seed_is_hand_out, new_integer, Hpos.
  - now apply seed_is_hand_out.
Qed.

Section EngineSeeding.
Import SCML.
Context {conv_action ECS EMS ELS ESS EB : Type}.
Context (Conv : PowerElectronicConverter conv_action ECS)
        (Mot : ElectricMotor EMS) (Mech : MechanicalLoad ELS)
        (Sup : VoltageSupply ESS) (Base : Bases EB)
        (solver_seed : seeder OdeSolver).

Lemma engine_seed_kept sub (self : SCMLSystem ECS EMS ELS ESS EB) b' :
  RandomComponent_seed Base (Some sub) (base self) = (Ok tt, b') ->
  seed_sequence Base b' = Ok sub ->
  SCML.seed Conv Mot Mech Sup Base solver_seed (Some sub) self
  = SCML.hand_out Conv Mot Mech Sup Base solver_seed sub self.
Proof.
  intros Hrc Hss.
  unfold SCML.seed, SCML.hand_out.
  assert (H1 : on_base (RandomComponent_seed Base (Some sub)) self
               = (Ok tt, with_base b' self)).
  { unfold on_base. now rewrite Hrc. }
  rewrite !(bind_ok _ _ _ _ _ H1).
  unfold bind at 1, get at 1. unfold bind at 1, lift at 1.
  cbn [base with_base]. rewrite Hss.
  unfold spawn. cbn [seq map snd].
  rewrite ?Nat.add_succ_r, ?Nat.add_0_r.
  reflexivity.
Qed.

Lemma engine_seed_is_hand_out sub (self : SCMLSystem ECS EMS ELS ESS EB) :
  keeps_seed Base ->
  SCML.seed Conv Mot Mech Sup Base solver_seed (Some sub) self
  = SCML.hand_out Conv Mot Mech Sup Base solver_seed sub self.
Proof.
  intros Hkeep. destruct (Hkeep sub (base self)) as (b' & Hrc & Hss).
  now apply (engine_seed_kept sub self b').
Qed.

Lemma engine_hand_out_run sub (self self' : SCMLSystem ECS EMS ELS ESS EB) b' :
  RandomComponent_seed Base (Some sub) (base self) = (Ok tt, b') ->
  SCML.hand_out Conv Mot Mech Sup Base solver_seed sub self = (Ok tt, self') ->
  let k := n_children_spawned sub in
  exists s c m l o,
    seed_if_random (supply_seed Sup) (child sub k) (_supply self) = (Ok tt, s) /\
    seed_if_random (conv_seed Conv) (child sub (k + 1)) (_converter self)
    = (Ok tt, c) /\
    seed_if_random (motor_seed Mot) (child sub (k + 2)) (_electric_motor self)
    = (Ok tt, m) /\
    seed_if_random (load_seed Mech) (child sub (k + 3)) (_mechanical_load self)
    = (Ok tt, l) /\
    seed_if_random solver_seed (child sub (k + 4)) (_ode_solver self)
    = (Ok tt, o) /\
    self' = {| dict := dict self; _converter := c; _electric_motor := m;
               _mechanical_load := l; _supply := s; _ode_solver := o;
               base := with_seed_sequence Base (spawn 5 sub).2 b';
               warned := warned self |}.
Proof.
  intros Hrc H k. subst k. unfold SCML.hand_out in H.
  assert (H1 : on_base (RandomComponent_seed Base (Some sub)) self
               = (Ok tt, with_base b' self)).
  { unfold on_base. now rewrite Hrc. }
  rewrite (bind_ok _ _ _ _ _ H1) in H.
  unfold bind at 1, modify at 1 in H.
  cbn [base with_base dict _converter _electric_motor _mechanical_load _supply
       _ode_solver warned] in H.
  unfold bind, on_supply, on_converter, on_motor, on_load in H.
  cbn [base with_base dict _converter _electric_motor _mechanical_load _supply
       _ode_solver warned] in H.
  destruct (seed_if_random (supply_seed Sup) _ _) as [[[] | e] s] eqn:Hs;
    [| discriminate].
  cbn [with_supply base with_base dict _converter _electric_motor
       _mechanical_load _supply _ode_solver warned] in H.
  destruct (seed_if_random (conv_seed Conv) _ _) as [[[] | e] c] eqn:Hc;
    [| discriminate].
  cbn [with_supply with_converter base with_base dict _converter _electric_motor
       _mechanical_load _supply _ode_solver warned] in H.
  destruct (seed_if_random (motor_seed Mot) _ _) as [[[] | e] m] eqn:Hm;
    [| discriminate].
  cbn [with_supply with_converter with_motor base with_base dict _converter
       _electric_motor _mechanical_load _supply _ode_solver warned] in H.
  destruct (seed_if_random (load_seed Mech) _ _) as [[[] | e] l] eqn:Hl;
    [| discriminate].
  cbn [with_supply with_converter with_motor with_load base with_base dict
       _converter _electric_motor _mechanical_load _supply _ode_solver warned]
    in H.
  destruct (seed_if_random solver_seed _ _) as [[[] | e] o] eqn:Ho;
    [| discriminate].
  injection H as <-.
  exists s, c, m, l, o. repeat split; assumption.
Qed.

(** C8: [seed] builds the root sequence from the integer alone (from
    the entropy of the operating system when there is none) and returns
    the root entropy in a list.  The physical system, the reference
    generator, the reward function, the constraint monitor and the [i]-th
    callback have their own [seed] called with the children 0, 1, 2, 3 and
    [4 + i] of the root, and a component that is not a [RandomComponent] is
    left as it is; so what every component receives is a function of the
    integer, whatever the entropy of the operating system and whatever was
    seeded before, and a run seeded by the operating system is repeated by
    seeding with the value returned.  The call returns when the integer is
    not negative and the components' [seed] methods return.  An engine
    seeded with a sequence hands its next five children to supply,
    converter, motor, load and solver, in this order, and keeps the
    sequence with these five spawned. *)
Theorem seeding_is_reproducible :
  (forall sd os (self : Self),
      let root := match sd with Some n => n | None => Z.of_N os end in
      (forall ids self',
          Env.seed Phys Ref Rew Mon Cb sd os self = (Ok ids, self') ->
          ids = [root] /\
          (forall f, ps_seed Phys = Some f ->
                     f (root_child root 0) (_physical_system self)
                     = (Ok tt, _physical_system self')) /\
          (forall f, rg_seed Ref = Some f ->
                     f (root_child root 1) (_reference_generator self)
                     = (Ok tt, _reference_generator self')) /\
          (forall f, rf_seed Rew = Some f ->
                     f (root_child root 2) (_reward_function self)
                     = (Ok tt, _reward_function self')) /\
          (forall f, cm_seed Mon = Some f ->
                     f (root_child root 3) (_constraint_monitor self)
                     = (Ok tt, _constraint_monitor self')) /\
          length (_callbacks self') = length (_callbacks self) /\
          (forall f i c,
              cb_seed Cb = Some f -> _callbacks self !! i = Some c ->
              exists c', _callbacks self' !! i = Some c' /\
                         f (root_child root (4 + i)) c = (Ok tt, c')) /\
          (ps_seed Phys = None -> _physical_system self' = _physical_system self) /\
          (rg_seed Ref = None ->
           _reference_generator self' = _reference_generator self) /\
          (rf_seed Rew = None -> _reward_function self' = _reward_function self) /\
          (cm_seed Mon = None ->
           _constraint_monitor self' = _constraint_monitor self) /\
          (cb_seed Cb = None -> _callbacks self' = _callbacks self) /\
          _done self' = _done self) /\
      ((forall n, sd = Some n -> (0 <= n)%Z) ->
       (forall g s x, ps_seed Phys = Some g -> (g s x).1 = Ok tt) ->
       (forall g s x, rg_seed Ref = Some g -> (g s x).1 = Ok tt) ->
       (forall g s x, rf_seed Rew = Some g -> (g s x).1 = Ok tt) ->
       (forall g s x, cm_seed Mon = Some g -> (g s x).1 = Ok tt) ->
       (forall g s x, cb_seed Cb = Some g -> (g s x).1 = Ok tt) ->
       exists self', Env.seed Phys Ref Rew Mon Cb sd os self = (Ok [root], self')) /\
      (forall n, sd = Some n -> (n < 0)%Z ->
                 Env.seed Phys Ref Rew Mon Cb sd os self
                 = (Raise (ValueError "expected non-negative integer"), self))) /\
  (forall os os' (self : Self),
      Env.seed Phys Ref Rew Mon Cb None os self
      = Env.seed Phys Ref Rew Mon Cb (Some (Z.of_N os)) os' self) /\
  (forall sub (engine engine' : SCMLSystem ECS EMS ELS ESS EB) b',
      RandomComponent_seed Base (Some sub) (base engine) = (Ok tt, b') ->
      seed_sequence Base b' = Ok sub ->
      SCML.seed Conv Mot Mech Sup Base solver_seed (Some sub) engine
      = (Ok tt, engine') ->
      let k := n_children_spawned sub in
      let sub_child := fun j => {| entropy := entropy sub;
                                   spawn_key := spawn_key sub ++ [k + j];
                                   n_children_spawned := 0 |} in
      (forall f, supply_seed Sup = Some f ->
                 f (sub_child 0) (_supply engine) = (Ok tt, _supply engine')) /\
      (forall f, conv_seed Conv = Some f ->
                 f (sub_child 1) (_converter engine)
                 = (Ok tt, _converter engine')) /\
      (forall f, motor_seed Mot = Some f ->
                 f (sub_child 2) (_electric_motor engine)
                 = (Ok tt, _electric_motor engine')) /\
      (forall f, load_seed Mech = Some f ->
                 f (sub_child 3) (_mechanical_load engine)
                 = (Ok tt, _mechanical_load engine')) /\
      (forall f, solver_seed = Some f ->
                 f (sub_child 4) (_ode_solver engine)
                 = (Ok tt, _ode_solver engine')) /\
      base engine'
      = with_seed_sequence Base
          {| entropy := entropy sub; spawn_key := spawn_key sub;
             n_children_spawned := k + 5 |} b' /\
      dict engine' = dict engine).
Proof.
  split; [| split].
  - intros sd os self root. split; [| split].
    + intros ids self' Hseed.
      rewrite (seed_root _ _ _ _ _ Hseed) in Hseed. fold root in Hseed.
      apply hand_out_run in Hseed
          as (ps & rg & rf & cm & cbs & -> & Hps & Hrg & Hrf & Hcm & Hcbs & ->).
      cbn [_physical_system _reference_generator _reward_function
           _constraint_monitor _callbacks _done].
      apply seed_if_random_run in Hps as [Hps Hps'].
      apply seed_if_random_run in Hrg as [Hrg Hrg'].
      apply seed_if_random_run in Hrf as [Hrf Hrf'].
      apply seed_if_random_run in Hcm as [Hcm Hcm'].
      pose proof (seed_each_run _ _ _ Hcbs) as [Hlen Hall].
      repeat split; try assumption.
      * intros f i c Hf Hc.
        assert (Hi : i < length (_callbacks self))
          by (apply lookup_lt_is_Some; now exists c).
        destruct (Hall i c (root_child root (4 + i)) Hc) as (c' & Hc' & Hrun).
        { rewrite list_lookup_fmap, lookup_seq_lt by exact Hi. reflexivity. }
        exists c'. split; [exact Hc' |].
        apply seed_if_random_run in Hrun as [Hrun _]. now apply Hrun.
      * intros Hnone. rewrite (seed_each_not_random _ _ Hnone) in Hcbs.
        now injection Hcbs.
    + intros Hsd Hps Hrg Hrf Hcm Hcb.
      assert (Hnew : new sd os = Ok {| entropy := root; spawn_key := [];
                                      n_children_spawned := 0 |}).
      { destruct sd as [n |]; [| reflexivity].
        apply new_integer. now apply Hsd. }
      rewrite (seed_is_hand_out _ _ _ _ Hnew). unfold Env.hand_out.
      destruct (seed_if_random_returns (ps_seed Phys) (root_child root 0)
                  (_physical_system self) Hps) as (ps & Eps).
      destruct (seed_if_random_returns (rg_seed Ref) (root_child root 1)
                  (_reference_generator self) Hrg) as (rg & Erg).
      destruct (seed_if_random_returns (rf_seed Rew) (root_child root 2)
                  (_reward_function self) Hrf) as (rf & Erf).
      destruct (seed_if_random_returns (cm_seed Mon) (root_child root 3)
                  (_constraint_monitor self) Hcm) as (cm & Ecm).
      destruct (seed_each_returns
                  (map (root_child root) (seq 4 (length (_callbacks self))))
                  (_callbacks self) Hcb) as (cbs & Ecbs).
      unfold bind, on_physical_system, on_reference_generator,
        on_reward_function, on_constraint_monitor.
      rewrite Eps.
      cbn [_reference_generator with_physical_system]. rewrite Erg.
      cbn [_reward_function with_reference_generator with_physical_system].
      rewrite Erf.
      cbn [_constraint_monitor with_reward_function with_reference_generator
           with_physical_system].
      rewrite Ecm.
      cbn [_callbacks with_constraint_monitor with_reward_function
           with_reference_generator with_physical_system].
      rewrite Ecbs. now eexists.
    + intros n -> Hn. now apply seed_refuses_negative.
  - intros os os' self.
    rewrite (seed_is_hand_out None os (Z.of_N os) _ eq_refl).
    symmetry. apply seed_is_hand_out, new_integer. lia.
  - intros sub engine engine' b' Hrc Hss Hseed k sub_child.
    rewrite (engine_seed_kept sub engine b' Hrc Hss) in Hseed.
    destruct (engine_hand_out_run sub engine engine' b' Hrc Hseed)
      as (s & c & m & l & o & Hs & Hc & Hm & Hl & Ho & ->).
    fold k in Hs, Hc, Hm, Hl, Ho.
    cbn [_supply _converter _electric_motor _mechanical_load _ode_solver base
         dict].
    apply seed_if_random_run in Hs as [Hs _].
    apply seed_if_random_run in Hc as [Hc _].
    apply seed_if_random_run in Hm as [Hm _].
    apply seed_if_random_run in Hl as [Hl _].
    apply seed_if_random_run in Ho as [Ho _].
    unfold sub_child, child in *. rewrite Nat.add_0_r.
    repeat split; try reflexivity.
    + intros f Hf. now apply Hs.
    + intros f Hf. now apply Hc.
    + intros f Hf. now apply Hm.
    + intros f Hf. now apply Hl.
    + intros f Hf. now apply Ho.
Qed.

End EngineSeeding.

(** *** The callbacks *)

Lemma each_length (h : M CB unit) cbs : length (each h cbs).2 = length cbs.
Proof.
  induction cbs as [| c rest IH]; [reflexivity |]. simpl.
  destruct (h c) as [[[] | e] c']; [| reflexivity].
  destruct (each h rest) as [r rest']. simpl in *. now rewrite IH.
Qed.

Lemma each_all_ok (h : M CB unit) cbs :
  Forall (fun c => (h c).1 = Ok tt) cbs ->
  each h cbs = (Ok tt, map (fun c => (h c).2) cbs).
Proof.
  induction 1 as [| c rest Hc _ IH]; [reflexivity |]. simpl.
  destruct (h c) as [[[] | e] c']; [| discriminate Hc].
  now rewrite IH.
Qed.

Lemma each_first_failure (h : M CB unit) pre c post e :
  Forall (fun c => (h c).1 = Ok tt) pre ->
  (h c).1 = Raise e ->
  each h (pre ++ c :: post)
  = (Raise e, map (fun c => (h c).2) pre ++ (h c).2 :: post).
Proof.
  intros Hpre Hc. induction Hpre as [| x pre Hx _ IH]; simpl.
  - destruct (h c) as [[[] | e'] c']; [discriminate Hc |].
    simpl in Hc. now injection Hc as ->.
  - destruct (h x) as [[[] | e'] x']; [| discriminate Hx].
    now rewrite IH.
Qed.

(** X13: [_call_callbacks] calls the handler on the callbacks in the
    order of [self._callbacks]; when every handler returns, every
    callback has been called once; when one raises, the callbacks before
    it have been called, the ones after it have not, and the exception
    leaves [_call_callbacks].  Nothing else of the environment changes. *)
Theorem callbacks_run_in_order_until_one_raises (h : M CB unit) (self : Self) :
  (Forall (fun c => (h c).1 = Ok tt) (_callbacks self) ->
   _call_callbacks h self
   = (Ok tt, with_callbacks (map (fun c => (h c).2) (_callbacks self)) self)) /\
  (forall pre c post e,
      _callbacks self = pre ++ c :: post ->
      Forall (fun c => (h c).1 = Ok tt) pre ->
      (h c).1 = Raise e ->
      _call_callbacks h self
      = (Raise e,
         with_callbacks (map (fun c => (h c).2) pre ++ (h c).2 :: post) self)).
Proof.
  split.
  - intros Hall. unfold _call_callbacks. now rewrite (each_all_ok h _ Hall).
  - intros pre c post e Hcbs Hpre Hc. unfold _call_callbacks.
    now rewrite Hcbs, (each_first_failure h pre c post e Hpre Hc).
Qed.

Lemma call_callbacks_ok h (s s' : Self) :
  _call_callbacks h s = (Ok tt, s') ->
  exists cbs, each h (_callbacks s) = (Ok tt, cbs) /\ s' = with_callbacks cbs s.
Proof.
  unfold _call_callbacks. destruct (each h _) as [r cbs]. intros H.
  injection H as -> <-. now exists cbs.
Qed.

Lemma keeps_callbacks_bind {A C} (c : M Self A) (k : A -> M Self C) :
  keeps_callbacks c -> (forall a, keeps_callbacks (k a)) ->
  keeps_callbacks (bind c k).
Proof.
  intros Hc Hk s. unfold bind. specialize (Hc s).
  destruct (c s) as [[a | e] s']; simpl in *; [| exact Hc].
  destruct (Hk a s') as [H1 H2]. destruct Hc as [H3 H4]. split; congruence.
Qed.

Lemma keeps_callbacks_same {A} (c : M Self A) :
  (forall s, _callbacks (c s).2 = _callbacks s /\
             n_visualizations (c s).2 = n_visualizations s) ->
  keeps_callbacks c.
Proof. intros H s. destruct (H s) as [-> ->]. now split. Qed.

Lemma keeps_callbacks_call (h : M CB unit) :
  keeps_callbacks (_call_callbacks h : M Self unit).
Proof.
  intros s. unfold _call_callbacks.
  pose proof (each_length h (_callbacks s)) as Hlen.
  destruct (each h _) as [r cbs]. simpl in *. now split.
Qed.

Lemma keeps_callbacks_on_physical_system {A} (c : M PS A) :
  keeps_callbacks (on_physical_system c : M Self A).
Proof. intros s. unfold on_physical_system. now destruct (c _). Qed.

Lemma keeps_callbacks_on_reference_generator {A} (c : M RG A) :
  keeps_callbacks (on_reference_generator c : M Self A).
Proof. intros s. unfold on_reference_generator. now destruct (c _). Qed.

Lemma keeps_callbacks_on_reward_function {A} (c : M RF A) :
  keeps_callbacks (on_reward_function c : M Self A).
Proof. intros s. unfold on_reward_function. now destruct (c _). Qed.

Lemma keeps_callbacks_on_constraint_monitor {A} (c : M CM A) :
  keeps_callbacks (on_constraint_monitor c : M Self A).
Proof. intros s. unfold on_constraint_monitor. now destruct (c _). Qed.

Ltac shape :=
  repeat
    match goal with
    | |- keeps_callbacks (bind _ _) => apply keeps_callbacks_bind; [| intros ?]
    | |- keeps_callbacks (_call_callbacks _) => apply keeps_callbacks_call
    | |- keeps_callbacks (on_physical_system _) =>
        apply keeps_callbacks_on_physical_system
    | |- keeps_callbacks (on_reference_generator _) =>
        apply keeps_callbacks_on_reference_generator
    | |- keeps_callbacks (on_reward_function _) =>
        apply keeps_callbacks_on_reward_function
    | |- keeps_callbacks (on_constraint_monitor _) =>
        apply keeps_callbacks_on_constraint_monitor
    | |- keeps_callbacks (match ?x with _ => _ end) => destruct x
    | |- keeps_callbacks _ => apply keeps_callbacks_same; intros ?; now split
    end.

Lemma seed_each_length subs cbs : length (seed_each Cb subs cbs).2 = length cbs.
Proof.
  revert subs. induction cbs as [| c rest IH]; intros [| sub subs];
    try reflexivity.
  simpl. destruct (seed_if_random (cb_seed Cb) sub c) as [[[] | e] c'];
    [| reflexivity].
  specialize (IH subs). destruct (seed_each Cb subs rest) as [r rest'].
  simpl in *. now rewrite IH.
Qed.

Lemma step_keeps_callbacks a : keeps_callbacks (step Phys Ref Rew Mon Cb a).
Proof. unfold step. shape. Qed.

Lemma reset_keeps_callbacks : keeps_callbacks (reset Phys Ref Rew Cb (CM := CM)).
Proof. unfold reset. shape. Qed.

Lemma close_keeps_callbacks : keeps_callbacks (close Phys Ref Rew Cb (CM := CM)).
Proof. unfold close. shape. Qed.

Lemma render_keeps_callbacks :
  keeps_callbacks (render_all Cb (PS := PS) (RG := RG) (RF := RF) (CM := CM)).
Proof.
  intros s. unfold render_all.
  pose proof (each_length (render Cb)
                (drop (length (_callbacks s) - n_visualizations s) (_callbacks s)))
    as Hlen.
  destruct (each _ _) as [r vis]. simpl in *.
  split; [| reflexivity].
  rewrite length_app, length_take, Hlen, length_drop. lia.
Qed.

Lemma seed_keeps_callbacks sd os :
  keeps_callbacks (seed Phys Ref Rew Mon Cb sd os).
Proof.
  unfold seed. apply keeps_callbacks_bind; [shape |]. intros sg.
  apply keeps_callbacks_bind; [shape |]. intros self.
  destruct (spawn _ sg) as [subs sg'].
  destruct subs as [| s0 [| s1 [| s2 [| s3 subs]]]]; shape.
  intros s. pose proof (seed_each_length subs (_callbacks s)) as Hlen.
  destruct (seed_each _ _ _) as [r cbs]. simpl in *. now split.
Qed.

Lemma perform_keeps_callbacks (c : call) (s : Self) :
  length (_callbacks (perform Phys Ref Rew Mon Cb c s).2) = length (_callbacks s) /\
  n_visualizations (perform Phys Ref Rew Mon Cb c s).2 = n_visualizations s.
Proof.
  destruct c as [| a | rg | rf | | sd os |]; simpl.
  - pose proof (reset_keeps_callbacks s) as H.
    now destruct (reset Phys Ref Rew Cb s).
  - pose proof (step_keeps_callbacks a s) as H.
    now destruct (step Phys Ref Rew Mon Cb a s).
  - now split.
  - now split.
  - pose proof (render_keeps_callbacks s) as H.
    now destruct (render_all Cb s).
  - pose proof (seed_keeps_callbacks sd os s) as H.
    now destruct (seed Phys Ref Rew Mon Cb sd os s).
  - pose proof (close_keeps_callbacks s) as H.
    now destruct (close Phys Ref Rew Cb s).
Qed.

Lemma after_calls_cons c cs (s : Self) :
  after_calls Phys Ref Rew Mon Cb (c :: cs) s
  = after_calls Phys Ref Rew Mon Cb cs (perform Phys Ref Rew Mon Cb c s).2.
Proof. reflexivity. Qed.

Lemma after_calls_keeps_callbacks cs (s : Self) :
  length (_callbacks (after_calls Phys Ref Rew Mon Cb cs s))
  = length (_callbacks s) /\
  n_visualizations (after_calls Phys Ref Rew Mon Cb cs s) = n_visualizations s.
Proof.
  revert s. induction cs as [| c cs IH]; intros s; [now split |].
  rewrite after_calls_cons.
  destruct (IH (perform Phys Ref Rew Mon Cb c s).2) as [-> ->].
  apply perform_keeps_callbacks.
Qed.

(** X14: [__init__] wraps the physical system in the state-action
    processors in the order given, the last outermost, announces the
    wrapped system to the reference generator, the constraint monitor and
    the reward function, and makes [_callbacks] the callbacks followed by
    the visualizations, each after its [set_env].  From then on no call
    on the environment adds or drops a callback or a visualization. *)
Theorem callbacks_are_never_added_or_dropped ps rg rf vis cbs cm saps self cs :
  __init__ Ref Rew Mon Cb ps rg rf vis cbs cm saps = Ok self ->
  let wrapped := fold_left (fun ps sap => sap ps) saps ps in
  _physical_system self = wrapped /\
  (rg_set_modules Ref wrapped rg).1 = Ok tt /\
  _reference_generator self = (rg_set_modules Ref wrapped rg).2 /\
  (cm_set_modules Mon wrapped cm).1 = Ok tt /\
  _constraint_monitor self = (cm_set_modules Mon wrapped cm).2 /\
  (rf_set_modules Rew wrapped rf).1 = Ok tt /\
  _reward_function self = (rf_set_modules Rew wrapped rf).2 /\
  each (set_env Cb) (cbs ++ vis) = (Ok tt, _callbacks self) /\
  length (_callbacks (after_calls Phys Ref Rew Mon Cb cs self))
  = length cbs + length vis /\
  n_visualizations (after_calls Phys Ref Rew Mon Cb cs self) = length vis.
Proof.
  unfold __init__.
  set (blank := Build_ElectricMotorEnvironment _ _ _ _ _ _ _ _ _ _ _ _).
  destruct (bind _ _ blank) as [[[] | e] s] eqn:Hrun; [| discriminate].
  intros H. injection H as <-. cbv zeta.
  set (wrapped := fold_left (fun ps sap => sap ps) saps ps) in *.
  apply bind_ok_inv in Hrun as ([] & s1 & H1 & Hrun).
  apply on_reference_generator_inv in H1 as (rg' & Hrg & ->).
  apply bind_ok_inv in Hrun as ([] & s2 & H2 & Hrun).
  apply on_constraint_monitor_inv in H2 as (cm' & Hcm & ->).
  apply bind_ok_inv in Hrun as ([] & s3 & H3 & Hrun).
  apply on_reward_function_inv in H3 as (rf' & Hrf & ->).
  apply bind_ok_inv in Hrun as ([] & s4 & H4 & Hrun).
  unfold modify in H4. injection H4 as <-.
  apply bind_ok_inv in Hrun as ([] & s5 & H5 & Hrun).
  unfold modify in H5. injection H5 as <-.
  apply call_callbacks_ok in Hrun as (cbs' & Hcbs & ->).
  cbn in Hrg, Hcm, Hrf, Hcbs.
  destruct (after_calls_keeps_callbacks cs (with_callbacks cbs'
                         (with_callbacks (cbs ++ vis)
                            (with_done true
                               (with_reward_function rf'
                                  (with_constraint_monitor cm'
                                     (with_reference_generator rg' blank)))))))
    as [Hlen Hvis].
  rewrite Hlen, Hvis, Hrg, Hcm, Hrf. cbn.
  repeat split; try reflexivity; try assumption.
  pose proof (each_length (set_env Cb) (cbs ++ vis)) as Hl.
  rewrite Hcbs in Hl. simpl in Hl. now rewrite Hl, length_app.
Qed.

(** *** What [step], [reset] and [close] do *)

(** X15: when [step] returns, the flag was clear; the [on_step_begin]
    callbacks were called with the cycle counter as it was before the
    simulation; the state is what [simulate] returned for the action; the
    reward is what the reward function computed from that state, the
    reference [get_reference] gave for it, the cycle counter after the
    simulation, the action and the violation degree of the state; the
    observation pairs the state with what [get_reference_observation]
    gave for it; the [on_step_end] callbacks received the flag that is
    returned; and the last component of the result is empty. *)
Theorem step_returns_what_the_collaborators_computed
  (self self' : Self) a obs r d info :
  step Phys Ref Rew Mon Cb a self = (Ok (obs, r, d, info), self') ->
  exists st ps' rf rg' vd cm' rw' ref_next rg'' cbs1 cbs2,
    _done self = false /\
    each (on_step_begin Cb (k Phys (_physical_system self)) a) (_callbacks self)
    = (Ok tt, cbs1) /\
    simulate Phys a (_physical_system self) = (Ok st, ps') /\
    get_reference Ref st (_reference_generator self) = (Ok rf, rg') /\
    check_constraints Mon st (_constraint_monitor self) = (Ok vd, cm') /\
    reward Rew st rf (k Phys ps') a vd (_reward_function self) = (Ok r, rw') /\
    get_reference_observation Ref st rg' = (Ok ref_next, rg'') /\
    each (on_step_end Cb (k Phys ps') st rf r d) cbs1 = (Ok tt, cbs2) /\
    obs = (st, ref_next) /\ d = ge vd (int 1) /\ info = [] /\
    self' = {| _physical_system := ps'; _reference_generator := rg'';
               _reward_function := rw'; _constraint_monitor := cm';
               _callbacks := cbs2;
               n_visualizations := n_visualizations self; _done := d |}.
Proof.
  intros Hstep. unfold step in Hstep.
  apply bind_ok_inv in Hstep as (s0 & s0' & H0 & Hstep).
  unfold get in H0. injection H0 as <- <-.
  apply bind_ok_inv in Hstep as ([] & s1 & H1 & Hstep).
  destruct (_done self) eqn:Hdone; [discriminate |].
  unfold ret in H1. injection H1 as <-.
  apply bind_ok_inv in Hstep as (s2 & s2' & H2 & Hstep).
  unfold get in H2. injection H2 as <- <-.
  apply bind_ok_inv in Hstep as ([] & s3 & H3 & Hstep).
  apply call_callbacks_ok in H3 as (cbs1 & Hbegin & ->).
  apply bind_ok_inv in Hstep as (st & s4 & H4 & Hstep).
  apply on_physical_system_inv in H4 as (ps' & Hsim & ->).
  apply bind_ok_inv in Hstep as (rf & s5 & H5 & Hstep).
  apply on_reference_generator_inv in H5 as (rg' & Href & ->).
  apply bind_ok_inv in Hstep as (vd & s6 & H6 & Hstep).
  apply on_constraint_monitor_inv in H6 as (cm' & Hcheck & ->).
  apply bind_ok_inv in Hstep as (s7 & s7' & H7 & Hstep).
  unfold get in H7. injection H7 as <- <-.
  apply bind_ok_inv in Hstep as (rw & s8 & H8 & Hstep).
  apply on_reward_function_inv in H8 as (rw' & Hrew & ->).
  apply bind_ok_inv in Hstep as ([] & s9 & H9 & Hstep).
  unfold modify in H9. injection H9 as <-.
  apply bind_ok_inv in Hstep as (ref_next & s10 & H10 & Hstep).
  apply on_reference_generator_inv in H10 as (rg'' & Hnext & ->).
  apply bind_ok_inv in Hstep as (s11 & s11' & H11 & Hstep).
  unfold get in H11. injection H11 as <- <-.
  apply bind_ok_inv in Hstep as ([] & s12 & H12 & Hstep).
  apply call_callbacks_ok in H12 as (cbs2 & Hend & ->).
  apply bind_ok_inv in Hstep as (s13 & s13' & H13 & Hstep).
  unfold get in H13. injection H13 as <- <-.
  unfold ret in Hstep. injection Hstep as <- <- <- <- <-.
  cbn in *.
  exists st, ps', rf, rg', vd, cm', rw', ref_next, rg'', cbs1, cbs2.
  repeat split; assumption.
Qed.

(** X16: when [reset] returns, the [on_reset_begin] callbacks were called
    first; the state is what the physical system's [reset] returned; the
    reference generator was reset with that state and then asked for the
    reference observation that is returned with it; the reward function
    was reset; the [on_reset_end] callbacks received the state and the
    reference; the constraint monitor was not touched and the flag is
    clear.  When an [on_reset_begin] callback raises, nothing but the
    callbacks has changed. *)
Theorem reset_returns_state_and_reference (self : Self) :
  (forall st rf self',
      reset Phys Ref Rew Cb (CM := CM) self = (Ok (st, rf), self') ->
      exists cbs1 ps' rg' rg'' rw' cbs2,
        each (on_reset_begin Cb) (_callbacks self) = (Ok tt, cbs1) /\
        ps_reset Phys (_physical_system self) = (Ok st, ps') /\
        rg_reset Ref st (_reference_generator self) = (Ok tt, rg') /\
        get_reference_observation Ref st rg' = (Ok rf, rg'') /\
        rf_reset Rew (_reward_function self) = (Ok tt, rw') /\
        each (on_reset_end Cb st rf) cbs1 = (Ok tt, cbs2) /\
        self' = {| _physical_system := ps'; _reference_generator := rg'';
                   _reward_function := rw';
                   _constraint_monitor := _constraint_monitor self;
                   _callbacks := cbs2;
                   n_visualizations := n_visualizations self;
                   _done := false |}) /\
  (forall e cbs,
      each (on_reset_begin Cb) (_callbacks self) = (Raise e, cbs) ->
      reset Phys Ref Rew Cb (CM := CM) self = (Raise e, with_callbacks cbs self)).
Proof.
  split.
  - intros st rf self' Hreset. unfold reset in Hreset.
    apply bind_ok_inv in Hreset as ([] & s1 & H1 & Hreset).
    apply call_callbacks_ok in H1 as (cbs1 & Hbegin & ->).
    apply bind_ok_inv in Hreset as ([] & s2 & H2 & Hreset).
    unfold modify in H2. injection H2 as <-.
    apply bind_ok_inv in Hreset as (st' & s3 & H3 & Hreset).
    apply on_physical_system_inv in H3 as (ps' & Hps & ->).
    apply bind_ok_inv in Hreset as ([] & s4 & H4 & Hreset).
    apply on_reference_generator_inv in H4 as (rg' & Hrg & ->).
    apply bind_ok_inv in Hreset as (rf' & s5 & H5 & Hreset).
    apply on_reference_generator_inv in H5 as (rg'' & Hobs & ->).
    apply bind_ok_inv in Hreset as ([] & s6 & H6 & Hreset).
    apply on_reward_function_inv in H6 as (rw' & Hrw & ->).
    apply bind_ok_inv in Hreset as ([] & s7 & H7 & Hreset).
    apply call_callbacks_ok in H7 as (cbs2 & Hend & ->).
    unfold ret in Hreset. injection Hreset as <- <- <-.
    cbn in *.
    exists cbs1, ps', rg', rg'', rw', cbs2.
    repeat split; assumption.
  - intros e cbs Hcb. unfold reset.
    apply bind_raise. unfold _call_callbacks. now rewrite Hcb.
Qed.

(** X17: [close] closes the callbacks, then the reward function, then the
    physical system, then the reference generator.  It never touches the
    constraint monitor or the flag, and it stops at the first failure: when
    closing the reward function raises, the physical system and the
    reference generator are left open. *)
Theorem close_stops_at_the_first_failure (self : Self) :
  _constraint_monitor (close Phys Ref Rew Cb self).2 = _constraint_monitor self /\
  _done (close Phys Ref Rew Cb self).2 = _done self /\
  (forall cbs rw' ps' rg',
      each (on_close Cb) (_callbacks self) = (Ok tt, cbs) ->
      rf_close Rew (_reward_function self) = (Ok tt, rw') ->
      ps_close Phys (_physical_system self) = (Ok tt, ps') ->
      rg_close Ref (_reference_generator self) = (Ok tt, rg') ->
      close Phys Ref Rew Cb self
      = (Ok tt,
         {| _physical_system := ps'; _reference_generator := rg';
            _reward_function := rw';
            _constraint_monitor := _constraint_monitor self;
            _callbacks := cbs;
            n_visualizations := n_visualizations self;
            _done := _done self |})) /\
  (forall cbs e rw',
      each (on_close Cb) (_callbacks self) = (Ok tt, cbs) ->
      rf_close Rew (_reward_function self) = (Raise e, rw') ->
      close Phys Ref Rew Cb self
      = (Raise e, with_reward_function rw' (with_callbacks cbs self))) /\
  (forall cbs e,
      each (on_close Cb) (_callbacks self) = (Raise e, cbs) ->
      close Phys Ref Rew Cb self = (Raise e, with_callbacks cbs self)).
Proof.
  split; [| split; [| split; [| split]]].
  - unfold close, bind, _call_callbacks, on_reward_function, on_physical_system,
      on_reference_generator.
    destruct (each _ _) as [[[] | e] cbs]; [| reflexivity]. cbn.
    destruct (rf_close Rew _) as [[[] | e] rw']; [| reflexivity]. cbn.
    destruct (ps_close Phys _) as [[[] | e] ps']; [| reflexivity]. cbn.
    now destruct (rg_close Ref _) as [[[] | e] rg'].
  - apply close_keeps_done.
  - intros cbs rw' ps' rg' H1 H2 H3 H4.
    unfold close, bind, _call_callbacks, on_reward_function, on_physical_system,
      on_reference_generator.
    rewrite H1. cbn. rewrite H2. cbn. rewrite H3. cbn. rewrite H4. reflexivity.
  - intros cbs e rw' H1 H2.
    unfold close, bind, _call_callbacks, on_reward_function.
    rewrite H1. cbn. rewrite H2. reflexivity.
  - intros cbs e H1. unfold close, bind, _call_callbacks. now rewrite H1.
Qed.

(** X18: assigning a new reference generator or a new reward function
    sets the flag: the next [step] raises the usage error and changes
    nothing, until [reset] is called; the physical system, the constraint
    monitor and the callbacks are not touched by the assignment. *)
Theorem new_collaborator_requires_reset (self : Self) rg rf a :
  let with_rg := (set_reference_generator rg self).2 in
  let with_rf := (set_reward_function rf self).2 in
  ((set_reference_generator rg self).1 = Ok tt /\
   with_rg = with_done true (with_reference_generator rg self) /\
   step Phys Ref Rew Mon Cb a with_rg = (Raise usage_error, with_rg)) /\
  ((set_reward_function rf self).1 = Ok tt /\
   with_rf = with_done true (with_reward_function rf self) /\
   step Phys Ref Rew Mon Cb a with_rf = (Raise usage_error, with_rf)).
Proof.
  intros with_rg with_rf. split; (split; [reflexivity | split; [reflexivity |]]);
    now apply step_when_done.
Qed.

End EnvironmentProperties.

(** *** What sets the flag *)

Section DoneFlag.
Import Env.
Context {action state reference PS RG RF CM CB : Type}.
Context (Phys : PhysicalSystem action state PS)
        (Ref : ReferenceGenerator state reference PS RG)
        (Rew : RewardFunction action state reference PS RF)
        (Mon : ConstraintMonitor state PS CM)
        (Cb : Callback action state reference CB).


End DoneFlag.

(** ** The properties on the small drive and the small environments *)

Section OnTheDemo.
Import SCML Demo.

Lemma demo_shapes_fit mj lj : shapes_fit converter (motor mj) (load lj) supply.
Proof. repeat split. Qed.

Lemma build_engine mj lj calc : build mj lj calc = Ok (engine mj lj calc).
Proof.
  unfold engine.
  destruct (init_success converter (motor mj) (load lj) supply bases
              transistor_off [int 0] (int 1) None new_solver (Q2Qc (1 # 10)) calc
              (demo_shapes_fit mj lj)) as (self & Hself & _).
  unfold build. now rewrite Hself.
Qed.

Lemma engine_reachable mj lj calc :
  reachable converter (motor mj) (load lj) supply bases euler None
    (engine mj lj calc).
Proof. eapply reach_init, build_engine. Qed.

Lemma demo_keeps_seed : keeps_seed bases.
Proof. intros sub b. now exists (b.1, Some sub). Qed.

Lemma engine_in_use_reachable mj lj calc :
  reachable converter (motor mj) (load lj) supply bases euler None
    (engine_in_use mj lj calc).
Proof.
  unfold engine_in_use, reset_, limits_.
  exact (reach_reset _ _ _ _ _ _ _ _
           (reach_limits _ _ _ _ _ _ _ _ (engine_reachable mj lj calc))).
Qed.

(** [reset] on a fresh engine stops at the division by [self._limits];
    once the [limits] property has been read it returns the four
    observations, in order, over the four limits, in order. *)
Lemma demo_reset :
  (reset_ false false (engine false false None)).1
  = Raise (TypeError "unsupported operand type(s) for /") /\
  (reset_ false false (limits_ false false (engine false false None)).2).1
  = Ok [(int 0 / int 100)%Qc; (int 0 / int 20)%Qc; (int 0 / int 30)%Qc;
        (int 10 / int 10)%Qc].
Proof. split; vm_compute; reflexivity. Qed.

(** [simulate] on the engine in use, without a Jacobian: the loop runs,
    the cycle is counted, and the split of the state stops at
    [self._motor_state_slice]. *)
Lemma demo_simulate :
  (simulate_ false false 1%Z (engine_in_use false false None)).1
  = Raise (AttributeError "_motor_state_slice") /\
  (base (simulate_ false false 1%Z (engine_in_use false false None)).2).1 = 1.
Proof. split; vm_compute; reflexivity. Qed.

(** With the Jacobian handed to the solver, the first integration step
    stops inside [_system_jacobian]. *)
Lemma demo_simulate_with_jacobian :
  solver_jac (_ode_solver (engine_in_use true true None))
  = VMethod system_jacobian /\
  (simulate_ true true 1%Z (engine_in_use true true None)).1
  = Raise (AttributeError "_load_ode_idx").
Proof. split; vm_compute; reflexivity. Qed.

Lemma simulate_raises_witness :
  exists e, (simulate_ false false 1%Z (engine_in_use false false None)).1 = Raise e.
Proof.
  apply (simulate_raises converter (motor false) (load false) supply bases euler
           None (engine_in_use false false None) 1%Z).
  apply engine_in_use_reachable.
Defined.

Lemma system_jacobian_raises_witness :
  (_system_jacobian (motor true) (load true) (int 0) [int 3; int 4]
     (engine_in_use true true None)).1
  = Raise (AttributeError "_load_ode_idx") /\
  (call (motor true) (load true) (VMethod system_jacobian) (int 0) [int 3; int 4]
     (engine_in_use true true None)).1
  = Raise (AttributeError "_load_ode_idx") /\
  (getattr "_system_jacobian" (engine_in_use true true None)).1
  = Ok (VMatrix (Np.zeros2 (1 + 1) (1 + 1))).
Proof.
  apply (system_jacobian_raises converter (motor true) (load true) supply bases
           euler None (engine_in_use true true None) (int 0) [int 3; int 4]).
  apply engine_in_use_reachable.
Defined.

Lemma system_equation_concatenates_witness :
  exists derivative,
    (_system_equation (motor false) (load false) (int 0) ([int 3] ++ [int 4])
       (engine_in_use false false None)).1 = Ok derivative /\
    derivative
    = mechanical_ode (load false) (_mechanical_load (engine_in_use false false None))
        (int 0) [int 3]
        (torque (motor false) (_electric_motor (engine_in_use false false None))
           [int 4])
      ++ electrical_ode (motor false)
           (_electric_motor (engine_in_use false false None)) [int 4]
           (get_omega (load false)
              (_mechanical_load (engine_in_use false false None)) [int 3]) /\
    Np.slice_get derivative 0 1
    = mechanical_ode (load false) (_mechanical_load (engine_in_use false false None))
        (int 0) [int 3]
        (torque (motor false) (_electric_motor (engine_in_use false false None))
           [int 4]) /\
    Np.slice_get derivative 1 (1 + 1)
    = electrical_ode (motor false)
        (_electric_motor (engine_in_use false false None)) [int 4]
        (get_omega (load false)
           (_mechanical_load (engine_in_use false false None)) [int 3]).
Proof.
  apply (system_equation_concatenates converter (motor false) (load false) supply
           bases euler None (engine_in_use false false None) (int 0)
           [int 3] [int 4]).
  - apply engine_in_use_reachable.
  - reflexivity.
  - reflexivity.
  - reflexivity.
  - reflexivity.
Defined.

Lemma jacobian_degradation_witness :
  exists self,
    build true false (Some true) = Ok self /\
    solver_equation (_ode_solver self) = VMethod system_equation /\
    (Some true = Some true -> both_have_jacobian (motor true) (load false) = false ->
     solver_jac (_ode_solver self) = VNone /\ warned self = [jacobian_warning]) /\
    (solver_jac (_ode_solver self) = VMethod system_jacobian <->
     (Some true = Some true \/ Some true = None) /\
     motor_HAS_JACOBIAN (motor true) = true /\
     load_HAS_JACOBIAN (load false) = true) /\
    (solver_jac (_ode_solver self) = VNone \/
     solver_jac (_ode_solver self) = VMethod system_jacobian) /\
    (warned self = [jacobian_warning] <->
     Some true = Some true /\ both_have_jacobian (motor true) (load false) = false) /\
    (warned self = [] \/ warned self = [jacobian_warning]).
Proof.
  apply (jacobian_degradation converter (motor true) (load false) supply bases
           transistor_off [int 0] (int 1) None new_solver (Q2Qc (1 # 10))
           (Some true)).
  apply demo_shapes_fit.
Defined.

Lemma construction_iff_shapes_witness :
  (exists self, build false false None = Ok self) /\
  __init__ converter (motor false) (load false) three_phase_supply bases
    transistor_off [int 0] (int 1) None new_solver (Q2Qc (1 # 10)) None
  = Raise (AssertionError "").
Proof.
  split.
  - apply (proj1 (proj1 (construction_iff_shapes converter (motor false)
                           (load false) supply bases transistor_off [int 0]
                           (int 1) None new_solver (Q2Qc (1 # 10)) None))).
    apply demo_shapes_fit.
  - apply (proj1 (proj2 (construction_iff_shapes converter (motor false)
                           (load false) three_phase_supply bases transistor_off
                           [int 0] (int 1) None new_solver (Q2Qc (1 # 10)) None))).
    intros (Hshape & _). discriminate Hshape.
Defined.

(** *** The engine in use *)

Lemma construction_time_attributes_never_change_witness :
  let used :=
    later false false
      [UseLimits; UseReset; UseSimulate 1%Z; UseInitialOdeValue [int 7; int 8]]
      (engine false false None) in
  (forall n, n ∈ fixed_at_construction ->
             dict used !! n = dict (engine false false None) !! n) /\
  (tau used).1 = Ok (VNum (Q2Qc (1 # 10))) /\
  (getattr "_t" used).1 = Ok (VNum (int 0)) /\
  (state_observation_space used).1
  = Ok (VBox (concatenate_boxes
                [load_observation_space (load false);
                 motor_observation_space (motor false);
                 conv_observation_space converter;
                 supply_observation_space supply])) /\
  dict used !! "_state_names"
  = Some (VNames (state_names converter (motor false) (load false) supply)) /\
  dict used !! "_load_ode_slice" = Some (VSlice 0 1) /\
  dict used !! "_motor_ode_slice" = Some (VSlice 1 (1 + 1)) /\
  Forall (fun n => dict used !! n = None) never_assigned.
Proof.
  exact (construction_time_attributes_never_change converter (motor false)
           (load false) supply bases euler None nominal
           transistor_off [int 0] (int 1) None new_solver (Q2Qc (1 # 10)) None
           (engine false false None)
           [UseLimits; UseReset; UseSimulate 1%Z;
            UseInitialOdeValue [int 7; int 8]]
           (build_engine false false None)).
Defined.

Lemma limits_are_computed_once_witness :
  exists all,
    (limits_ false false (engine false false None)).1 = Ok (VArray all) /\
    (UseLimits ∉ ([] : list (@use Z)) ->
     all = Np.concatenate [[int 100]; [int 20; int 30]; []; [int 10]]) /\
    limits_ false false
      (later false false [UseReset; UseSimulate 1%Z]
         (limits_ false false (engine false false None)).2)
    = (Ok (VArray all),
       later false false [UseReset; UseSimulate 1%Z]
         (limits_ false false (engine false false None)).2).
Proof.
  exact (limits_are_computed_once converter (motor false) (load false) supply
           bases euler None nominal
           transistor_off [int 0] (int 1) None new_solver (Q2Qc (1 # 10)) None
           (engine false false None) [] [UseReset; UseSimulate 1%Z]
           (build_engine false false None)).
Defined.

Lemma nominal_state_is_computed_once_witness :
  exists all,
    (nominal_state nominal (engine false false None)).1 = Ok (VArray all) /\
    (UseNominalState ∉ ([] : list (@use Z)) ->
     all = Np.concatenate [[int 50]; [int 10; int 30]; []; [int 10]]) /\
    nominal_state nominal
      (later false false [UseLimits; UseReset]
         (nominal_state nominal (engine false false None)).2)
    = (Ok (VArray all),
       later false false [UseLimits; UseReset]
         (nominal_state nominal (engine false false None)).2).
Proof.
  exact (nominal_state_is_computed_once converter (motor false) (load false)
           supply bases euler None nominal
           transistor_off [int 0] (int 1) None new_solver (Q2Qc (1 # 10)) None
           (engine false false None) [] [UseLimits; UseReset]
           (build_engine false false None)).
Defined.

Lemma reset_before_the_limits_are_read_witness :
  exists y0,
    dict (engine false false None) !! "_initial_ode_value" = Some (VArray y0) /\
    let obs := observation converter (motor false) (load false) supply y0
                 (_mechanical_load (engine false false None)) [int 0]
                 transistor_off None in
    (reset_ false false (engine false false None)).1
    = match obs with
      | [] => Ok []
      | _ :: _ => Raise (TypeError "unsupported operand type(s) for /")
      end /\
    dict (reset_ false false (engine false false None)).2 !! "system_observation"
    = Some (VArray obs) /\
    _ode_solver (reset_ false false (engine false false None)).2
    = set_initial_value y0 (int 0) (_ode_solver (engine false false None)).
Proof.
  apply (reset_before_the_limits_are_read converter (motor false) (load false)
           supply bases euler None nominal
           transistor_off [int 0] (int 1) None new_solver (Q2Qc (1 # 10)) None
           (engine false false None) [] (0, None) (0, None)
           (_mechanical_load (engine false false None)) [int 0] transistor_off
           None (build_engine false false None)).
  - apply not_elem_of_nil.
  - vm_compute. reflexivity.
  - vm_compute. reflexivity.
  - vm_compute. reflexivity.
  - vm_compute. reflexivity.
  - vm_compute. reflexivity.
  - vm_compute. reflexivity.
Defined.

Lemma reset_returns_the_normalised_observation_witness :
  let self := later false false [UseLimits] (engine false false None) in
  exists y0 lim,
    (initial_ode_value self).1 = Ok (VArray y0) /\
    (limits_ false false self).1 = Ok (VArray lim) /\
    let obs := observation converter (motor false) (load false) supply y0
                 (_mechanical_load (engine false false None)) [int 0]
                 transistor_off None in
    let after_reset := (reset_ false false self).2 in
    (reset_ false false self).1 = Np.divide obs lim /\
    _ode_solver after_reset = set_initial_value y0 (int 0) (_ode_solver self) /\
    dict after_reset !! "_load_state" = Some (VArray (Np.slice_get y0 0 1)) /\
    dict after_reset !! "_motor_state"
    = Some (VArray (Np.slice_get y0 1 (1 + 1))) /\
    dict after_reset !! "system_observation" = Some (VArray obs) /\
    (length obs = length lim -> Forall (fun x => x <> int 0) lim ->
     exists q, (reset_ false false self).1 = Ok q /\ Np.multiply q lim = obs).
Proof.
  apply (reset_returns_the_normalised_observation converter (motor false)
           (load false) supply bases euler None nominal
           transistor_off [int 0] (int 1) None new_solver (Q2Qc (1 # 10)) None
           (engine false false None) [UseLimits] (0, None) (0, None)
           (_mechanical_load (engine false false None)) [int 0] transistor_off
           None (build_engine false false None)).
  - apply list_elem_of_here.
  - vm_compute. reflexivity.
  - vm_compute. reflexivity.
  - vm_compute. reflexivity.
  - vm_compute. reflexivity.
  - vm_compute. reflexivity.
  - vm_compute. reflexivity.
Defined.

Lemma first_reset_observes_the_zero_state_witness :
  (reset_ false false (limits_ false false (engine false false None)).2).1
  = Np.divide
      (observation converter (motor false) (load false) supply (Np.zeros (1 + 1))
         (_mechanical_load (engine false false None)) [int 0] transistor_off
         None)
      (Np.concatenate [[int 100]; [int 20; int 30]; []; [int 10]]) /\
  solver_y (_ode_solver
              (reset_ false false
                 (limits_ false false (engine false false None)).2).2)
  = Np.zeros (1 + 1) /\
  solver_t (_ode_solver
              (reset_ false false
                 (limits_ false false (engine false false None)).2).2)
  = int 0.
Proof.
  apply (first_reset_observes_the_zero_state converter (motor false) (load false)
           supply bases
           transistor_off [int 0] (int 1) None new_solver (Q2Qc (1 # 10)) None
           (engine false false None) (0, None) (0, None)
           (_mechanical_load (engine false false None)) [int 0] transistor_off
           None (build_engine false false None)).
  - vm_compute. reflexivity.
  - vm_compute. reflexivity.
  - vm_compute. reflexivity.
  - vm_compute. reflexivity.
  - vm_compute. reflexivity.
  - vm_compute. reflexivity.
Defined.

Lemma initial_ode_value_round_trip_witness :
  let self := engine false false None in
  let v := [int 7; int 8] in
  (length v = 1 + 1 ->
   (set_initial_ode_value v self).1 = Ok tt /\
   (initial_ode_value (set_initial_ode_value v self).2).1 = Ok (VArray v)) /\
  (forall x, v = [x] ->
   (set_initial_ode_value v self).1 = Ok tt /\
   (initial_ode_value (set_initial_ode_value v self).2).1
   = Ok (VArray (replicate (1 + 1) x))) /\
  (length v <> 1 + 1 -> length v <> 1 ->
   set_initial_ode_value v self
   = (Raise (ValueError "could not broadcast input array"), self)).
Proof.
  exact (initial_ode_value_round_trip converter (motor false) (load false) supply
           bases euler None nominal
           transistor_off [int 0] (int 1) None new_solver (Q2Qc (1 # 10)) None
           (engine false false None) [] [int 7; int 8]
           (build_engine false false None)).
Defined.

Lemma system_equation_accepts_any_state_witness :
  let self := later false false [UseLimits; UseReset] (engine false false None) in
  let load_state := Np.slice_get [int 3] 0 1 in
  let motor_state := Np.slice_get [int 3] 1 (1 + 1) in
  let omega := get_omega (load false) (_mechanical_load self) load_state in
  let electrical :=
    electrical_ode (motor false) (_electric_motor self) motor_state omega in
  let mechanical :=
    mechanical_ode (load false) (_mechanical_load self) (int 0) load_state
      (torque (motor false) (_electric_motor self) motor_state) in
  (length electrical = 1 -> length mechanical = 1 ->
   (_system_equation (motor false) (load false) (int 0) [int 3] self).1
   = Ok (mechanical ++ electrical) /\
   dict (_system_equation (motor false) (load false) (int 0) [int 3] self).2
     !! "_system_derivative"
   = Some (VArray (mechanical ++ electrical))) /\
  (length electrical <> 1 -> length electrical <> 1 ->
   _system_equation (motor false) (load false) (int 0) [int 3] self
   = (Raise (ValueError "could not broadcast input array"), self)) /\
  (length electrical = 1 -> length mechanical <> 1 -> length mechanical <> 1 ->
   (_system_equation (motor false) (load false) (int 0) [int 3] self).1
   = Raise (ValueError "could not broadcast input array")).
Proof.
  exact (system_equation_accepts_any_state converter (motor false) (load false)
           supply bases euler None nominal
           transistor_off [int 0] (int 1) None new_solver (Q2Qc (1 # 10)) None
           (engine false false None) [UseLimits; UseReset] (int 0) [int 3]
           (build_engine false false None)).
Defined.


(** On the demo drive the buffer does change: the one Euler step of a
    [simulate] with the transistor on evaluates the right-hand side at the
    state of zeros and 10 V, and the derivative it returns, 0 for the speed
    and 10 for the current, is what [_system_derivative] holds when
    [simulate] raises; the solver has advanced to 1/10 s and a current of
    1 A, which no attribute of the engine records. *)
Lemma demo_simulate_fills_the_buffer :
  let self := later false false [UseLimits; UseReset] (engine false false None) in
  let after_simulate := (simulate_ false false 1%Z self).2 in
  dict self !! "_system_derivative" = Some (VArray [int 0; int 0]) /\
  dict after_simulate !! "_system_derivative" = Some (VArray [int 0; int 10]) /\
  solver_y (_ode_solver after_simulate) = [int 0; int 1] /\
  solver_t (_ode_solver after_simulate) = Q2Qc (1 # 10) /\
  dict after_simulate !! "_motor_state" = Some (VArray [int 0]).
Proof.
  vm_compute.
  repeat split;
    repeat first [apply (f_equal (@Some value)) | apply (f_equal VArray)];
    repeat (apply (f_equal2 cons); [apply Qc_is_canon; reflexivity |]);
    first [reflexivity | apply Qc_is_canon; reflexivity].
Qed.

End OnTheDemo.

Section OnTheDemoEnvironments.
Import Env DemoEnv.

Lemma new_plant_env : new_env 0%Z = Ok plant_env.
Proof. reflexivity. Qed.

Lemma new_drive_env : new_env (Demo.engine false false None) = Ok drive_env.
Proof. reflexivity. Qed.

(** C5 as stated fails: around a fresh engine, [reset] raises, at the
    division by [self._limits], and the flag is cleared all the same; the
    next [step] is then not refused with the usage error.  So a call
    other than a successful [reset] clears the flag. *)
Lemma failed_reset_clears_done :
  _done drive_env = true /\
  (reset_drive drive_env).1
  = Raise (TypeError "unsupported operand type(s) for /") /\
  _done (reset_drive drive_env).2 = false /\
  (step_drive 1%Z (reset_drive drive_env).2).1
  = Raise (AttributeError "_motor_state_slice") /\
  ~ (forall c self,
        _done self = true ->
        _done (perform_drive c self).2 = false ->
        c = CallReset /\ (perform_drive c self).1 = true).
Proof.
  assert (H1 : _done drive_env = true) by (vm_compute; reflexivity).
  assert (H2 : _done (reset_drive drive_env).2 = false)
    by (vm_compute; reflexivity).
  split; [exact H1 |].
  split; [vm_compute; reflexivity |].
  split; [exact H2 |].
  split; [vm_compute; reflexivity |].
  intros Hall.
  assert (H3 : _done (perform_drive CallReset drive_env).2 = false)
    by (vm_compute; reflexivity).
  destruct (Hall CallReset drive_env H1 H3) as [_ Hok].
  assert (Hno : (perform_drive CallReset drive_env).1 = false)
    by (vm_compute; reflexivity).
  rewrite Hno in Hok. discriminate Hok.
Qed.

Lemma step_requires_reset_witness :
  _done plant_env = true /\
  step_plant 1%Z plant_env = (Raise usage_error, plant_env) /\
  step_plant 0%Z (step_plant 1%Z (reset_plant plant_env).2).2
  = (Raise usage_error, (step_plant 1%Z (reset_plant plant_env).2).2) /\
  CallReset (action := Z) (RG := unit) (RF := unit) = CallReset /\
  _done (reset_plant plant_env).2 = false.
Proof.
  pose proof (step_requires_reset plant (generator Z) (rewards Z) (monitor Z)
                counter) as (Hinit & Hstep & Hafter & Honly & Hreset).
  split; [| split; [| split; [| split]]].
  - apply (Hinit 0%Z tt tt [] [(0, None)] tt [] plant_env). reflexivity.
  - apply Hstep. reflexivity.
  - apply (Hafter (reset_plant plant_env).2 _ 1%Z ([int 1], [int 1])
             (- int 1)%Qc []).
    vm_compute. reflexivity.
  - apply (Honly CallReset plant_env); reflexivity.
  - apply (Hreset plant_env [(2, None)]). reflexivity.
Defined.



Lemma seeding_is_reproducible_witness :
  let seed_drive := seed drive (generator _) (rewards _) (monitor _) counter in
  let env' := (seed_drive (Some 7%Z) 0%N drive_env).2 in
  let engine := _physical_system drive_env in
  let engine' := _physical_system env' in
  Demo.seed_ false false (Some (root_child 7 0)) engine = (Ok tt, engine') /\
  (exists c', _callbacks env' !! 0 = Some c' /\
              (Ok tt, (1, Some (root_child 7 (4 + 0)))) = (Ok tt, c')) /\
  (Ok tt, Some {| NpRandom.entropy := 7; NpRandom.spawn_key := [0] ++ [0 + 0];
                  NpRandom.n_children_spawned := 0 |})
  = (Ok tt, SCML._supply engine').
Proof.
  intros seed_drive env' engine engine'.
  pose proof (seeding_is_reproducible drive (generator _) (rewards _) (monitor _)
                counter Demo.converter (Demo.motor false) (Demo.load false)
                Demo.supply Demo.bases None)
    as (Henv & _ & Hengine).
  destruct (Henv (Some 7%Z) 0%N drive_env) as (Hrun & _ & _).
  destruct (Hrun [7%Z] env') as (_ & Hps & _ & _ & _ & _ & Hcb & _).
  { vm_compute. reflexivity. }
  split; [| split].
  - apply (Hps (fun sub => Demo.seed_ false false (Some sub))). reflexivity.
  - apply (Hcb (fun sub c => (Ok tt, (c.1, Some sub))) 0 (1, None));
      reflexivity.
  - destruct (Hengine (root_child 7 0) engine engine' (0, Some (root_child 7 0)))
      as (Hsupply & _).
    + vm_compute. reflexivity.
    + vm_compute. reflexivity.
    + vm_compute. reflexivity.
    + apply (Hsupply (fun sub _ => (Ok tt, Some sub))). reflexivity.
Defined.

(** The children an environment around the engine hands out for the seed
    7: the engine keeps child 0, its supply child 0 of that; the callback
    keeps child 4. *)
Lemma demo_seed_tree :
  let env := (seed drive (generator _) (rewards _) (monitor _) counter
                (Some 7%Z) 0%N drive_env).2 in
  SCML._supply (_physical_system env)
  = Some {| NpRandom.entropy := 7; NpRandom.spawn_key := [0; 0];
            NpRandom.n_children_spawned := 0 |} /\
  (SCML.base (_physical_system env)).2
  = Some {| NpRandom.entropy := 7; NpRandom.spawn_key := [0];
            NpRandom.n_children_spawned := 5 |} /\
  _callbacks env
  = [(1, Some {| NpRandom.entropy := 7; NpRandom.spawn_key := [4];
                 NpRandom.n_children_spawned := 0 |})].
Proof. repeat split. Qed.

(** *** The callbacks, [step] and [reset] *)

Lemma callbacks_run_in_order_until_one_raises_witness :
  let h : M (nat * option NpRandom.SeedSequence) unit :=
    fun c => if c.1 <? 2 then (Ok tt, (S c.1, c.2))
             else (Raise (ValueError "full"), c) in
  let self := with_callbacks [(0, None); (1, None); (2, None); (0, None)]
                (blank_env 0%Z) in
  _call_callbacks h self
  = (Raise (ValueError "full"),
     with_callbacks
       (map (fun c => (h c).2) [(0, None); (1, None)] ++ (h (2, None)).2
        :: [(0, None)]) self).
Proof.
  cbv zeta.
  apply (proj2 (callbacks_run_in_order_until_one_raises _ _)
           [(0, None); (1, None)] (2, None) [(0, None)] (ValueError "full")).
  - reflexivity.
  - repeat constructor.
  - reflexivity.
Defined.

Lemma callbacks_are_never_added_or_dropped_witness :
  let cs := [CallReset; CallStep 1%Z; CallRender; CallSeed (Some 5%Z) 0%N;
             CallClose] in
  let wrapped := fold_left (fun ps (sap : Z -> Z) => sap ps) [] 0%Z in
  _physical_system plant_env = wrapped /\
  (rg_set_modules (generator Z) wrapped tt).1 = Ok tt /\
  _reference_generator plant_env = (rg_set_modules (generator Z) wrapped tt).2 /\
  (cm_set_modules (monitor Z) wrapped tt).1 = Ok tt /\
  _constraint_monitor plant_env = (cm_set_modules (monitor Z) wrapped tt).2 /\
  (rf_set_modules (rewards Z) wrapped tt).1 = Ok tt /\
  _reward_function plant_env = (rf_set_modules (rewards Z) wrapped tt).2 /\
  each (set_env counter) ([(0, None)] ++ []) = (Ok tt, _callbacks plant_env) /\
  length (_callbacks
            (after_calls plant (generator Z) (rewards Z) (monitor Z) counter cs
               plant_env))
  = length [(0, @None NpRandom.SeedSequence)]
    + length (@nil (nat * option NpRandom.SeedSequence)) /\
  n_visualizations
    (after_calls plant (generator Z) (rewards Z) (monitor Z) counter cs plant_env)
  = length (@nil (nat * option NpRandom.SeedSequence)).
Proof.
  exact (callbacks_are_never_added_or_dropped plant (generator Z) (rewards Z)
           (monitor Z) counter 0%Z tt tt [] [(0, None)] tt [] plant_env
           [CallReset; CallStep 1%Z; CallRender; CallSeed (Some 5%Z) 0%N;
            CallClose]
           new_plant_env).
Defined.

Lemma step_returns_what_the_collaborators_computed_witness :
  let env := (reset_plant plant_env).2 in
  exists st ps' rf rg' vd cm' rw' ref_next rg'' cbs1 cbs2,
    _done env = false /\
    each (on_step_begin counter (k plant (_physical_system env)) 1%Z)
      (_callbacks env)
    = (Ok tt, cbs1) /\
    simulate plant 1%Z (_physical_system env) = (Ok st, ps') /\
    get_reference (generator Z) st (_reference_generator env) = (Ok rf, rg') /\
    check_constraints (monitor Z) st (_constraint_monitor env) = (Ok vd, cm') /\
    reward (rewards Z) st rf (k plant ps') 1%Z vd (_reward_function env)
    = (Ok (- int 1)%Qc, rw') /\
    get_reference_observation (generator Z) st rg' = (Ok ref_next, rg'') /\
    each (on_step_end counter (k plant ps') st rf (- int 1)%Qc true) cbs1
    = (Ok tt, cbs2) /\
    ([int 1], [int 1]) = (st, ref_next) /\ true = ge vd (int 1) /\
    ([] : list (string * string)) = [] /\
    (step_plant 1%Z env).2
    = {| _physical_system := ps'; _reference_generator := rg'';
         _reward_function := rw'; _constraint_monitor := cm';
         _callbacks := cbs2;
         n_visualizations := n_visualizations env; _done := true |}.
Proof.
  cbv zeta.
  apply (step_returns_what_the_collaborators_computed plant (generator Z)
           (rewards Z) (monitor Z) counter (reset_plant plant_env).2
           (step_plant 1%Z (reset_plant plant_env).2).2 1%Z
           ([int 1], [int 1]) (- int 1)%Qc true []).
  vm_compute. reflexivity.
Defined.

Lemma reset_returns_state_and_reference_witness :
  exists cbs1 ps' rg' rg'' rw' cbs2,
    each (on_reset_begin counter) (_callbacks plant_env) = (Ok tt, cbs1) /\
    ps_reset plant (_physical_system plant_env) = (Ok [int 0], ps') /\
    rg_reset (generator Z) [int 0] (_reference_generator plant_env)
    = (Ok tt, rg') /\
    get_reference_observation (generator Z) [int 0] rg' = (Ok [int 1], rg'') /\
    rf_reset (rewards Z) (_reward_function plant_env) = (Ok tt, rw') /\
    each (on_reset_end counter [int 0] [int 1]) cbs1 = (Ok tt, cbs2) /\
    (reset_plant plant_env).2
    = {| _physical_system := ps'; _reference_generator := rg'';
         _reward_function := rw';
         _constraint_monitor := _constraint_monitor plant_env;
         _callbacks := cbs2;
         n_visualizations := n_visualizations plant_env;
         _done := false |}.
Proof.
  apply (proj1 (reset_returns_state_and_reference plant (generator Z)
                  (rewards Z) counter plant_env)
           [int 0] [int 1] (reset_plant plant_env).2).
  vm_compute. reflexivity.
Defined.

End OnTheDemoEnvironments.

(** ** The externally excited synchronous motor *)

Section MotorProperties.
Import ExternallyExcitedSynchronousMotor.

Lemma div_ok (x y : num) : y <> 0%Qc -> div x y = Done (x / y)%Qc.
Proof. intros Hy. unfold div. now destruct (Qc_eq_dec y 0%Qc). Qed.

Lemma div_by_zero (x y : num) : y = 0%Qc -> div x y = Failed ZeroDivisionError.
Proof. intros Hy. unfold div. now destruct (Qc_eq_dec y 0%Qc). Qed.

Lemma Qcmult_nonzero (x y : Qc) : (x * y)%Qc <> 0%Qc <-> x <> 0%Qc /\ y <> 0%Qc.
Proof.
  split.
  - intros H. split; intros ->; apply H; ring.
  - intros [Hx Hy] H. destruct (Qcmult_integral _ _ H); contradiction.
Qed.

Lemma one_minus_quotient (a b : Qc) :
  b <> 0%Qc -> ((1 - a / b)%Qc = 0%Qc <-> a = b).
Proof.
  intros Hb. split.
  - intros H. assert (Hq : (a / b)%Qc = 1%Qc).
    { rewrite <- (Qcplus_0_r (a / b)), <- H. ring. }
    rewrite <- (Qcmult_1_l b), <- Hq. field. exact Hb.
  - intros ->. field. exact Hb.
Qed.

Lemma sigma_regular mp :
  regular mp ->
  let s := (1 - l_m mp * l_m mp / (l_d mp * l_e mp))%Qc in
  sigma mp = Done s /\ s <> 0%Qc /\ l_d mp <> 0%Qc /\ l_e mp <> 0%Qc.
Proof.
  intros [Hde Hm] s. unfold sigma.
  rewrite (div_ok _ _ Hde). simpl.
  apply Qcmult_nonzero in Hde as [Hd He].
  repeat split; try assumption.
  intros Hs. apply Hm. apply (one_minus_quotient _ _ (proj2 (Qcmult_nonzero _ _) (conj Hd He))).
  exact Hs.
Qed.

Lemma update_model_regular (self : t) :
  let mp := _motor_parameter self in
  regular mp ->
  let s := (1 - l_m mp * l_m mp / (l_d mp * l_e mp))%Qc in
  _update_model self
  = Done {| _motor_parameter := mp;
            _model_constants :=
              Some [map (fun x => (x / l_d mp)%Qc)
                      [0; - r_s mp / s; 0; l_m mp * r_e mp / (s * l_e mp);
                       1 / s; 0; - l_m mp / (s * l_e mp); 0;
                       l_q mp * p mp / s; 0]%Qc;
                    map (fun x => (x / l_q mp)%Qc)
                      [0; 0; - r_s mp; 0; 0; 1; 0; - l_d mp * p mp; 0;
                       - p mp * l_m mp]%Qc;
                    map (fun x => (x / l_e mp)%Qc)
                      [0; l_m mp * r_s mp / (s * l_d mp); 0; - r_e mp / s;
                       - l_m mp / (s * l_d mp); 0; 1 / s; 0;
                       - p mp * l_m mp * l_q mp / (s * l_d mp); 0]%Qc;
                    [p mp; 0; 0; 0; 0; 0; 0; 0; 0; 0]%Qc] |}.
Proof.
  intros mp Hreg s.
  destruct (sigma_regular mp Hreg) as (Hs & Hs0 & Hd & He). fold s in Hs, Hs0.
  unfold _update_model. fold mp. rewrite Hs. cbn [andthen].
  assert (Hse : (s * l_e mp)%Qc <> 0%Qc) by now apply Qcmult_nonzero.
  assert (Hsd : (s * l_d mp)%Qc <> 0%Qc) by now apply Qcmult_nonzero.
  rewrite !(div_ok _ s Hs0), !(div_ok _ _ Hse), !(div_ok _ _ Hsd).
  reflexivity.
Qed.

(** X19: [_update_model] raises [ZeroDivisionError] exactly when [l_d *
    l_e] is zero or [l_m ** 2] equals [l_d * l_e], so that [sigma] does
    not exist or is zero; otherwise it keeps the parameters and stores a
    table of four rows, one for each of i_sd, i_sq, i_e and epsilon, and
    ten columns. *)
Theorem update_model_raises_iff_sigma_fails (self : t) :
  let mp := _motor_parameter self in
  (_update_model self = Failed ZeroDivisionError <->
   (l_d mp * l_e mp)%Qc = 0%Qc \/ (l_m mp * l_m mp)%Qc = (l_d mp * l_e mp)%Qc) /\
  (forall e, _update_model self = Failed e -> e = ZeroDivisionError) /\
  (forall self', _update_model self = Done self' ->
     _motor_parameter self' = mp /\
     exists m, _model_constants self' = Some m /\ Np.has_shape m 4 10 = true).
Proof.
  intros mp.
  destruct (Qc_eq_dec (l_d mp * l_e mp)%Qc 0%Qc) as [Hde | Hde].
  { assert (Hrun : _update_model self = Failed ZeroDivisionError).
    { unfold _update_model, sigma. fold mp. now rewrite (div_by_zero _ _ Hde). }
    rewrite Hrun. split; [| split].
    - split; [now left | reflexivity].
    - intros e H. now injection H as <-.
    - discriminate. }
  destruct (Qc_eq_dec (l_m mp * l_m mp)%Qc (l_d mp * l_e mp)%Qc) as [Hm | Hm].
  { assert (Hrun : _update_model self = Failed ZeroDivisionError).
    { unfold _update_model, sigma. fold mp. rewrite (div_ok _ _ Hde).
      cbn [andthen]. rewrite div_by_zero; [reflexivity |].
      now apply one_minus_quotient. }
    rewrite Hrun. split; [| split].
    - split; [now right | reflexivity].
    - intros e H. now injection H as <-.
    - discriminate. }
  rewrite (update_model_regular self (conj Hde Hm)). fold mp.
  split; [| split].
  - split; [discriminate | intros [H | H]; contradiction].
  - discriminate.
  - intros self' H. injection H as <-. split; [reflexivity |].
    eexists. split; reflexivity.
Qed.

Lemma update_model_done (self self' : t) :
  _update_model self = Done self' -> regular (_motor_parameter self).
Proof.
  intros Hrun. split.
  - intros Hde. unfold _update_model, sigma in Hrun.
    rewrite (div_by_zero _ _ Hde) in Hrun. discriminate.
  - intros Hm.
    destruct (Qc_eq_dec (l_d (_motor_parameter self) * l_e (_motor_parameter self))%Qc
                0%Qc) as [Hde | Hde].
    + unfold _update_model, sigma in Hrun.
      rewrite (div_by_zero _ _ Hde) in Hrun. discriminate.
    + unfold _update_model, sigma in Hrun. rewrite (div_ok _ _ Hde) in Hrun.
      cbn [andthen] in Hrun. rewrite div_by_zero in Hrun; [discriminate |].
      now apply one_minus_quotient.
Qed.

Lemma ode_closed_form (self self' : t) i_d i_q i_e rest u_d u_q u_e rest' omega :
  let mp := _motor_parameter self in
  _update_model self = Done self' ->
  l_q mp <> 0%Qc ->
  let s := (1 - l_m mp * l_m mp / (l_d mp * l_e mp))%Qc in
  electrical_ode self' (i_d :: i_q :: i_e :: rest) (u_d :: u_q :: u_e :: rest') omega
  = Done [((u_d - r_s mp * i_d + l_q mp * p mp * omega * i_q
            - l_m mp / l_e mp * (u_e - r_e mp * i_e)) / (s * l_d mp));
          ((u_q - r_s mp * i_q - p mp * omega * (l_d mp * i_d + l_m mp * i_e))
           / l_q mp);
          ((u_e - r_e mp * i_e
            - l_m mp / l_d mp * (u_d - r_s mp * i_d + l_q mp * p mp * omega * i_q))
           / (s * l_e mp));
          p mp * omega]%Qc.
Proof.
  intros mp Hrun Hq s.
  pose proof (update_model_done _ _ Hrun) as Hreg.
  destruct (sigma_regular mp Hreg) as (_ & Hs0 & Hd & He). fold s in Hs0.
  rewrite (update_model_regular self Hreg) in Hrun. injection Hrun as <-.
  fold mp s. unfold electrical_ode, matmul, dot, num in *.
  cbn [_model_constants item lookup list_lookup I_SD_IDX I_SQ_IDX I_E_IDX andthen
       map forallb length bool_decide decide_rel andb foldr zip_with].
  cbn. f_equal. repeat f_equal; field; repeat split; assumption.
Qed.

(** X20: with the table [_update_model] stores, and [l_q] not zero,
    [electrical_ode] returns the four derivatives
      - of i_sd: (u_d - r_s i_sd + l_q p omega i_sq - l_m / l_e (u_e - r_e i_e))
        / (sigma l_d),
      - of i_sq: (u_q - r_s i_sq - p omega (l_d i_sd + l_m i_e)) / l_q,
      - of i_e: (u_e - r_e i_e - l_m / l_d (u_d - r_s i_sd + l_q p omega i_sq))
        / (sigma l_e),
      - of epsilon: p omega,
    from the first three entries of the state and of the voltages. *)
Theorem electrical_ode_of_the_model
  (self self' : t) i_d i_q i_e rest u_d u_q u_e rest' omega :
  let mp := _motor_parameter self in
  _update_model self = Done self' ->
  l_q mp <> 0%Qc ->
  let s := (1 - l_m mp * l_m mp / (l_d mp * l_e mp))%Qc in
  sigma mp = Done s /\
  electrical_ode self' (i_d :: i_q :: i_e :: rest) (u_d :: u_q :: u_e :: rest') omega
  = Done [((u_d - r_s mp * i_d + l_q mp * p mp * omega * i_q
            - l_m mp / l_e mp * (u_e - r_e mp * i_e)) / (s * l_d mp));
          ((u_q - r_s mp * i_q - p mp * omega * (l_d mp * i_d + l_m mp * i_e))
           / l_q mp);
          ((u_e - r_e mp * i_e
            - l_m mp / l_d mp * (u_d - r_s mp * i_d + l_q mp * p mp * omega * i_q))
           / (s * l_e mp));
          p mp * omega]%Qc.
Proof.
  intros mp Hrun Hq s. split.
  - apply sigma_regular, (update_model_done _ _ Hrun).
  - now apply ode_closed_form.
Qed.

(** X21: [electrical_ode] needs the table of [_update_model]
    ([AttributeError] without it) and reads the entries 0, 1 and 2 of the
    state, as i_sd, i_sq and i_e, and the entries 0, 1 and 2 of the
    voltages: it raises [IndexError] when the state, or else the voltages,
    have fewer than three entries, and no further entry, so not the angle
    either, has any influence on what it returns. *)
Theorem electrical_ode_reads_three_entries (self : t) state u_dq omega :
  (_model_constants self = None ->
   electrical_ode self state u_dq omega
   = Failed (Python (AttributeError "_model_constants"))) /\
  (_model_constants self <> None -> length state < 3 ->
   electrical_ode self state u_dq omega
   = Failed (Python (IndexError "index out of range"))) /\
  (_model_constants self <> None -> 3 <= length state -> length u_dq < 3 ->
   electrical_ode self state u_dq omega
   = Failed (Python (IndexError "index out of range"))) /\
  electrical_ode self state u_dq omega
  = electrical_ode self (take 3 state) (take 3 u_dq) omega.
Proof.
  unfold electrical_ode.
  destruct (_model_constants self) as [m |].
  2:{ repeat split; try reflexivity; intros H; now contradiction H. }
  split; [discriminate |].
  destruct state as [| a [| b [| c rest]]]; cbn;
    try (repeat split; try reflexivity; intros; lia).
  destruct u_dq as [| x [| y [| z rest']]]; cbn;
    repeat split; try reflexivity; intros; lia.
Qed.

Lemma Done_inj {A} (x y : A) : Done x = Done y -> x = y.
Proof. intros H. now injection H. Qed.

Lemma cons_eq {A} (x y : A) l l' : x :: l = y :: l' -> x = y /\ l = l'.
Proof. intros H. now injection H. Qed.

Lemma Qcminus_zero (a b : Qc) : (a - b)%Qc = 0%Qc -> a = b.
Proof. intros H. rewrite <- (Qcplus_0_l b), <- H. ring. Qed.

Lemma three_halves : Q2Qc (3 # 2) <> 0%Qc.
Proof. discriminate. Qed.

Lemma jacobian_done (self : t) i_d i_q i_e rest u_in omega J B G :
  let mp := _motor_parameter self in
  electrical_jacobian self (i_d :: i_q :: i_e :: rest) u_in omega = Done (J, B, G) ->
  let s := (1 - l_m mp * l_m mp / (l_d mp * l_e mp))%Qc in
    sigma mp = Done s /\ s <> 0%Qc /\ l_d mp <> 0%Qc /\ l_e mp <> 0%Qc /\
    l_q mp <> 0%Qc /\
    J = [[- r_s mp / l_d mp; l_q mp / (s * l_d mp) * omega * p mp;
          l_m mp * r_e mp / (s * l_d mp * l_e mp); 0];
         [- l_d mp / l_q mp * omega * p mp; - r_s mp / l_q mp;
          - omega * p mp * l_e mp / l_q mp; 0];
         [l_m mp * r_s mp / (s * l_d mp * l_e mp);
          - omega * p mp * l_m mp * l_q mp / (s * l_d mp * l_e mp);
          - r_e mp / l_e mp; 0];
         [0; 0; 0; 0]]%Qc /\
    B = [p mp * l_q mp / l_d mp * i_q;
         - p mp * l_d mp / l_q mp * i_d - p mp * l_m mp / l_q mp * i_e;
         - p mp; p mp]%Qc /\
    G = [Q2Qc (3 # 2) * p mp * (l_d mp - l_q mp) * i_q;
         Q2Qc (3 # 2) * p mp * (l_e mp * i_e + (l_d mp - l_q mp) * i_d);
         Q2Qc (3 # 2) * p mp * l_e mp * i_q;
         0]%Qc.
Proof.
  intros mp Hrun. unfold electrical_jacobian in Hrun. fold mp in Hrun.
  destruct (Qc_eq_dec (l_d mp * l_e mp)%Qc 0%Qc) as [Hde | Hde].
  { unfold sigma in Hrun. rewrite (div_by_zero _ _ Hde) in Hrun. discriminate. }
  assert (Hsig : sigma mp
                 = Done (1 - l_m mp * l_m mp / (l_d mp * l_e mp))%Qc).
  { unfold sigma. now rewrite (div_ok _ _ Hde). }
  rewrite Hsig in Hrun. cbn [andthen] in Hrun.
  set (s := (1 - l_m mp * l_m mp / (l_d mp * l_e mp))%Qc) in *.
  apply Qcmult_nonzero in Hde as [Hd He].
  rewrite (div_ok _ _ Hd) in Hrun. cbn [andthen] in Hrun.
  destruct (Qc_eq_dec (s * l_d mp)%Qc 0%Qc) as [Hsd | Hsd].
  { rewrite (div_by_zero _ _ Hsd) in Hrun. discriminate. }
  apply Qcmult_nonzero in Hsd as [Hs _].
  destruct (Qc_eq_dec (l_q mp) 0%Qc) as [Hq | Hq].
  { rewrite !div_ok in Hrun
      by (repeat (apply Qcmult_nonzero; split); assumption).
    cbn [andthen] in Hrun. rewrite (div_by_zero _ _ Hq) in Hrun. discriminate. }
  rewrite !div_ok in Hrun by (repeat (apply Qcmult_nonzero; split); assumption).
  cbn in Hrun. injection Hrun as <- <- <-.
  repeat split; assumption.
Qed.

(** X22: [torque] reads the entries 2, 0 and 1 of the currents and
    raises [IndexError] when there are fewer than three.  It is of degree
    one in each current, so the amount by which it grows when a current
    grows by 1 is its partial derivative.  The third array of
    [electrical_jacobian], dT/dx, is made of these partial derivatives
    exactly when [p] is zero, or [l_e] equals [l_m], or both i_sq and i_e
    are zero: it is written with [l_e] where [torque] has [l_m]. *)
Theorem torque_and_its_gradient (self : t) i_d i_q i_e rest u_in omega J B G :
  let mp := _motor_parameter self in
  let state := i_d :: i_q :: i_e :: rest in
  electrical_jacobian self state u_in omega = Done (J, B, G) ->
  (forall currents, length currents < 3 ->
                    torque self currents
                    = Failed (Python (IndexError "index out of range"))) /\
  torque self state
  = Done (Q2Qc (3 # 2) * p mp * (l_m mp * i_e + (l_d mp - l_q mp) * i_d) * i_q)%Qc /\
  (forall j h g,
      increase (torque self) state j 1%Qc = Done g ->
      increase (torque self) state j h = Done (h * g)%Qc) /\
  (map (fun j => increase (torque self) state j 1%Qc) [0; 1; 2; 3] = map Done G
   <-> p mp = 0%Qc \/ l_e mp = l_m mp \/ (i_q = 0%Qc /\ i_e = 0%Qc)).
Proof.
  intros mp state Hrun.
  destruct (jacobian_done self i_d i_q i_e rest u_in omega J B G Hrun)
    as (_ & _ & _ & _ & _ & _ & _ & ->).
  fold mp. clear Hrun.
  split; [| split; [| split]].
  - intros [| a [| b [| c l]]] Hlen; try reflexivity. simpl in Hlen. lia.
  - reflexivity.
  - intros j h g. unfold increase, torque, state, shifted. fold mp.
    destruct j as [| [| [| j]]]; cbn; intros Hg; apply Done_inj in Hg;
      subst g; f_equal; unfold num in *; ring.
  - unfold increase, torque, state, shifted. fold mp. cbn. unfold num in *.
    split.
    + intros H. apply cons_eq in H as [_ H].
      apply cons_eq in H as [H1 H]. apply Done_inj in H1.
      apply cons_eq in H as [H2 _]. apply Done_inj in H2.
      assert (E1 : (Q2Qc (3 # 2) * (p mp * ((l_e mp - l_m mp) * i_e)))%Qc = 0%Qc).
      { transitivity
          (Q2Qc (3 # 2) * p mp * (l_e mp * i_e + (l_d mp - l_q mp) * i_d)
           - (Q2Qc (3 # 2) * p mp * (l_m mp * i_e + (l_d mp - l_q mp) * i_d)
                * (i_q + 1)
              - Q2Qc (3 # 2) * p mp * (l_m mp * i_e + (l_d mp - l_q mp) * i_d)
                  * i_q))%Qc; [ring |].
        rewrite H1. ring. }
      assert (E2 : (Q2Qc (3 # 2) * (p mp * ((l_e mp - l_m mp) * i_q)))%Qc = 0%Qc).
      { transitivity
          (Q2Qc (3 # 2) * p mp * l_e mp * i_q
           - (Q2Qc (3 # 2) * p mp
                * (l_m mp * (i_e + 1) + (l_d mp - l_q mp) * i_d) * i_q
              - Q2Qc (3 # 2) * p mp * (l_m mp * i_e + (l_d mp - l_q mp) * i_d)
                  * i_q))%Qc; [ring |].
        rewrite H2. ring. }
      destruct (Qcmult_integral _ _ E1) as [E | E1'];
        [now apply three_halves in E |].
      destruct (Qcmult_integral _ _ E1') as [Hp | E1'']; [now left |].
      destruct (Qcmult_integral _ _ E1'') as [Hl | Hie].
      { right. left. now apply Qcminus_zero. }
      destruct (Qcmult_integral _ _ E2) as [E | E2'];
        [now apply three_halves in E |].
      destruct (Qcmult_integral _ _ E2') as [Hp | E2'']; [now left |].
      destruct (Qcmult_integral _ _ E2'') as [Hl | Hiq].
      { right. left. now apply Qcminus_zero. }
      right. right. now split.
    + intros [Hp | [Hl | [Hq He]]].
      * rewrite Hp. repeat f_equal; ring.
      * rewrite Hl. repeat f_equal; ring.
      * rewrite Hq, He. repeat f_equal; ring.
Qed.

(** *** The Jacobian and the differential equation *)

Section Model.
Variables (self self' : t) (i_d i_q i_e : num) (rest : array)
  (u_d u_q u_e : num) (rest' : array).
Let mp := _motor_parameter self.
Let s := (1 - l_m mp * l_m mp / (l_d mp * l_e mp))%Qc.
Let state := i_d :: i_q :: i_e :: rest.
Let u := u_d :: u_q :: u_e :: rest'.
Hypothesis Hmodel : _update_model self = Done self'.
Hypothesis Hq : l_q mp <> 0%Qc.

Lemma model_nonzero : s <> 0%Qc /\ l_d mp <> 0%Qc /\ l_e mp <> 0%Qc.
Proof using Hmodel.
  destruct (sigma_regular mp (update_model_done _ _ Hmodel)) as (_ & H).
  exact H.
Qed.

(** What the derivatives gain when a state entry grows by [h]. *)
Lemma state_increases omega h :
  map (fun i => map (fun j => increase (derivative_of self' i u omega) state j h)
                  [0; 1; 2; 3]) [0; 1; 2; 3]
  = map (map (fun x => Done (h * x)%Qc))
      [[- r_s mp / (s * l_d mp); l_q mp / (s * l_d mp) * omega * p mp;
        l_m mp * r_e mp / (s * l_d mp * l_e mp); 0];
       [- l_d mp / l_q mp * omega * p mp; - r_s mp / l_q mp;
        - omega * p mp * l_m mp / l_q mp; 0];
       [l_m mp * r_s mp / (s * l_d mp * l_e mp);
        - omega * p mp * l_m mp * l_q mp / (s * l_d mp * l_e mp);
        - r_e mp / (s * l_e mp); 0];
       [0; 0; 0; 0]]%Qc.
Proof using Hmodel Hq.
  destruct model_nonzero as (Hs & Hd & He).
  unfold increase, derivative_of, shifted, state, u.
  cbn [map alter list_alter].
  rewrite !(ode_closed_form self self') by assumption.
  fold mp s. cbn [andthen item lookup list_lookup].
  unfold num in *.
  repeat (f_equal; try (field; repeat split; assumption)).
Qed.

(** What the derivatives gain when the speed grows by [h]. *)
Lemma speed_increases omega h :
  map (fun i => increase_with_speed self' i u state omega h) [0; 1; 2; 3]
  = map (fun x => Done (h * x)%Qc)
      [l_q mp * p mp * i_q / (s * l_d mp);
       - p mp * l_d mp / l_q mp * i_d - p mp * l_m mp / l_q mp * i_e;
       - (l_m mp * l_q mp * p mp * i_q / (s * l_d mp * l_e mp));
       p mp]%Qc.
Proof using Hmodel Hq.
  destruct model_nonzero as (Hs & Hd & He).
  unfold increase_with_speed, derivative_of, state, u. cbn [map].
  rewrite !(ode_closed_form self self') by assumption.
  fold mp s. cbn [andthen item lookup list_lookup].
  unfold num in *.
  repeat (f_equal; try (field; repeat split; assumption)).
Qed.

End Model.

Lemma update_model_keeps (self self' : t) :
  _update_model self = Done self' -> _motor_parameter self' = _motor_parameter self.
Proof.
  intros Hrun.
  rewrite (update_model_regular self (update_model_done _ _ Hrun)) in Hrun.
  now injection Hrun as <-.
Qed.

Lemma square_zero (x : Qc) : (x * x)%Qc = 0%Qc -> x = 0%Qc.
Proof. intros H. now destruct (Qcmult_integral _ _ H). Qed.

Lemma sigma_without_coupling (ld le : Qc) :
  ld <> 0%Qc -> le <> 0%Qc -> (1 - 0 * 0 / (ld * le))%Qc = 1%Qc.
Proof. intros Hd He. field. now split. Qed.

(** X23: the differential equation is of degree one in every entry of
    the state, so what each derivative gains when an entry grows by 1 is
    its partial derivative.  The first array of [electrical_jacobian],
    dx'/dx, is made of these partial derivatives exactly when [r_s] is zero
    or [l_m] is, [r_e] is zero or [l_m] is, and [omega] or [p] is zero or
    [l_e] equals [l_m]: against the table of [_update_model], its entries
    for d i_sd' / d i_sd and d i_e' / d i_e lack the division by [sigma],
    and its entry for d i_sq' / d i_e has [l_e] for [l_m]. *)
Theorem state_jacobian_and_the_model
  (self self' : t) i_d i_q i_e rest u_d u_q u_e rest' omega J B G :
  let mp := _motor_parameter self in
  let state := i_d :: i_q :: i_e :: rest in
  let u := u_d :: u_q :: u_e :: rest' in
  _update_model self = Done self' ->
  electrical_jacobian self' state u omega = Done (J, B, G) ->
  (forall i j h g,
      increase (derivative_of self' i u omega) state j 1%Qc = Done g ->
      increase (derivative_of self' i u omega) state j h = Done (h * g)%Qc) /\
  (map (fun i => map (fun j => increase (derivative_of self' i u omega) state j
                                 1%Qc) [0; 1; 2; 3]) [0; 1; 2; 3]
   = map (map Done) J
   <-> (r_s mp = 0%Qc \/ l_m mp = 0%Qc) /\ (r_e mp = 0%Qc \/ l_m mp = 0%Qc) /\
       (omega = 0%Qc \/ p mp = 0%Qc \/ l_e mp = l_m mp)).
Proof.
  intros mp state u Hmodel Hjac.
  pose proof (jacobian_done self' i_d i_q i_e rest u omega J B G Hjac) as HJ.
  rewrite (update_model_keeps _ _ Hmodel) in HJ. fold mp in HJ. cbn zeta in HJ.
  destruct HJ as (_ & Hs & Hd & He & Hq & -> & _ & _).
  split.
  - intros i j h g. unfold increase, derivative_of, shifted, state, u.
    destruct j as [| [| [| j]]]; cbn [alter list_alter];
      rewrite !(ode_closed_form self self') by assumption;
      fold mp; set (s := (1 - l_m mp * l_m mp / (l_d mp * l_e mp))%Qc) in *;
      cbn [andthen];
      destruct i as [| [| [| [| i]]]]; cbn [item lookup list_lookup andthen];
      try discriminate;
      intros Hg; apply Done_inj in Hg; subst g; f_equal; unfold num in *;
      field; repeat split; assumption.
  - unfold state, u.
    rewrite (state_increases self self' i_d i_q i_e rest u_d u_q u_e rest'
               Hmodel Hq omega 1%Qc).
    fold mp. cbn [map]. unfold num in *. rewrite !Qcmult_1_l.
    set (s := (1 - l_m mp * l_m mp / (l_d mp * l_e mp))%Qc) in *.
    split.
    + intros H.
      apply cons_eq in H as [H0 H]. apply cons_eq in H as [H1 H].
      apply cons_eq in H as [H2 _].
      apply cons_eq in H0 as [H00 _]. apply Done_inj in H00.
      apply cons_eq in H1 as [_ H1]. apply cons_eq in H1 as [_ H1].
      apply cons_eq in H1 as [H12 _]. apply Done_inj in H12.
      apply cons_eq in H2 as [_ H2]. apply cons_eq in H2 as [_ H2].
      apply cons_eq in H2 as [H22 _]. apply Done_inj in H22.
      assert (C : (l_m mp * l_m mp)%Qc = ((1 - s) * (l_d mp * l_e mp))%Qc)
        by (unfold s; field; split; assumption).
      assert (E0 : (r_s mp * (l_m mp * l_m mp))%Qc = 0%Qc).
      { transitivity ((- r_s mp / l_d mp - - r_s mp / (s * l_d mp))
                      * (s * l_d mp * l_d mp * l_e mp))%Qc.
        - rewrite C. field. repeat split; assumption.
        - rewrite H00. ring. }
      assert (E1 : (omega * (p mp * (l_e mp - l_m mp)))%Qc = 0%Qc).
      { transitivity ((- omega * p mp * l_m mp / l_q mp
                       - - omega * p mp * l_e mp / l_q mp) * l_q mp)%Qc.
        - field. assumption.
        - rewrite H12. ring. }
      assert (E2 : (r_e mp * (l_m mp * l_m mp))%Qc = 0%Qc).
      { transitivity ((- r_e mp / l_e mp - - r_e mp / (s * l_e mp))
                      * (s * l_d mp * l_e mp * l_e mp))%Qc.
        - rewrite C. field. repeat split; assumption.
        - rewrite H22. ring. }
      split; [| split].
      * destruct (Qcmult_integral _ _ E0) as [H | H];
          [now left | right; now apply square_zero].
      * destruct (Qcmult_integral _ _ E2) as [H | H];
          [now left | right; now apply square_zero].
      * destruct (Qcmult_integral _ _ E1) as [H | H]; [now left |].
        destruct (Qcmult_integral _ _ H) as [H' | H']; [right; now left |].
        right. right. now apply Qcminus_zero.
    + intros (H0 & H2 & H1).
      assert (A00 : (- r_s mp / (s * l_d mp))%Qc = (- r_s mp / l_d mp)%Qc).
      { destruct H0 as [Hr | Hm].
        - rewrite Hr. field. now split.
        - unfold s. rewrite Hm, (sigma_without_coupling _ _ Hd He). field.
          assumption. }
      assert (A22 : (- r_e mp / (s * l_e mp))%Qc = (- r_e mp / l_e mp)%Qc).
      { destruct H2 as [Hr | Hm].
        - rewrite Hr. field. now split.
        - unfold s. rewrite Hm, (sigma_without_coupling _ _ Hd He). field.
          assumption. }
      assert (A12 : (- omega * p mp * l_m mp / l_q mp)%Qc
                    = (- omega * p mp * l_e mp / l_q mp)%Qc).
      { destruct H1 as [Hw | [Hp | Hl]].
        - rewrite Hw. field. assumption.
        - rewrite Hp. field. assumption.
        - now rewrite Hl. }
      rewrite A00, A22, A12. reflexivity.
Qed.

(** X24: the differential equation is of degree one in the speed too.
    The second array of [electrical_jacobian], dx'/dw, is made of the
    partial derivatives in the speed only when [p] is zero: against the
    table of [_update_model], its entry for i_sd lacks the division by
    [sigma], and its entry for i_e is [-p] whatever the state. *)
Theorem speed_jacobian_and_the_model
  (self self' : t) i_d i_q i_e rest u_d u_q u_e rest' omega J B G :
  let mp := _motor_parameter self in
  let state := i_d :: i_q :: i_e :: rest in
  let u := u_d :: u_q :: u_e :: rest' in
  _update_model self = Done self' ->
  electrical_jacobian self' state u omega = Done (J, B, G) ->
  (forall i h g,
      increase_with_speed self' i u state omega 1%Qc = Done g ->
      increase_with_speed self' i u state omega h = Done (h * g)%Qc) /\
  (map (fun i => increase_with_speed self' i u state omega 1%Qc) [0; 1; 2; 3]
   = map Done B
   <-> p mp = 0%Qc).
Proof.
  intros mp state u Hmodel Hjac.
  pose proof (jacobian_done self' i_d i_q i_e rest u omega J B G Hjac) as HJ.
  rewrite (update_model_keeps _ _ Hmodel) in HJ. fold mp in HJ. cbn zeta in HJ.
  destruct HJ as (_ & Hs & Hd & He & Hq & _ & -> & _).
  split.
  - intros i h g. unfold increase_with_speed, derivative_of, state, u.
    rewrite !(ode_closed_form self self') by assumption.
    fold mp. set (s := (1 - l_m mp * l_m mp / (l_d mp * l_e mp))%Qc) in *.
    cbn [andthen].
    destruct i as [| [| [| [| i]]]]; cbn [item lookup list_lookup andthen];
      try discriminate;
      intros Hg; apply Done_inj in Hg; subst g; f_equal; unfold num in *;
      field; repeat split; assumption.
  - unfold state, u.
    rewrite (speed_increases self self' i_d i_q i_e rest u_d u_q u_e rest'
               Hmodel Hq omega 1%Qc).
    fold mp. cbn [map]. unfold num in *. rewrite !Qcmult_1_l.
    set (s := (1 - l_m mp * l_m mp / (l_d mp * l_e mp))%Qc) in *.
    split.
    + intros H.
      apply cons_eq in H as [H0 H]. apply Done_inj in H0.
      apply cons_eq in H as [_ H].
      apply cons_eq in H as [H2 _]. apply Done_inj in H2.
      destruct (Qc_eq_dec (p mp) 0%Qc) as [Hp | Hp]; [exact Hp | exfalso].
      assert (C : (l_m mp * l_m mp)%Qc = ((1 - s) * (l_d mp * l_e mp))%Qc)
        by (unfold s; field; split; assumption).
      assert (E0 : (p mp * (i_q * (l_m mp * l_m mp)))%Qc = 0%Qc).
      { transitivity ((l_q mp * p mp * i_q / (s * l_d mp)
                       - p mp * l_q mp / l_d mp * i_q)
                      * (s * l_d mp * l_d mp * l_e mp / l_q mp))%Qc.
        - rewrite C. field. repeat split; assumption.
        - rewrite H0. field. repeat split; assumption. }
      assert (E2 : (p mp * (s * l_d mp * l_e mp - l_m mp * l_q mp * i_q))%Qc
                   = 0%Qc).
      { transitivity ((- (l_m mp * l_q mp * p mp * i_q / (s * l_d mp * l_e mp))
                       - - p mp) * (s * l_d mp * l_e mp))%Qc.
        - field. repeat split; assumption.
        - rewrite H2. ring. }
      destruct (Qcmult_integral _ _ E0) as [H | H]; [contradiction |].
      destruct (Qcmult_integral _ _ E2) as [H' | H']; [contradiction |].
      apply Qcminus_zero in H'.
      assert (Hzero : (l_m mp * l_q mp * i_q)%Qc = 0%Qc).
      { destruct (Qcmult_integral _ _ H) as [Hi | Hm].
        - rewrite Hi. ring.
        - apply square_zero in Hm. rewrite Hm. ring. }
      rewrite Hzero in H'.
      apply (proj2 (Qcmult_nonzero _ _)) in H'; [exact H' |].
      split; [| exact He].
      apply Qcmult_nonzero. now split.
    + intros Hp. rewrite Hp. repeat f_equal; field; repeat split; assumption.
Qed.

Section OnTheDefaultMotor.

Lemma electrical_ode_of_the_model_witness :
  let mp := _default_motor_parameter in
  let s := (1 - l_m mp * l_m mp / (l_d mp * l_e mp))%Qc in
  sigma mp = Done s /\
  electrical_ode default_model [int 1; int 2; int 3; int 0] [int 10; int 20; int 30]
    (int 100)
  = Done [((int 10 - r_s mp * int 1 + l_q mp * p mp * int 100 * int 2
            - l_m mp / l_e mp * (int 30 - r_e mp * int 3)) / (s * l_d mp));
          ((int 20 - r_s mp * int 2
            - p mp * int 100 * (l_d mp * int 1 + l_m mp * int 3)) / l_q mp);
          ((int 30 - r_e mp * int 3
            - l_m mp / l_d mp
              * (int 10 - r_s mp * int 1 + l_q mp * p mp * int 100 * int 2))
           / (s * l_e mp));
          p mp * int 100]%Qc.
Proof.
  refine (electrical_ode_of_the_model default_motor default_model
            (int 1) (int 2) (int 3) [int 0] (int 10) (int 20) (int 30) [] (int 100)
            _ _).
  - vm_compute. reflexivity.
  - intros H. apply (f_equal this) in H. vm_compute in H. discriminate.
Defined.

Lemma torque_and_its_gradient_witness :
  let self := default_model in
  let mp := _default_motor_parameter in
  (forall currents, length currents < 3 ->
                    torque self currents
                    = Failed (Python (IndexError "index out of range"))) /\
  torque self demo_state
  = Done (Q2Qc (3 # 2) * p mp * (l_m mp * int 3 + (l_d mp - l_q mp) * int 1)
          * int 2)%Qc /\
  (forall j h g,
      increase (torque self) demo_state j 1%Qc = Done g ->
      increase (torque self) demo_state j h = Done (h * g)%Qc) /\
  (map (fun j => increase (torque self) demo_state j 1%Qc) [0; 1; 2; 3]
   = map Done demo_jacobian.2
   <-> p mp = 0%Qc \/ l_e mp = l_m mp \/ (int 2 = 0%Qc /\ int 3 = 0%Qc)).
Proof.
  refine (torque_and_its_gradient default_model (int 1) (int 2) (int 3) [int 0]
            demo_u demo_omega demo_jacobian.1.1 demo_jacobian.1.2 demo_jacobian.2
            _).
  vm_compute. reflexivity.
Defined.

Lemma state_jacobian_and_the_model_witness :
  let self' := default_model in
  let mp := _default_motor_parameter in
  (forall i j h g,
      increase (derivative_of self' i demo_u demo_omega) demo_state j 1%Qc = Done g ->
      increase (derivative_of self' i demo_u demo_omega) demo_state j h
      = Done (h * g)%Qc) /\
  (map (fun i => map (fun j => increase (derivative_of self' i demo_u demo_omega)
                                 demo_state j 1%Qc) [0; 1; 2; 3]) [0; 1; 2; 3]
   = map (map Done) demo_jacobian.1.1
   <-> (r_s mp = 0%Qc \/ l_m mp = 0%Qc) /\ (r_e mp = 0%Qc \/ l_m mp = 0%Qc) /\
       (demo_omega = 0%Qc \/ p mp = 0%Qc \/ l_e mp = l_m mp)).
Proof.
  refine (state_jacobian_and_the_model default_motor default_model
            (int 1) (int 2) (int 3) [int 0] (int 10) (int 20) (int 30) [] demo_omega
            demo_jacobian.1.1 demo_jacobian.1.2 demo_jacobian.2 _ _).
  - vm_compute. reflexivity.
  - vm_compute. reflexivity.
Defined.

Lemma speed_jacobian_and_the_model_witness :
  let self' := default_model in
  let mp := _default_motor_parameter in
  (forall i h g,
      increase_with_speed self' i demo_u demo_state demo_omega 1%Qc = Done g ->
      increase_with_speed self' i demo_u demo_state demo_omega h
      = Done (h * g)%Qc) /\
  (map (fun i => increase_with_speed self' i demo_u demo_state demo_omega 1%Qc)
     [0; 1; 2; 3]
   = map Done demo_jacobian.1.2
   <-> p mp = 0%Qc).
Proof.
  refine (speed_jacobian_and_the_model default_motor default_model
            (int 1) (int 2) (int 3) [int 0] (int 10) (int 20) (int 30) [] demo_omega
            demo_jacobian.1.1 demo_jacobian.1.2 demo_jacobian.2 _ _).
  - vm_compute. reflexivity.
  - vm_compute. reflexivity.
Defined.

End OnTheDefaultMotor.

End MotorProperties.
